(** * StereoPipeline: index windows, residuals, ground alignment, intrinsics
      options and the cloud-center estimator

    A shallow embedding of the parts of

      - [src/asp/Camera/JitterSolveCostFuns.cc]
      - [src/asp/Camera/BundleAdjustCamera.cc]
      - [src/asp/Camera/BundleAdjustCamera2.cc]
      - [src/asp/Tools/stereo_tri.cc]

    that the properties below are about.

    Conventions.
      - A C++ [double] is embedded as a rational number ([Q]): arithmetic is
        exact, and NaN, infinities and rounding are outside the model.
        Comparisons of doubles ([==], [<], [>]) are the decidable comparisons
        of [Q] up to [Qeq].
      - A C++ [int] is embedded as [Z]; the sources never rely on wrap-around
        and the embedding does not model overflow.
      - A function that may throw returns a [result]; a function that mutates
        its arguments returns the new values, and when it throws half-way the
        exception carries the state reached so far ([outcome]).
      - Functions of other libraries (usgscsm, VisionWorkbench, ceres, libm)
        that the sources call are parameters of the definitions that use
        them. *)

From Stdlib Require Import ZArith QArith Qround Qminmax Qabs.
From Stdlib Require Import List String Ascii Bool Lia Lqa Morphisms.
From Stdlib Require Import Sorted Permutation.
Import ListNotations.


(* ===================================================================== *)
(** * Part I: the embedding                                               *)
(* ===================================================================== *)

Module Core.

Definition double := Q.

(** Exceptions. Everything the sources throw ([vw::ArgumentErr] through
    [vw_throw], and what the camera libraries throw) derives from
    [std::exception]. *)
Inductive exn : Type :=
| ArgumentErr (msg : string)
| StdException (what : string).

Inductive result (A : Type) : Type :=
| Ok (a : A)
| Throw (e : exn).
Arguments Ok {A} a.
Arguments Throw {A} e.

(** Outcome of code that mutates a state of type [S]. *)
Inductive outcome (S A : Type) : Type :=
| Ret (a : A) (s : S)
| Raise (e : exn) (s : S).
Arguments Ret {S A} a s.
Arguments Raise {S A} e s.

(** [for (i = lo; i < lo + n; i++)]: the values of the loop variable. *)
Fixpoint Zseq (lo : Z) (n : nat) : list Z :=
  match n with
  | O => []
  | S n' => lo :: Zseq (lo + 1) n'
  end.

(** [for (i = lo; i < hi; i++)] *)
Definition Zrange (lo hi : Z) : list Z := Zseq lo (Z.to_nat (hi - lo)).

(** [a[i]] on a [std::vector] or a raw array, read. An index out of range
    is undefined behaviour in C++; the embedding reads [d]. *)
Definition array_get {A} (d : A) (a : list A) (i : Z) : A :=
  if (i <? 0)%Z then d else nth (Z.to_nat i) a d.

Fixpoint list_set {A} (a : list A) (i : nat) (v : A) : list A :=
  match a, i with
  | [], _ => []
  | _ :: t, O => v :: t
  | h :: t, S i' => h :: list_set t i' v
  end.

(** [a[i] = v]. An index out of range is undefined behaviour in C++; the
    embedding leaves the array as it is. *)
Definition array_set {A} (a : list A) (i : Z) (v : A) : list A :=
  if (i <? 0)%Z then a else list_set a (Z.to_nat i) v.

(** ** Small vectors and matrices of VisionWorkbench *)

Definition Vector2 : Type := (double * double)%type.

Record Vector3 : Type := V3 { v3x : double; v3y : double; v3z : double }.

(** [Vector3()]: VisionWorkbench value-initialises to zero. *)
Definition Vector3_zero : Vector3 := V3 0 0 0.

Record Matrix3x3 : Type := M3 { row0 : Vector3; row1 : Vector3; row2 : Vector3 }.

Local Open Scope Q_scope.

(** [a == b] on vectors: all components compare equal. *)
Definition Vector3_eqb (a b : Vector3) : bool :=
  Qeq_bool (v3x a) (v3x b) && Qeq_bool (v3y a) (v3y b) && Qeq_bool (v3z a) (v3z b).

Definition Vector3_add (a b : Vector3) : Vector3 :=
  V3 (v3x a + v3x b) (v3y a + v3y b) (v3z a + v3z b).

Definition Vector3_sub (a b : Vector3) : Vector3 :=
  V3 (v3x a - v3x b) (v3y a - v3y b) (v3z a - v3z b).

(** [v / s] *)
Definition Vector3_div (a : Vector3) (s : double) : Vector3 :=
  V3 (v3x a / s) (v3y a / s) (v3z a / s).

Definition dot_prod (a b : Vector3) : double :=
  v3x a * v3x b + v3y a * v3y b + v3z a * v3z b.

(** [s * M] *)
Definition Matrix3x3_scale (s : double) (m : Matrix3x3) : Matrix3x3 :=
  let sc r := V3 (s * v3x r) (s * v3y r) (s * v3z r) in
  M3 (sc (row0 m)) (sc (row1 m)) (sc (row2 m)).

(** [M * v] *)
Definition Matrix3x3_apply (m : Matrix3x3) (v : Vector3) : Vector3 :=
  V3 (dot_prod (row0 m) v) (dot_prod (row1 m) v) (dot_prod (row2 m) v).

Definition Matrix3x3_col (m : Matrix3x3) (j : nat) : Vector3 :=
  let pick r := match j with O => v3x r | S O => v3y r | _ => v3z r end in
  V3 (pick (row0 m)) (pick (row1 m)) (pick (row2 m)).

(** [A * B] *)
Definition Matrix3x3_mul (a b : Matrix3x3) : Matrix3x3 :=
  let r x := V3 (dot_prod x (Matrix3x3_col b 0))
                (dot_prod x (Matrix3x3_col b 1))
                (dot_prod x (Matrix3x3_col b 2)) in
  M3 (r (row0 a)) (r (row1 a)) (r (row2 a)).

(** [static_cast<int>(x)] for a double [x]: truncation toward zero. *)
Definition static_cast_int (x : double) : Z :=
  Z.quot (Qnum x) (Zpos (Qden x)).

(** [round(x)] of libm: the nearest integer, halfway cases away from zero. *)
Definition round (x : double) : double :=
  inject_Z (if Qle_bool 0 x then Qfloor (x + (1 # 2)) else Qceiling (x - (1 # 2))).

End Core.

Import Core.

(* --------------------------------------------------------------------- *)
(** ** JitterSolveCostFuns.cc                                             *)
(* --------------------------------------------------------------------- *)

Module JitterSolveCostFuns.

Local Open Scope Z_scope.

Definition NUM_XYZ_PARAMS : Z := 3.
Definition NUM_QUAT_PARAMS : Z := 4.
Definition PIXEL_SIZE : Z := 2.

(** [const double g_big_pixel_value = 1000.0;] *)
Definition g_big_pixel_value : double := 1000%Q.

(** [csm::EcefCoord] and [csm::ImageCoord] *)
Record EcefCoord : Type := Ecef { ecef_x : double; ecef_y : double; ecef_z : double }.
Record ImageCoord : Type := ImagePt { line : double; samp : double }.

(** The fields of [UsgsAstroLsSensorModel] that this file reads and
    writes: the flat arrays of quaternion samples (4 doubles each) and of
    position samples (3 doubles each), and their time grids. *)
Record UsgsAstroLsSensorModel : Type := LsModel {
  m_quaternions : list double;
  m_positions   : list double;
  m_t0Quat  : double;
  m_dtQuat  : double;
  m_t0Ephem : double;
  m_dtEphem : double
}.

(** [UsgsAstroFrameSensorModel]: its adjustable parameters, position
    (3 values) then quaternion (4 values). *)
Record UsgsAstroFrameSensorModel : Type := FrameModel {
  m_currentParameterValue : list double
}.

(** What the sources call in usgscsm and in [asp/Camera/CsmModel]. *)
Record CsmApi : Type := {
  ls_groundToImage :
    UsgsAstroLsSensorModel -> EcefCoord -> double -> result ImageCoord;
  ls_getImageTime : UsgsAstroLsSensorModel -> ImageCoord -> double;
  frame_groundToImage :
    UsgsAstroFrameSensorModel -> EcefCoord -> double -> result ImageCoord;
  toCsmPixel : Vector2 -> ImageCoord;
  fromCsmPixel : ImageCoord -> Vector2;
  DEFAULT_CSM_DESIRED_PRECISION : double
}.

(** [cam.setParameterValue(index, value)] *)
Definition setParameterValue (cam : UsgsAstroFrameSensorModel) (index : Z)
    (value : double) : UsgsAstroFrameSensorModel :=
  FrameModel (array_set (m_currentParameterValue cam) index value).

(** [double const * const * parameters]: the parameter blocks, in the
    order in which they were added to the cost function. *)
Definition parameter_blocks : Type := list (list double).

(** [parameters[k][coord]] *)
Definition param (parameters : parameter_blocks) (k coord : Z) : double :=
  array_get 0%Q (array_get [] parameters k) coord.

(** [for (i = beg; i < end; i++) for (coord = 0; coord < n; coord++)
      arr[n * i + coord] = parameters[i + shift - beg][coord];] *)
Definition overwrite_samples (n : Z) (beg end_ shift : Z)
    (parameters : parameter_blocks) (arr : list double) : list double :=
  fold_left
    (fun arr i =>
       fold_left
         (fun arr coord =>
            array_set arr (n * i + coord) (param parameters (i + shift - beg) coord))
         (Zrange 0 n) arr)
    (Zrange beg end_) arr.

(** *** [struct LsPixelReprojErr] *)
Record LsPixelReprojErr : Type := {
  ls_observation : Vector2;
  ls_weight : double;
  ls_model : UsgsAstroLsSensorModel;
  m_begQuatIndex : Z;
  m_endQuatIndex : Z;
  m_begPosIndex : Z;
  m_endPosIndex : Z
}.

(** The local copy [cam] of the model after the two update loops of
    [LsPixelReprojErr::operator()]. *)
Definition ls_updated_copy (f : LsPixelReprojErr) (parameters : parameter_blocks)
    : UsgsAstroLsSensorModel :=
  let cam := ls_model f in
  let shift := 0 in
  let quats :=
    overwrite_samples NUM_QUAT_PARAMS (m_begQuatIndex f) (m_endQuatIndex f) shift
      parameters (m_quaternions cam) in
  let shift := shift + (m_endQuatIndex f - m_begQuatIndex f) in
  let poss :=
    overwrite_samples NUM_XYZ_PARAMS (m_begPosIndex f) (m_endPosIndex f) shift
      parameters (m_positions cam) in
  LsModel quats poss (m_t0Quat cam) (m_dtQuat cam) (m_t0Ephem cam) (m_dtEphem cam).

(** The triangulated point, after the quaternion and position blocks. *)
Definition ls_point (f : LsPixelReprojErr) (parameters : parameter_blocks) : EcefCoord :=
  let shift := (m_endQuatIndex f - m_begQuatIndex f)
               + (m_endPosIndex f - m_begPosIndex f) in
  Ecef (param parameters shift 0) (param parameters shift 1) (param parameters shift 2).

(** [bool LsPixelReprojErr::operator()(parameters, residuals)]: the
    returned flag and the two residuals written. *)
Definition LsPixelReprojErr_call (api : CsmApi) (f : LsPixelReprojErr)
    (parameters : parameter_blocks) : bool * (double * double) :=
  let cam := ls_updated_copy f parameters in
  let P := ls_point f parameters in
  let desired_precision := DEFAULT_CSM_DESIRED_PRECISION api in
  match ls_groundToImage api cam P desired_precision with
  | Ok imagePt =>
      let pix := fromCsmPixel api imagePt in
      (true, ((ls_weight f * (fst pix - fst (ls_observation f)))%Q,
              (ls_weight f * (snd pix - snd (ls_observation f)))%Q))
  | Throw _ =>
      (true, (g_big_pixel_value, g_big_pixel_value))
  end.

(** *** [struct FramePixelReprojErr] *)
Record FramePixelReprojErr : Type := {
  fr_observation : Vector2;
  fr_weight : double;
  fr_model : UsgsAstroFrameSensorModel
}.

(** The local copy [cam] after the position (block 0) and the
    quaternion (block 1) were set. *)
Definition frame_updated_copy (f : FramePixelReprojErr)
    (parameters : parameter_blocks) : UsgsAstroFrameSensorModel :=
  let cam := fr_model f in
  let cam :=
    fold_left (fun cam coord => setParameterValue cam coord (param parameters 0 coord))
      (Zrange 0 NUM_XYZ_PARAMS) cam in
  fold_left
    (fun cam coord =>
       setParameterValue cam (coord + NUM_XYZ_PARAMS) (param parameters 1 coord))
    (Zrange 0 NUM_QUAT_PARAMS) cam.

(** [bool FramePixelReprojErr::operator()(parameters, residuals)] *)
Definition FramePixelReprojErr_call (api : CsmApi) (f : FramePixelReprojErr)
    (parameters : parameter_blocks) : bool * (double * double) :=
  let cam := frame_updated_copy f parameters in
  let P := Ecef (param parameters 2 0) (param parameters 2 1) (param parameters 2 2) in
  let desired_precision := DEFAULT_CSM_DESIRED_PRECISION api in
  match frame_groundToImage api cam P desired_precision with
  | Ok imagePt =>
      let pix := fromCsmPixel api imagePt in
      (true, ((fr_weight f * (fst pix - fst (fr_observation f)))%Q,
              (fr_weight f * (snd pix - snd (fr_observation f)))%Q))
  | Throw _ =>
      (true, (g_big_pixel_value, g_big_pixel_value))
  end.

(** *** [calcIndexBounds] *)

(** The outputs [(begIndex, endIndex)], or the exception thrown. *)
Definition calcIndexBounds (time1 time2 t0 dt : double) (numVals : Z)
    : result (Z * Z) :=
  let numInterpSamples := 8 in
  let index1 := static_cast_int ((time1 - t0) / dt)%Q in
  let index2 := static_cast_int ((time2 - t0) / dt)%Q in
  let begIndex := Z.min index1 index2 - Z.quot numInterpSamples 2 + 1 in
  let endIndex := Z.max index1 index2 + Z.quot numInterpSamples 2 + 1 in
  let begIndex := Z.max 0 begIndex in
  let endIndex := Z.min endIndex numVals in
  if begIndex >=? endIndex
  then Throw (ArgumentErr
                "Book-keeping error in interpolation. Likely image order is different than camera order.")
  else Ok (begIndex, endIndex).

(** *** [addLsReprojectionErr] *)

(** The two option fields read here. *)
Record BaBaseOptions : Type := {
  max_init_reproj_error : double;
  robust_threshold : double
}.

(** Where a parameter block lives: a quaternion sample or a position sample
    of the model, or the triangulated point. *)
Inductive block_address : Type :=
| QuatSample (it : Z)
| PosSample (it : Z)
| TriPoint.

(** The residual block handed to [problem.AddResidualBlock]: the cost
    functor, the scale of the Cauchy loss, and the addresses in [vars]. *)
Record LsResidualBlock : Type := {
  rb_cost : LsPixelReprojErr;
  rb_loss_scale : double;
  rb_vars : list block_address
}.

Definition addLsReprojectionErr (api : CsmApi) (opt : BaBaseOptions)
    (model : UsgsAstroLsSensorModel) (observation : Vector2) (weight : double)
    : result LsResidualBlock :=
  let line_extra := (max_init_reproj_error opt + 5)%Q in
  let imagePt1 :=
    toCsmPixel api (fst observation - 0, snd observation - line_extra)%Q in
  let imagePt2 :=
    toCsmPixel api (fst observation + 0, snd observation + line_extra)%Q in
  let time1 := ls_getImageTime api model imagePt1 in
  let time2 := ls_getImageTime api model imagePt2 in
  let numQuat := Z.quot (Z.of_nat (List.length (m_quaternions model))) NUM_QUAT_PARAMS in
  match calcIndexBounds time1 time2 (m_t0Quat model) (m_dtQuat model) numQuat with
  | Throw e => Throw e
  | Ok (begQuatIndex, endQuatIndex) =>
      let numPos := Z.quot (Z.of_nat (List.length (m_positions model))) NUM_XYZ_PARAMS in
      match calcIndexBounds time1 time2 (m_t0Ephem model) (m_dtEphem model) numPos with
      | Throw e => Throw e
      | Ok (begPosIndex, endPosIndex) =>
          Ok {| rb_cost :=
                  {| ls_observation := observation; ls_weight := weight;
                     ls_model := model;
                     m_begQuatIndex := begQuatIndex; m_endQuatIndex := endQuatIndex;
                     m_begPosIndex := begPosIndex; m_endPosIndex := endPosIndex |};
                rb_loss_scale := robust_threshold opt;
                rb_vars :=
                  map QuatSample (Zrange begQuatIndex endQuatIndex)
                  ++ map PosSample (Zrange begPosIndex endPosIndex)
                  ++ [TriPoint] |}
      end
  end.

(** *** [weightedRollYawError::operator()] *)

(** The members set by the constructor. *)
Record weightedRollYawError : Type := {
  m_rollWeight : double;
  m_yawWeight : double;
  m_initial_camera_constraint : bool;
  m_sat2World : Matrix3x3;
  m_rotXY : Matrix3x3;
  m_initCam2World : Matrix3x3
}.

(** What the operator calls in [asp/Core] and VisionWorkbench.
    [rollPitchYawFromRotationMatrix] gives (roll, pitch, yaw) in degrees. *)
Record RotationApi : Type := {
  quaternionToMatrix : list double -> Matrix3x3;
  inverse : Matrix3x3 -> Matrix3x3;
  rollPitchYawFromRotationMatrix : Matrix3x3 -> double * double * double
}.

(** [a - 180.0 * round(a / 180.0)] *)
Definition fix_180 (a : double) : double := (a - 180 * round (a / 180))%Q.

Definition weightedRollYawError_call (api : RotationApi) (f : weightedRollYawError)
    (parameters : parameter_blocks) : bool * (double * double) :=
  let cam2world := quaternionToMatrix api (array_get [] parameters 0) in
  if m_initial_camera_constraint f then
    let cam2cam := Matrix3x3_mul (inverse api cam2world) (m_initCam2World f) in
    let '(roll, pitch, yaw) := rollPitchYawFromRotationMatrix api cam2cam in
    let roll := fix_180 roll in
    let pitch := fix_180 pitch in
    let yaw := fix_180 yaw in
    (true, ((pitch * m_rollWeight f)%Q, (yaw * m_yawWeight f)%Q))
  else
    let rollPitchYaw :=
      Matrix3x3_mul (Matrix3x3_mul (inverse api (m_sat2World f)) cam2world)
                    (inverse api (m_rotXY f)) in
    let '(roll, pitch, yaw) := rollPitchYawFromRotationMatrix api rollPitchYaw in
    let roll := fix_180 roll in
    let pitch := fix_180 pitch in
    let yaw := fix_180 yaw in
    (true, ((roll * m_rollWeight f)%Q, (yaw * m_yawWeight f)%Q)).

(** *** The cost functions that the factories build *)

(** A [ceres::DynamicNumericDiffCostFunction]: the functor, the number of
    residuals, and the sizes of the parameter blocks in the order in which
    they were added. *)
Record DynamicCostFunction (F : Type) : Type := CostFunction {
  cf_functor : F;
  cf_num_residuals : Z;
  cf_parameter_blocks : list Z
}.
Arguments CostFunction {F} cf_functor cf_num_residuals cf_parameter_blocks.
Arguments cf_functor {F} d.
Arguments cf_num_residuals {F} d.
Arguments cf_parameter_blocks {F} d.

(** [LsPixelReprojErr::Create] *)
Definition LsPixelReprojErr_Create (observation : Vector2) (weight : double)
    (model : UsgsAstroLsSensorModel)
    (begQuatIndex endQuatIndex begPosIndex endPosIndex : Z)
    : DynamicCostFunction LsPixelReprojErr :=
  CostFunction
    {| ls_observation := observation; ls_weight := weight; ls_model := model;
       m_begQuatIndex := begQuatIndex; m_endQuatIndex := endQuatIndex;
       m_begPosIndex := begPosIndex; m_endPosIndex := endPosIndex |}
    PIXEL_SIZE
    (map (fun _ => NUM_QUAT_PARAMS) (Zrange begQuatIndex endQuatIndex)
     ++ map (fun _ => NUM_XYZ_PARAMS) (Zrange begPosIndex endPosIndex)
     ++ [NUM_XYZ_PARAMS]).

(** *** [struct RigLsFramePixelReprojErr] *)

(** The fields of [asp::RigCamInfo] read in this file. *)
Record RigCamInfo : Type := {
  beg_pose_time : double;
  end_pose_time : double
}.

(** What the rig cost calls in [asp/Rig]: [asp::linescanToCurrSensorTrans],
    which gives the camera-to-world vector of the current sensor (position,
    then quaternion), and [rig::NUM_RIGID_PARAMS]. *)
Record RigApi : Type := {
  linescanToCurrSensorTrans :
    UsgsAstroLsSensorModel -> RigCamInfo -> list double -> result (list double);
  NUM_RIGID_PARAMS : Z
}.

Record RigLsFramePixelReprojErr : Type := {
  rig_frame_pix : Vector2;
  rig_weight : double;
  rig_cam_info : RigCamInfo;
  rig_ref_ls_model : UsgsAstroLsSensorModel;
  rig_curr_frame_model : UsgsAstroFrameSensorModel;
  rig_begQuatIndex : Z;
  rig_endQuatIndex : Z;
  rig_begPosIndex : Z;
  rig_endPosIndex : Z
}.

(** The local copy [ls_cam] of the reference linescan model after the two
    update loops of [RigLsFramePixelReprojErr::operator()]. *)
Definition rig_updated_copy (f : RigLsFramePixelReprojErr)
    (parameters : parameter_blocks) : UsgsAstroLsSensorModel :=
  let ls_cam := rig_ref_ls_model f in
  let shift := 0 in
  let quats :=
    overwrite_samples NUM_QUAT_PARAMS (rig_begQuatIndex f) (rig_endQuatIndex f) shift
      parameters (m_quaternions ls_cam) in
  let shift := shift + (rig_endQuatIndex f - rig_begQuatIndex f) in
  let poss :=
    overwrite_samples NUM_XYZ_PARAMS (rig_begPosIndex f) (rig_endPosIndex f) shift
      parameters (m_positions ls_cam) in
  LsModel quats poss (m_t0Quat ls_cam) (m_dtQuat ls_cam) (m_t0Ephem ls_cam)
    (m_dtEphem ls_cam).

(** [bool RigLsFramePixelReprojErr::operator()(parameters, residuals)] *)
Definition RigLsFramePixelReprojErr_call (api : CsmApi) (rig : RigApi)
    (f : RigLsFramePixelReprojErr) (parameters : parameter_blocks)
    : bool * (double * double) :=
  let ls_cam := rig_updated_copy f parameters in
  let shift := (rig_endQuatIndex f - rig_begQuatIndex f)
               + (rig_endPosIndex f - rig_begPosIndex f) in
  let P := Ecef (param parameters shift 0) (param parameters shift 1)
                (param parameters shift 2) in
  let shift := shift + 1 in
  let ref_to_curr_trans := array_get [] parameters shift in
  match linescanToCurrSensorTrans rig ls_cam (rig_cam_info f) ref_to_curr_trans with
  | Throw _ => (true, (g_big_pixel_value, g_big_pixel_value))
  | Ok cam2world_vec =>
      let frame_cam :=
        fold_left
          (fun cam coord => setParameterValue cam coord (array_get 0%Q cam2world_vec coord))
          (Zrange 0 (NUM_XYZ_PARAMS + NUM_QUAT_PARAMS)) (rig_curr_frame_model f) in
      let desired_precision := DEFAULT_CSM_DESIRED_PRECISION api in
      match frame_groundToImage api frame_cam P desired_precision with
      | Ok imagePt =>
          let pix := fromCsmPixel api imagePt in
          (true, ((rig_weight f * (fst pix - fst (rig_frame_pix f)))%Q,
                  (rig_weight f * (snd pix - snd (rig_frame_pix f)))%Q))
      | Throw _ => (true, (g_big_pixel_value, g_big_pixel_value))
      end
  end.

(** [RigLsFramePixelReprojErr::Create] *)
Definition RigLsFramePixelReprojErr_Create (rig : RigApi) (frame_pix : Vector2)
    (weight : double) (info : RigCamInfo) (ref_ls_model : UsgsAstroLsSensorModel)
    (curr_frame_model : UsgsAstroFrameSensorModel)
    (begQuatIndex endQuatIndex begPosIndex endPosIndex : Z)
    : DynamicCostFunction RigLsFramePixelReprojErr :=
  CostFunction
    {| rig_frame_pix := frame_pix; rig_weight := weight; rig_cam_info := info;
       rig_ref_ls_model := ref_ls_model; rig_curr_frame_model := curr_frame_model;
       rig_begQuatIndex := begQuatIndex; rig_endQuatIndex := endQuatIndex;
       rig_begPosIndex := begPosIndex; rig_endPosIndex := endPosIndex |}
    PIXEL_SIZE
    (map (fun _ => NUM_QUAT_PARAMS) (Zrange begQuatIndex endQuatIndex)
     ++ map (fun _ => NUM_XYZ_PARAMS) (Zrange begPosIndex endPosIndex)
     ++ [NUM_XYZ_PARAMS]
     ++ [NUM_RIGID_PARAMS rig]).

(** Where a parameter block of the rig cost lives: a sample of the
    reference linescan model, the triangulated point, or the transform from
    the reference sensor to the current one. *)
Inductive rig_block_address : Type :=
| RigQuatSample (it : Z)
| RigPosSample (it : Z)
| RigTriPoint
| RigRefToCurr.

Record RigResidualBlock : Type := {
  rrb_cost : DynamicCostFunction RigLsFramePixelReprojErr;
  rrb_loss_scale : double;
  rrb_vars : list rig_block_address
}.

(** [addRigLsFrameReprojectionErr] *)
Definition addRigLsFrameReprojectionErr (api : CsmApi) (rig : RigApi)
    (opt : BaBaseOptions) (info : RigCamInfo) (frame_pix : Vector2) (weight : double)
    (ref_ls_model : UsgsAstroLsSensorModel)
    (curr_frame_model : UsgsAstroFrameSensorModel) : result RigResidualBlock :=
  let frame_time := beg_pose_time info in
  if negb (Qeq_bool frame_time (end_pose_time info)) then
    Throw (ArgumentErr "For a frame sensor beg and end pose time must be same.")
  else
    let line_extra := (max_init_reproj_error opt + 5)%Q in
    let imagePt1 := toCsmPixel api (0, 0)%Q in
    let imagePt2 := toCsmPixel api (0, line_extra)%Q in
    let ans1 := ls_getImageTime api ref_ls_model imagePt1 in
    let ans2 := ls_getImageTime api ref_ls_model imagePt2 in
    let delta := Qabs (ans2 - ans1) in
    let time1 := (frame_time - delta)%Q in
    let time2 := (frame_time + delta)%Q in
    let numQuat :=
      Z.quot (Z.of_nat (List.length (m_quaternions ref_ls_model))) NUM_QUAT_PARAMS in
    match calcIndexBounds time1 time2 (m_t0Quat ref_ls_model) (m_dtQuat ref_ls_model)
            numQuat with
    | Throw e => Throw e
    | Ok (begQuatIndex, endQuatIndex) =>
        let numPos :=
          Z.quot (Z.of_nat (List.length (m_positions ref_ls_model))) NUM_XYZ_PARAMS in
        match calcIndexBounds time1 time2 (m_t0Ephem ref_ls_model)
                (m_dtEphem ref_ls_model) numPos with
        | Throw e => Throw e
        | Ok (begPosIndex, endPosIndex) =>
            Ok {| rrb_cost :=
                    RigLsFramePixelReprojErr_Create rig frame_pix weight info
                      ref_ls_model curr_frame_model begQuatIndex endQuatIndex
                      begPosIndex endPosIndex;
                  rrb_loss_scale := robust_threshold opt;
                  rrb_vars :=
                    map RigQuatSample (Zrange begQuatIndex endQuatIndex)
                    ++ map RigPosSample (Zrange begPosIndex endPosIndex)
                    ++ [RigTriPoint] ++ [RigRefToCurr] |}
        end
    end.

(** *** The constructor of [weightedRollYawError] *)

(** [vw::math::cross_prod] *)
Definition cross_prod (a b : Vector3) : Vector3 :=
  V3 (v3y a * v3z b - v3z a * v3y b)%Q
     (v3z a * v3x b - v3x a * v3z b)%Q
     (v3x a * v3y b - v3y a * v3x b)%Q.

(** What the constructor calls in [vw/Cartography], [asp/Core/SatSimBase]
    and [asp/Core/CameraTransforms], for georeferences of type [G];
    [calcProjAlongAcross] and [calcEcefAlongAcross] give the along and
    across directions. *)
Record SatSimApi (G : Type) : Type := {
  ecefToProj : G -> Vector3 -> Vector3;
  calcProjAlongAcross : Vector3 -> Vector3 -> Vector3 * Vector3;
  satSimDelta : double;
  calcEcefAlongAcross :
    G -> double -> Vector3 -> Vector3 -> Vector3 -> Vector3 * Vector3;
  norm_2 : Vector3 -> double;
  assembleCam2WorldMatrix : Vector3 -> Vector3 -> Vector3 -> Matrix3x3;
  rotationXY : Matrix3x3
}.
Arguments ecefToProj {G} s _ _.
Arguments calcProjAlongAcross {G} s _ _.
Arguments satSimDelta {G} s.
Arguments calcEcefAlongAcross {G} s _ _ _ _ _.
Arguments norm_2 {G} s _.
Arguments assembleCam2WorldMatrix {G} s _ _ _.
Arguments rotationXY {G} s.

(** [Vector3(a[i], a[i+1], a[i+2])] *)
Definition point_at (a : list double) (i : Z) : Vector3 :=
  V3 (array_get 0%Q a i) (array_get 0%Q a (i + 1)) (array_get 0%Q a (i + 2)).

(** [weightedRollYawError::weightedRollYawError]: the functor built, or
    the exception thrown. *)
Definition weightedRollYawError_new {G : Type} (rot : RotationApi) (sat : SatSimApi G)
    (positions quaternions : list double) (georef : G) (cur_pos : Z)
    (rollWeight yawWeight : double) (initial_camera_constraint : bool)
    : result weightedRollYawError :=
  let num_pos := Z.quot (Z.of_nat (List.length positions)) NUM_XYZ_PARAMS in
  let num_quat := Z.quot (Z.of_nat (List.length quaternions)) NUM_QUAT_PARAMS in
  if negb (num_pos =? num_quat) then
    Throw (ArgumentErr
             "weightedRollYawError: Expecting the same number of positions and quaternions.")
  else if (cur_pos <? 0) || (cur_pos >=? num_pos) then
    Throw (ArgumentErr "weightedRollYawError: Expecting position index in range.")
  else
    let beg_pos := Z.max 0 (cur_pos - 1) in
    let end_pos := Z.min (num_pos - 1) (cur_pos + 1) in
    if beg_pos >=? end_pos then
      Throw (ArgumentErr "weightedRollYawError: Expecting at least 2 camera positions.")
    else
      let b := beg_pos * NUM_XYZ_PARAMS in
      let c := cur_pos * NUM_XYZ_PARAMS in
      let e := end_pos * NUM_XYZ_PARAMS in
      let beg_pt := point_at positions b in
      let cur_pt := point_at positions c in
      let end_pt := point_at positions e in
      let beg_proj := ecefToProj sat georef beg_pt in
      let cur_proj := ecefToProj sat georef cur_pt in
      let end_proj := ecefToProj sat georef end_pt in
      let '(proj_along, proj_across) := calcProjAlongAcross sat beg_proj end_proj in
      let '(along, across) :=
        calcEcefAlongAcross sat georef (satSimDelta sat) proj_along proj_across
          cur_proj in
      let down := cross_prod along across in
      let down := Vector3_div down (norm_2 sat down) in
      Ok {| m_rollWeight := rollWeight; m_yawWeight := yawWeight;
            m_initial_camera_constraint := initial_camera_constraint;
            m_sat2World := assembleCam2WorldMatrix sat along across down;
            m_rotXY := rotationXY sat;
            m_initCam2World :=
              quaternionToMatrix rot
                (skipn (Z.to_nat (cur_pos * NUM_QUAT_PARAMS)) quaternions) |}.

End JitterSolveCostFuns.

(* --------------------------------------------------------------------- *)
(** ** BundleAdjustCamera.cc                                              *)
(* --------------------------------------------------------------------- *)

Module BundleAdjustCamera.

Local Open Scope Q_scope.

(** [vw::ba::ControlPoint::ControlPointType], of VisionWorkbench; the
    sources only test for [GroundControlPoint]. *)
Inductive ControlPointType : Type :=
| GroundControlPoint
| TiePoint
| PointFromDem.

Definition is_gcp (t : ControlPointType) : bool :=
  match t with GroundControlPoint => true | _ => false end.

(** [vw::ba::ControlMeasure]: the image and the pixel. *)
Record ControlMeasure : Type := { image_id : Z; position2 : Vector2 }.

(** [vw::ba::ControlPoint]; [size()] is the number of its measures. *)
Record ControlPoint : Type := CP {
  type : ControlPointType;
  position : Vector3;
  measures : list ControlMeasure
}.

Definition set_position (cp : ControlPoint) (p : Vector3) : ControlPoint :=
  CP (type cp) p (measures cp).

Definition ControlNetwork : Type := list ControlPoint.

Section Cameras.

(** [vw::camera::PinholeModel], and the camera models of any other
    class behind a [CameraModelPtr]. *)
Variable PinholeModel : Type.
Variable OtherModel : Type.

(** [PinholeModel::apply_transform(rotation, translation, scale)] *)
Variable pinhole_apply_transform :
  Matrix3x3 -> Vector3 -> double -> PinholeModel -> PinholeModel.

Inductive CameraModel : Type :=
| Pinhole (p : PinholeModel)
| NotPinhole (c : OtherModel).

(** The first loop of [apply_rigid_transform]. The cameras are changed
    in place, one after the other; [VW_ASSERT] throws at the first
    camera for which the [dynamic_cast] gives [NULL]. *)
Fixpoint transform_cameras (rotation : Matrix3x3) (translation : Vector3)
    (scale : double) (camera_models : list CameraModel)
    : outcome (list CameraModel) unit :=
  match camera_models with
  | [] => Ret tt []
  | Pinhole pincam :: rest =>
      let cam := Pinhole (pinhole_apply_transform rotation translation scale pincam) in
      match transform_cameras rotation translation scale rest with
      | Ret _ rest' => Ret tt (cam :: rest')
      | Raise e rest' => Raise e (cam :: rest')
      end
  | NotPinhole c :: rest =>
      Raise (ArgumentErr "A pinhole camera expected.") (NotPinhole c :: rest)
  end.

(** [scale*rotation*position + translation] *)
Definition transform_position (rotation : Matrix3x3) (translation : Vector3)
    (scale : double) (p : Vector3) : Vector3 :=
  Vector3_add (Matrix3x3_apply (Matrix3x3_scale scale rotation) p) translation.

(** [apply_rigid_transform]: the cameras and the control network after
    the call. *)
Definition apply_rigid_transform (rotation : Matrix3x3) (translation : Vector3)
    (scale : double) (camera_models : list CameraModel) (cnet : ControlNetwork)
    : outcome (list CameraModel * ControlNetwork) unit :=
  match transform_cameras rotation translation scale camera_models with
  | Raise e cams => Raise e (cams, cnet)
  | Ret _ cams =>
      Ret tt
        (cams,
         map (fun cp =>
                if is_gcp (type cp) then cp
                else
                  let position := position cp in
                  let new_position :=
                    transform_position rotation translation scale position in
                  set_position cp new_position)
             cnet)
  end.

(** [vw::ba::triangulate_control_point(cp, camera_models, minimum_angle,
    forced_triangulation_distance)]: the returned value and the control
    point with its new position. *)
Variable triangulate_control_point :
  ControlPoint -> list CameraModel -> double -> double -> double * ControlPoint.

(** [norm_2(v) > c] for a constant [c >= 0]. The Euclidean norm is the
    square root of [dot_prod v v], which the rationals do not have, so
    the comparison is made on the squares. *)
Definition norm_2_gt (v : Vector3) (c : double) : bool :=
  negb (Qle_bool (dot_prod v v) (c * c)).

(** [cnet[ipt].position() == Vector3() || cnet[ipt].size() <= 1] *)
Definition skipped (cp : ControlPoint) : bool :=
  Vector3_eqb (position cp) Vector3_zero || (List.length (measures cp) <=? 1)%nat.

(** The triangulation of a point that is not a GCP: [None] when it
    fails ([ans < 0] or a zero position). *)
Definition triangulated (camera_models : list CameraModel)
    (forced_triangulation_distance : double) (cp : ControlPoint) : option Vector3 :=
  let minimum_angle := 0 in
  let '(ans, cp_new) :=
    triangulate_control_point cp camera_models minimum_angle
      forced_triangulation_distance in
  if negb (Qle_bool 0 ans) || Vector3_eqb (position cp_new) Vector3_zero
  then None
  else Some (position cp_new).

(** The first loop of [check_gcp_dists]: [(gcp_count, ip_count)]. *)
Definition count_points (camera_models : list CameraModel)
    (forced_triangulation_distance : double) (cnet : ControlNetwork)
    : double * double :=
  fold_left
    (fun '(gcp_count, ip_count) cp =>
       if skipped cp then (gcp_count, ip_count)
       else if is_gcp (type cp) then (gcp_count + 1, ip_count)
       else
         match triangulated camera_models forced_triangulation_distance cp with
         | None => (gcp_count, ip_count)
         | Some _ => (gcp_count, ip_count + 1)
         end)
    cnet (0, 0).

(** The second loop: [(mean_gcp, mean_ip, gcp_count)]. In the GCP
    branch the source has [++gcp_count] after the division. *)
Definition accumulate_means (camera_models : list CameraModel)
    (forced_triangulation_distance : double) (cnet : ControlNetwork)
    (gcp_count ip_count : double) : Vector3 * Vector3 * double :=
  fold_left
    (fun '(mean_gcp, mean_ip, gcp_count) cp =>
       if skipped cp then (mean_gcp, mean_ip, gcp_count)
       else if is_gcp (type cp) then
         (Vector3_add mean_gcp (Vector3_div (position cp) gcp_count),
          mean_ip, gcp_count + 1)
       else
         match triangulated camera_models forced_triangulation_distance cp with
         | None => (mean_gcp, mean_ip, gcp_count)
         | Some p =>
             (mean_gcp, Vector3_add mean_ip (Vector3_div p ip_count), gcp_count)
         end)
    cnet (V3 0 0 0, V3 0 0 0, gcp_count).

Definition gcp_warning : string :=
  "WARNING: GCPs are over 100 km from the other points. Are your lat/lon GCP coordinates swapped?".

(** [check_gcp_dists]: the lines written to [vw_out()]. The function
    throws nothing. *)
Definition check_gcp_dists (camera_models : list CameraModel)
    (cnet : ControlNetwork) (forced_triangulation_distance : double)
    : list string :=
  let '(gcp_count, ip_count) :=
    count_points camera_models forced_triangulation_distance cnet in
  if Qeq_bool ip_count 0 || Qeq_bool gcp_count 0 then []
  else
    let '(mean_gcp, mean_ip, _) :=
      accumulate_means camera_models forced_triangulation_distance cnet
        gcp_count ip_count in
    if norm_2_gt (Vector3_sub mean_ip mean_gcp) 100000 then [gcp_warning] else [].

(** *** The initial alignment of pinhole cameras *)

(** [vw::math::find_3D_transform(points_in, points_out, rotation,
    translation, scale)], on the columns of the two matrices. *)
Variable find_3D_transform :
  list Vector3 -> list Vector3 -> Matrix3x3 * Vector3 * double.

(** [camera_models[i]->camera_center(Vector2(0,0))] *)
Variable camera_center : CameraModel -> Vector3.

(** [vw::Matrix<double> m(3, n)], as its [n] columns; VisionWorkbench
    value-initialises to zero. A write to a column that does not exist is
    undefined behaviour; the embedding drops it, as [array_set] does. *)
Definition zero_columns (n : Z) : list Vector3 := repeat Vector3_zero (Z.to_nat n).

(** The camera center of [camera_models[i]]; an index out of range is
    undefined behaviour, for which the embedding gives the zero vector. *)
Definition camera_center_at (camera_models : list CameraModel) (i : Z) : Vector3 :=
  match nth_error camera_models (Z.to_nat i) with
  | Some cam => camera_center cam
  | None => Vector3_zero
  end.

(** The counting loop of [init_pinhole_model_with_camera_positions]. *)
Definition count_matches (estimated_camera_gcc : list Vector3) (num_cameras : Z) : Z :=
  fold_left
    (fun num_matches_found i =>
       if negb (Vector3_eqb (array_get Vector3_zero estimated_camera_gcc i) (V3 0 0 0))
       then (num_matches_found + 1)%Z
       else num_matches_found)
    (Zrange 0 num_cameras) 0%Z.

(** Its matrix populating loop: [(points_in, points_out, index)]. *)
Definition fill_camera_positions (camera_models : list CameraModel)
    (estimated_camera_gcc : list Vector3) (num_cameras num_matches_found : Z)
    : list Vector3 * list Vector3 * Z :=
  fold_left
    (fun '(points_in, points_out, index) i =>
       if Vector3_eqb (array_get Vector3_zero estimated_camera_gcc i) (V3 0 0 0)
       then (points_in, points_out, index)
       else
         let gcc_in := camera_center_at camera_models i in
         let gcc_out := array_get Vector3_zero estimated_camera_gcc i in
         (array_set points_in index gcc_in, array_set points_out index gcc_out,
          (index + 1)%Z))
    (Zrange 0 num_cameras)
    (zero_columns num_matches_found, zero_columns num_matches_found, 0%Z).

(** [init_pinhole_model_with_camera_positions]: the returned flag, and the
    cameras and the control network after the call. *)
Definition init_pinhole_model_with_camera_positions (cnet : ControlNetwork)
    (camera_models : list CameraModel) (image_files : list string)
    (estimated_camera_gcc : list Vector3)
    : outcome (list CameraModel * ControlNetwork) bool :=
  let num_cameras := Z.of_nat (List.length image_files) in
  if negb (Z.of_nat (List.length estimated_camera_gcc) =? num_cameras)%Z then
    Raise (ArgumentErr "No camera matches provided to init function!")
      (camera_models, cnet)
  else
    let num_matches_found := count_matches estimated_camera_gcc num_cameras in
    let MIN_NUM_MATCHES := 3%Z in
    if (num_matches_found <? MIN_NUM_MATCHES)%Z then
      Raise (ArgumentErr
               "At least 3 camera position matches are required to initialize sensor models!")
        (camera_models, cnet)
    else
      let '(points_in, points_out, _) :=
        fill_camera_positions camera_models estimated_camera_gcc num_cameras
          num_matches_found in
      let '(rotation, translation, scale) := find_3D_transform points_in points_out in
      match apply_rigid_transform rotation translation scale camera_models cnet with
      | Ret _ s => Ret true s
      | Raise e s => Raise e s
      end.

(** The first loop of [init_pinhole_model_with_multi_gcp]: [VW_ASSERT]
    throws at the first camera that is not a pinhole camera. *)
Fixpoint all_pinhole (camera_models : list CameraModel) : bool :=
  match camera_models with
  | [] => true
  | Pinhole _ :: rest => all_pinhole rest
  | NotPinhole _ :: _ => false
  end.

(** The test of the counting loop, for a ground control point:
    [(cp_new.position() != Vector3()) && (cnet[ipt].position() != Vector3())
     && (err > 0 || camera_models.size() == 1)]. *)
Definition good_gcp (camera_models : list CameraModel) (cp : ControlPoint) : bool :=
  let minimum_angle := 0 in
  let forced_triangulation_distance := - (1) in
  let '(err, cp_new) :=
    triangulate_control_point cp camera_models minimum_angle
      forced_triangulation_distance in
  negb (Vector3_eqb (position cp_new) Vector3_zero)
  && negb (Vector3_eqb (position cp) Vector3_zero)
  && (negb (Qle_bool err 0) || (List.length camera_models =? 1)%nat).

(** The counting loop: [(num_gcp, num_good_gcp)]. *)
Definition count_good_gcp (camera_models : list CameraModel) (cnet : ControlNetwork)
    : Z * Z :=
  fold_left
    (fun '(num_gcp, num_good_gcp) cp =>
       if negb (is_gcp (type cp)) then (num_gcp, num_good_gcp)
       else if good_gcp camera_models cp
            then ((num_gcp + 1)%Z, (num_good_gcp + 1)%Z)
            else ((num_gcp + 1)%Z, num_good_gcp))
    cnet (0%Z, 0%Z).

(** The matrix populating loop: [(points_in, points_out, index)]. *)
Definition fill_gcp (camera_models : list CameraModel) (cnet : ControlNetwork)
    (num_good_gcp : Z) : list Vector3 * list Vector3 * Z :=
  fold_left
    (fun '(points_in, points_out, index) cp =>
       if negb (is_gcp (type cp)) then (points_in, points_out, index)
       else
         let minimum_angle := 0 in
         let forced_triangulation_distance := - (1) in
         let '(_, cp_new) :=
           triangulate_control_point cp camera_models minimum_angle
             forced_triangulation_distance in
         let inp := position cp_new in
         let outp := position cp in
         if Vector3_eqb inp Vector3_zero || Vector3_eqb outp Vector3_zero
         then (points_in, points_out, index)
         else (array_set points_in index inp, array_set points_out index outp,
               (index + 1)%Z))
    cnet (zero_columns num_good_gcp, zero_columns num_good_gcp, 0%Z).

(** [init_pinhole_model_with_multi_gcp]: the cameras and the control
    network after the call. *)
Definition init_pinhole_model_with_multi_gcp (cnet : ControlNetwork)
    (camera_models : list CameraModel)
    : outcome (list CameraModel * ControlNetwork) unit :=
  if negb (all_pinhole camera_models) then
    Raise (ArgumentErr "A pinhole camera expected.") (camera_models, cnet)
  else
    let '(num_gcp, num_good_gcp) := count_good_gcp camera_models cnet in
    let MIN_NUM_GOOD_GCP := 3%Z in
    if (num_good_gcp <? MIN_NUM_GOOD_GCP)%Z then
      Raise (ArgumentErr
               "Not enough valid GCPs for affine transform pinhole initialization. You may need to use --disable-pinhole-gcp-init or --transform-cameras-using-gcp.")
        (camera_models, cnet)
    else
      let '(points_in, points_out, _) := fill_gcp camera_models cnet num_good_gcp in
      let '(rotation, translation, scale) := find_3D_transform points_in points_out in
      apply_rigid_transform rotation translation scale camera_models cnet.

(** *** Alignment to the ground with GCP that are seen in one image *)

(** [vw::LogicErr]: kept as a [std::exception] with its message. *)
Definition LogicErr (msg : string) : exn := StdException msg.

(** What these functions call in VisionWorkbench and in [asp/Camera]:
    [PinholeModel::camera_center()], [norm_2], [destructive_median],
    [fit_camera_to_xyz] (for the camera type "pinhole", with refinement and
    without verbosity), [PinholeModel::pixel_to_vector],
    [transform_to_vector], [vw::math::levenberg_marquardt] on a
    [CameraSolveRotTransScale] built from the points, the pixel vector and
    the cameras, [apply_rot_trans_scale] and [vector_to_transform]. *)
Record AlignApi : Type := {
  pinhole_camera_center : PinholeModel -> Vector3;
  norm_2 : Vector3 -> double;
  destructive_median : list double -> double;
  fit_camera_to_xyz : list Vector3 -> list double -> PinholeModel -> PinholeModel;
  pixel_to_vector : PinholeModel -> Vector2 -> Vector3;
  transform_to_vector : Matrix3x3 -> Vector3 -> double -> list double;
  levenberg_marquardt :
    list (list Vector3) -> list double -> list PinholeModel -> list double ->
    list double;
  apply_rot_trans_scale : PinholeModel -> list double -> PinholeModel;
  vector_to_transform : list double -> Matrix3x3 * Vector3 * double
}.

Variable align_api : AlignApi.

(** [s * v] *)
Definition Vector3_scale (s : double) (v : Vector3) : Vector3 :=
  V3 (s * v3x v) (s * v3y v) (s * v3z v).

(** [cams[it].camera_center()]; an index out of range is undefined
    behaviour, for which the embedding gives the zero vector. *)
Definition pinhole_center_at (cams : list PinholeModel) (it : Z) : Vector3 :=
  match nth_error cams (Z.to_nat it) with
  | Some cam => pinhole_camera_center align_api cam
  | None => Vector3_zero
  end.

(** [xyz[it].size() >= 3] *)
Definition is_good (xyz : list (list Vector3)) (it : Z) : bool :=
  (3 <=? List.length (array_get [] xyz it))%nat.

(** The loops of [find_median_scale_change]: the scales pushed. *)
Definition scale_changes (sfm_cams aux_cams : list PinholeModel)
    (xyz : list (list Vector3)) : list double :=
  let num_cams := Z.of_nat (List.length sfm_cams) in
  fold_left
    (fun scales it1 =>
       if negb (is_good xyz it1) then scales
       else
         fold_left
           (fun scales it2 =>
              if negb (is_good xyz it2) then scales
              else
                let len1 :=
                  norm_2 align_api (Vector3_sub (pinhole_center_at sfm_cams it1)
                                      (pinhole_center_at sfm_cams it2)) in
                let len2 :=
                  norm_2 align_api (Vector3_sub (pinhole_center_at aux_cams it1)
                                      (pinhole_center_at aux_cams it2)) in
                let scale := len2 / len1 in
                (scales ++ [scale])%list)
           (Zrange (it1 + 1) num_cams) scales)
    (Zrange 0 num_cams) [].

Definition find_median_scale_change (sfm_cams aux_cams : list PinholeModel)
    (xyz : list (list Vector3)) : result double :=
  let scales := scale_changes sfm_cams aux_cams xyz in
  match scales with
  | [] => Throw (LogicErr "Could not find two images with at least 3 GCP each.")
  | _ :: _ => Ok (destructive_median align_api scales)
  end.

(** The first loop of [align_cameras_to_ground]: the cameras aligned
    one by one. *)
Definition individually_aligned (xyz : list (list Vector3))
    (pix : list (list Vector2)) (sfm_cams : list PinholeModel) : list PinholeModel :=
  map
    (fun '(it, cam) =>
       let pixel_values :=
         flat_map (fun p : Vector2 => [fst p; snd p]) (array_get [] pix it) in
       let out_cam := cam in
       if is_good xyz it
       then fit_camera_to_xyz align_api (array_get [] xyz it) pixel_values out_cam
       else out_cam)
    (combine (Zrange 0 (Z.of_nat (List.length sfm_cams))) sfm_cams).

(** [num_pts]: the sum of [pix[it].size()] over the good cameras. *)
Definition count_pts (xyz : list (list Vector3)) (pix : list (list Vector2))
    (num_cams : Z) : Z :=
  fold_left
    (fun num_pts it =>
       if is_good xyz it
       then (num_pts + Z.of_nat (List.length (array_get [] pix it)))%Z
       else num_pts)
    (Zrange 0 num_cams) 0%Z.

(** The loop that fills [in_pts] and [out_pts]: the two matrices and
    [col]. *)
Definition fill_pts (xyz : list (list Vector3)) (pix : list (list Vector2))
    (sfm_cams aux_cams : list PinholeModel) (world_scale : double) (num_pts : Z)
    : list Vector3 * list Vector3 * Z :=
  fold_left
    (fun st it =>
       if is_good xyz it then
         fold_left
           (fun '(in_pts, out_pts, col) c =>
              let p := array_get Vector3_zero (array_get [] xyz it) c in
              let len := norm_2 align_api (Vector3_sub (pinhole_center_at aux_cams it) p) in
              let len := len / world_scale in
              let trans_xyz :=
                Vector3_add (pinhole_center_at sfm_cams it)
                  (Vector3_scale len
                     (match nth_error sfm_cams (Z.to_nat it) with
                      | Some cam =>
                          pixel_to_vector align_api cam (array_get (0, 0) (array_get [] pix it) c)
                      | None => Vector3_zero
                      end)) in
              (array_set in_pts col trans_xyz, array_set out_pts col p, (col + 1)%Z))
           (Zrange 0 (Z.of_nat (List.length (array_get [] xyz it)))) st
       else st)
    (Zrange 0 (Z.of_nat (List.length sfm_cams)))
    (zero_columns num_pts, zero_columns num_pts, 0%Z).

(** [pixel_vec_len] *)
Definition count_pixel_vec (xyz : list (list Vector3)) (pix : list (list Vector2)) : Z :=
  fold_left
    (fun pixel_vec_len it =>
       if is_good xyz it
       then (pixel_vec_len + Z.of_nat (List.length (array_get [] pix it)) * 2)%Z
       else pixel_vec_len)
    (Zrange 0 (Z.of_nat (List.length pix))) 0%Z.

(** The loop that fills [pixel_vec]: the vector and [count]. *)
Definition fill_pixel_vec (xyz : list (list Vector3)) (pix : list (list Vector2))
    (pixel_vec_len : Z) : list double * Z :=
  fold_left
    (fun st it =>
       if is_good xyz it then
         fold_left
           (fun '(pixel_vec, count) c =>
              let pixel := array_get (0, 0) (array_get [] pix it) c in
              let pixel_vec := array_set pixel_vec (2 * count)%Z (fst pixel) in
              let pixel_vec := array_set pixel_vec (2 * count + 1)%Z (snd pixel) in
              (pixel_vec, (count + 1)%Z))
           (Zrange 0 (Z.of_nat (List.length (array_get [] pix it)))) st
       else st)
    (Zrange 0 (Z.of_nat (List.length pix)))
    (repeat 0 (Z.to_nat pixel_vec_len), 0%Z).

(** [align_cameras_to_ground]: the cameras after the call and the
    transform returned, or the exception thrown (the cameras are only
    changed at the end). *)
Definition align_cameras_to_ground (xyz : list (list Vector3))
    (pix : list (list Vector2)) (sfm_cams : list PinholeModel)
    : result (list PinholeModel * (Matrix3x3 * Vector3 * double)) :=
  let aux_cams := individually_aligned xyz pix sfm_cams in
  let num_cams := Z.of_nat (List.length sfm_cams) in
  match find_median_scale_change sfm_cams aux_cams xyz with
  | Throw e => Throw e
  | Ok world_scale =>
      let num_pts := count_pts xyz pix num_cams in
      let '(in_pts, out_pts, col) :=
        fill_pts xyz pix sfm_cams aux_cams world_scale num_pts in
      if negb (col =? num_pts)%Z then
        Throw (LogicErr "Book-keeping failure in aligning cameras to ground.")
      else
        let '(rotation, translation, scale) := find_3D_transform in_pts out_pts in
        let C := transform_to_vector align_api rotation translation scale in
        let pixel_vec_len := count_pixel_vec xyz pix in
        let '(pixel_vec, count) := fill_pixel_vec xyz pix pixel_vec_len in
        if negb (2 * count =? pixel_vec_len)%Z then
          Throw (LogicErr "Book-keeping failure in cam_gen.")
        else
          let final_params := levenberg_marquardt align_api xyz pixel_vec sfm_cams C in
          let sfm_cams :=
            map (fun cam => apply_rot_trans_scale align_api cam final_params) sfm_cams in
          Ok (sfm_cams, vector_to_transform align_api final_params)
  end.

(** The first loop of [init_pinhole_model_with_mono_gcp]: the copies
    of the pinhole cameras; [VW_ASSERT] throws at the first camera that is
    not one. *)
Fixpoint pinhole_copies (camera_models : list CameraModel) : result (list PinholeModel) :=
  match camera_models with
  | [] => Ok []
  | Pinhole pincam :: rest =>
      match pinhole_copies rest with
      | Ok cams => Ok (pincam :: cams)
      | Throw e => Throw e
      end
  | NotPinhole _ :: _ => Throw (ArgumentErr "A pinhole camera expected.")
  end.

(** [v[i].push_back(x)] *)
Definition push_back_at {A : Type} (v : list (list A)) (i : Z) (x : A) : list (list A) :=
  array_set v i (array_get [] v i ++ [x])%list.

(** Its second loop: [(xyz, pix)], the position and the pixel of every
    measure of every ground control point, by camera. *)
Definition extract_gcp (num_cams : Z) (cnet : ControlNetwork)
    : result (list (list Vector3) * list (list Vector2)) :=
  fold_left
    (fun acc cp =>
       if negb (is_gcp (type cp)) then acc
       else
         fold_left
           (fun acc measure =>
              match acc with
              | Throw e => Throw e
              | Ok (xyz, pix) =>
                  let cam_it := image_id measure in
                  if ((cam_it <? 0) || (cam_it >=? num_cams))%Z then
                    Throw (ArgumentErr "Error: cnet index out of range.")
                  else
                    let pixel := (fst (position2 measure), snd (position2 measure)) in
                    Ok (push_back_at xyz cam_it (position cp),
                        push_back_at pix cam_it pixel)
              end)
           (measures cp) acc)
    cnet
    (Ok (repeat [] (Z.to_nat num_cams), repeat [] (Z.to_nat num_cams))).

(** [init_pinhole_model_with_mono_gcp]: the cameras and the control
    network after the call. *)
Definition init_pinhole_model_with_mono_gcp (cnet : ControlNetwork)
    (camera_models : list CameraModel)
    : outcome (list CameraModel * ControlNetwork) unit :=
  let num_cams := Z.of_nat (List.length camera_models) in
  match pinhole_copies camera_models with
  | Throw e => Raise e (camera_models, cnet)
  | Ok pinhole_cams =>
      match extract_gcp num_cams cnet with
      | Throw e => Raise e (camera_models, cnet)
      | Ok (xyz, pix) =>
          match align_cameras_to_ground xyz pix pinhole_cams with
          | Throw e => Raise e (camera_models, cnet)
          | Ok (_, (rotation, translation, scale)) =>
              apply_rigid_transform rotation translation scale camera_models cnet
          end
      end
  end.

End Cameras.

Arguments Pinhole {PinholeModel OtherModel} p.
Arguments NotPinhole {PinholeModel OtherModel} c.
Arguments transform_cameras {PinholeModel OtherModel} pinhole_apply_transform
  rotation translation scale camera_models.
Arguments apply_rigid_transform {PinholeModel OtherModel} pinhole_apply_transform
  rotation translation scale camera_models cnet.
Arguments triangulated {PinholeModel OtherModel} triangulate_control_point
  camera_models forced_triangulation_distance cp.
Arguments count_points {PinholeModel OtherModel} triangulate_control_point
  camera_models forced_triangulation_distance cnet.
Arguments accumulate_means {PinholeModel OtherModel} triangulate_control_point
  camera_models forced_triangulation_distance cnet gcp_count ip_count.
Arguments check_gcp_dists {PinholeModel OtherModel} triangulate_control_point
  camera_models cnet forced_triangulation_distance.
Arguments camera_center_at {PinholeModel OtherModel} camera_center camera_models i.
Arguments fill_camera_positions {PinholeModel OtherModel} camera_center camera_models
  estimated_camera_gcc num_cameras num_matches_found.
Arguments init_pinhole_model_with_camera_positions {PinholeModel OtherModel}
  pinhole_apply_transform find_3D_transform camera_center cnet camera_models
  image_files estimated_camera_gcc.
Arguments all_pinhole {PinholeModel OtherModel} camera_models.
Arguments good_gcp {PinholeModel OtherModel} triangulate_control_point
  camera_models cp.
Arguments count_good_gcp {PinholeModel OtherModel} triangulate_control_point
  camera_models cnet.
Arguments fill_gcp {PinholeModel OtherModel} triangulate_control_point
  camera_models cnet num_good_gcp.
Arguments init_pinhole_model_with_multi_gcp {PinholeModel OtherModel}
  pinhole_apply_transform triangulate_control_point find_3D_transform cnet
  camera_models.
Arguments pinhole_camera_center {PinholeModel} a _.
Arguments norm_2 {PinholeModel} a _.
Arguments destructive_median {PinholeModel} a _.
Arguments fit_camera_to_xyz {PinholeModel} a _ _ _.
Arguments pixel_to_vector {PinholeModel} a _ _.
Arguments transform_to_vector {PinholeModel} a _ _ _.
Arguments levenberg_marquardt {PinholeModel} a _ _ _ _.
Arguments apply_rot_trans_scale {PinholeModel} a _ _.
Arguments vector_to_transform {PinholeModel} a _.
Arguments pinhole_center_at {PinholeModel} align_api cams it.
Arguments scale_changes {PinholeModel} align_api sfm_cams aux_cams xyz.
Arguments find_median_scale_change {PinholeModel} align_api sfm_cams aux_cams xyz.
Arguments individually_aligned {PinholeModel} align_api xyz pix sfm_cams.
Arguments fill_pts {PinholeModel} align_api xyz pix sfm_cams aux_cams world_scale
  num_pts.
Arguments align_cameras_to_ground {PinholeModel} find_3D_transform align_api xyz pix
  sfm_cams.
Arguments pinhole_copies {PinholeModel OtherModel} camera_models.
Arguments init_pinhole_model_with_mono_gcp {PinholeModel OtherModel}
  pinhole_apply_transform find_3D_transform align_api cnet camera_models.

End BundleAdjustCamera.

(* --------------------------------------------------------------------- *)
(** ** BundleAdjustCamera2.cc                                             *)
(* --------------------------------------------------------------------- *)

Module BundleAdjustCamera2.

(** *** [init_cams] *)

(** [vw::Matrix<double>], by rows. *)
Definition Matrix : Type := list (list double).

Fixpoint remove_nth {A} (j : nat) (l : list A) : list A :=
  match l, j with
  | [], _ => []
  | _ :: t, O => t
  | h :: t, S j' => h :: remove_nth j' t
  end.

(** The expansion along a row: the sum over its entries [a] at columns
    [j], [j+1], ... of [sign * a * minor], with alternating sign. *)
Fixpoint cofactor_sum (minor : nat -> double) (row : list double) (j : nat)
    (sign : double) : double :=
  match row with
  | [] => 0%Q
  | a :: row' => (sign * a * minor j + cofactor_sum minor row' (S j) (- sign))%Q
  end.

(** [vw::math::det]: the determinant, here by cofactor expansion along the
    first row ([n] bounds the size). *)
Fixpoint det_rec (n : nat) (m : Matrix) : double :=
  match n, m with
  | S n', r0 :: rest =>
      cofactor_sum (fun j => det_rec n' (map (remove_nth j) rest)) r0 O 1%Q
  | _, _ => 1%Q
  end.

Definition det (m : Matrix) : double := det_rec (List.length m) m.

(** [submatrix(M, 0, 0, 3, 3)] *)
Definition linear_part (m : Matrix) : Matrix := map (firstn 3) (firstn 3 m).

Section InitCams.

(** [asp::BAParams], [vw::CamPtr] and [asp::CameraAdjustment]. *)
Variable BAParams : Type.
Variable CamPtr : Type.
Variable CameraAdjustment : Type.

(** What [init_cams] calls outside this file.
    Members of [asp::BAParams] and of [asp::CameraAdjustment]:
    [set_camera ps i a] is [a.pack_to_array(ps.get_camera_ptr(i))], and
    [get_camera ps i] is [CameraAdjustment(ps.get_camera_ptr(i))].
    Then [asp::bundle_adjust_file_name], [apply_transform_to_params]
    (declared in [BundleAdjustCamera.h]), the constructor of
    [vw::camera::AdjustedCameraModel], a null camera pointer, and [pow]
    of libm. *)
Record InitCamsApi : Type := {
  init_cams_as_zero : BAParams -> BAParams;
  num_cameras : BAParams -> nat;
  set_camera : BAParams -> nat -> CameraAdjustment -> BAParams;
  get_camera : BAParams -> nat -> CameraAdjustment;
  read_from_adjust_file : string -> result CameraAdjustment;
  bundle_adjust_file_name : string -> string -> string -> string;
  apply_transform_to_params : Matrix -> BAParams -> list CamPtr -> BAParams;
  AdjustedCameraModel : CamPtr -> CameraAdjustment -> CamPtr;
  null_cam : CamPtr;
  pow : double -> double -> double
}.

Variable api : InitCamsApi.

(** The fields of [asp::BaBaseOptions] read here. *)
Record BaBaseOptions : Type := {
  camera_models : list CamPtr;
  input_prefix : string;
  stereo_session : string;
  image_files : list string;
  camera_files : list string
}.

(** [put_adjustments_in_params]; reading an adjustment may throw, with
    the cameras before it already written. *)
Fixpoint put_adjustments_loop (input_prefix : string)
    (image_files camera_files : list string) (icams : list nat)
    (param_storage : BAParams) : outcome BAParams unit :=
  match icams with
  | [] => Ret tt param_storage
  | icam :: rest =>
      let adjust_file :=
        bundle_adjust_file_name api input_prefix (nth icam image_files ""%string)
          (nth icam camera_files ""%string) in
      match read_from_adjust_file api adjust_file with
      | Throw e => Raise e param_storage
      | Ok adjustment =>
          put_adjustments_loop input_prefix image_files camera_files rest
            (set_camera api param_storage icam adjustment)
      end
  end.

Definition put_adjustments_in_params (input_prefix : string)
    (image_files camera_files : list string) (param_storage : BAParams)
    : outcome BAParams unit :=
  put_adjustments_loop input_prefix image_files camera_files
    (seq 0 (num_cameras api param_storage)) param_storage.

(** [create_corrected_cameras]: the new value of [out_cameras]. *)
Definition create_corrected_cameras (input_cameras : list CamPtr)
    (param_storage : BAParams) : list CamPtr :=
  map (fun icam =>
         let correction := get_camera api param_storage icam in
         AdjustedCameraModel api (nth icam input_cameras (null_cam api)) correction)
      (seq 0 (num_cameras api param_storage)).

(** [pow(vw::math::det(initial_transform), 1.0/3.0)] *)
Definition transform_scale (initial_transform : Matrix) : double :=
  pow api (det initial_transform) (1 / 3)%Q.

Definition csm_scale_error : exn :=
  ArgumentErr "CSM camera models do not support applying a transform with a scale.".

Definition num_cameras_error : exn :=
  ArgumentErr "Expecting a different number of cameras.".

(** [init_cams]: the returned flag with the parameter storage and
    [new_cam_models] after the call, or the exception with what they
    hold when it is thrown. *)
Definition init_cams (opt : BaBaseOptions) (param_storage : BAParams)
    (initial_transform_file : string) (initial_transform : Matrix)
    (new_cam_models : list CamPtr)
    : outcome (BAParams * list CamPtr) bool :=
  let cameras_changed := false in
  let param_storage := init_cams_as_zero api param_storage in
  if negb (num_cameras api param_storage =? List.length (camera_models opt))%nat
  then Raise num_cameras_error (param_storage, new_cam_models)
  else
    let adjusted :=
      if negb (input_prefix opt =? "")%string
      then
        match put_adjustments_in_params (input_prefix opt) (image_files opt)
                (camera_files opt) param_storage with
        | Ret _ ps => Ret true ps
        | Raise e ps => Raise e ps
        end
      else Ret cameras_changed param_storage in
    match adjusted with
    | Raise e ps => Raise e (ps, new_cam_models)
    | Ret cameras_changed param_storage =>
        let transformed :=
          if negb (initial_transform_file =? "")%string
          then
            if (stereo_session opt =? "csm")%string
               && negb (Qle_bool (Qabs (transform_scale initial_transform - 1))
                                 (1 # 1000000))
            then Raise csm_scale_error param_storage
            else
              Ret true
                  (apply_transform_to_params api initial_transform param_storage
                     (camera_models opt))
          else Ret cameras_changed param_storage in
        match transformed with
        | Raise e ps => Raise e (ps, new_cam_models)
        | Ret cameras_changed param_storage =>
            let new_cam_models :=
              create_corrected_cameras (camera_models opt) param_storage in
            Ret cameras_changed (param_storage, new_cam_models)
        end
    end.

End InitCams.

Arguments init_cams {BAParams CamPtr CameraAdjustment} api opt param_storage
  initial_transform_file initial_transform new_cam_models.
Arguments put_adjustments_in_params {BAParams CamPtr CameraAdjustment} api
  input_prefix image_files camera_files param_storage.
Arguments init_cams_as_zero {BAParams CamPtr CameraAdjustment} i _.
Arguments num_cameras {BAParams CamPtr CameraAdjustment} i _.
Arguments apply_transform_to_params {BAParams CamPtr CameraAdjustment} i _ _ _.
Arguments pow {BAParams CamPtr CameraAdjustment} i _ _.
Arguments camera_models {CamPtr} b.
Arguments input_prefix {CamPtr} b.
Arguments stereo_session {CamPtr} b.
Arguments image_files {CamPtr} b.
Arguments camera_files {CamPtr} b.
Arguments create_corrected_cameras {BAParams CamPtr CameraAdjustment} api
  input_cameras param_storage.
Arguments transform_scale {BAParams CamPtr CameraAdjustment} api initial_transform.

(** *** The options of which intrinsics to float *)

Definition isdigit (c : ascii) : bool :=
  let n := nat_of_ascii c in ((48 <=? n) && (n <=? 57))%nat.

(** [isspace] in the C locale: space, and the characters 9 to 13. *)
Definition isspace (c : ascii) : bool :=
  let n := nat_of_ascii c in ((n =? 32) || ((9 <=? n) && (n <=? 13)))%nat.

Definition tolower (c : ascii) : ascii :=
  let n := nat_of_ascii c in
  if ((65 <=? n) && (n <=? 90))%nat then ascii_of_nat (n + 32) else c.

Fixpoint string_map (f : ascii -> ascii) (s : string) : string :=
  match s with
  | EmptyString => EmptyString
  | String c s' => String (f c) (string_map f s')
  end.

(** [boost::to_lower] *)
Definition to_lower (s : string) : string := string_map tolower s.

(** The separators: backslash, colon, semicolon, comma, space, tab,
    carriage return, line feed. *)
Definition sep : list ascii :=
  [ascii_of_nat 92; ":"; ";"; ","; " "; ascii_of_nat 9; ascii_of_nat 13;
   ascii_of_nat 10]%char.

(** [std::replace(str.begin(), str.end(), c, ' ')] *)
Definition replace_char (c : ascii) (str : string) : string :=
  string_map (fun x => if Ascii.eqb x c then " "%char else x) str.

Definition replace_separators_with_space (str : string) : string :=
  fold_left (fun str c => replace_char c str) sep str.

(** [while (is >> val) ret.push_back(val);]: [cur] is the token being
    read. *)
Fixpoint split_loop (str : string) (cur : string) : list string :=
  match str with
  | EmptyString => if (cur =? "")%string then [] else [cur]
  | String c str' =>
      if isspace c
      then if (cur =? "")%string then split_loop str' ""%string
           else cur :: split_loop str' ""%string
      else split_loop str' (cur ++ String c EmptyString)%string
  end.

Definition split_str_with_space (str : string) : list string :=
  split_loop str ""%string.

Fixpoint all_digits (str : string) : bool :=
  match str with
  | EmptyString => true
  | String c str' => isdigit c && all_digits str'
  end.

Definition is_str_non_neg_integer (str : string) : bool :=
  match str with
  | EmptyString => false
  | _ => all_digits str
  end.

Local Open Scope Z_scope.

(** [atoi] on a string that starts with digits: the value of the digits.
    (An integer that does not fit an [int] is undefined behaviour in C;
    the embedding gives its value.) *)
Fixpoint atoi_loop (str : string) (acc : Z) : Z :=
  match str with
  | EmptyString => acc
  | String c str' =>
      if isdigit c then atoi_loop str' (10 * acc + (Z.of_nat (nat_of_ascii c) - 48))
      else acc
  end.

Definition atoi (str : string) : Z := atoi_loop str 0.

(** The three output vectors. *)
Record float_masks : Type := Masks {
  float_center : list bool;
  float_focus : list bool;
  float_distortion : list bool
}.

(** [for (i = 0; i < std::max(num_sensors, 1); i++) push_back(false)] on
    the three cleared vectors. *)
Definition init_masks (num_sensors : Z) : float_masks :=
  let v := repeat false (Z.to_nat (Z.max num_sensors 1)) in
  Masks v v v.

(** The effect of an option that is not an integer on the vectors at
    [sensor_id], or the exception for an unknown option. *)
Definition apply_option (option : string) (sensor_id : Z) (m : float_masks)
    : result float_masks :=
  if (option =? "optical_center")%string then
    Ok (Masks (array_set (float_center m) sensor_id true) (float_focus m)
              (float_distortion m))
  else if (option =? "focal_length")%string then
    Ok (Masks (float_center m) (array_set (float_focus m) sensor_id true)
              (float_distortion m))
  else if ((option =? "other_intrinsics") || (option =? "distortion"))%string then
    Ok (Masks (float_center m) (float_focus m)
              (array_set (float_distortion m) sensor_id true))
  else if (option =? "all")%string then
    Ok (Masks (array_set (float_center m) sensor_id true)
              (array_set (float_focus m) sensor_id true)
              (array_set (float_distortion m) sensor_id true))
  else if (option =? "none")%string then Ok m
  else
    Throw (ArgumentErr
             ("Found unknown option when parsing which sensor intrinsics to float: "
              ++ option ++ ".")).

(** The loop of [fine_grained_parse] over the options that are left. *)
Fixpoint fine_grained_loop (num_sensors : Z) (options : list string)
    (sensor_id : Z) (seen_ids : list Z) (m : float_masks) : result float_masks :=
  match options with
  | [] => Ok m
  | option :: rest =>
      if is_str_non_neg_integer option then
        let sensor_id := atoi option - 1 in
        if (sensor_id <? 0) || (sensor_id >=? num_sensors) then
          Throw (ArgumentErr ("Sensor id " ++ option ++ " is out of bounds."))
        else if existsb (Z.eqb sensor_id) seen_ids then
          Throw (ArgumentErr ("Sensor id " ++ option ++ " is repeated."))
        else
          fine_grained_loop num_sensors rest sensor_id (sensor_id :: seen_ids) m
      else
        match apply_option option sensor_id m with
        | Throw e => Throw e
        | Ok m' => fine_grained_loop num_sensors rest sensor_id seen_ids m'
        end
  end.

Definition fine_grained_parse (share_intrinsics_per_sensor : bool)
    (num_sensors : Z) (options : list string) : result float_masks :=
  if negb share_intrinsics_per_sensor then
    Throw (ArgumentErr
             "fine_grained_parse() is only for when intrinsics are optimized per sensor.")
  else if num_sensors <=? 0 then
    Throw (ArgumentErr "Expecting a positive number of sensors.")
  else
    match options with
    | [] => Throw (ArgumentErr "Expecting at least one option.")
    | option0 :: _ =>
        let m := init_masks num_sensors in
        if negb (is_str_non_neg_integer option0) then
          Throw (ArgumentErr "Expecting an integer as the first option.")
        else
          let sensor_id := atoi option0 - 1 in
          fine_grained_loop num_sensors options sensor_id [] m
    end.

(** The loop of [coarse_grained_parse]; [option0] is [options[0]], which
    every iteration tests. *)
Fixpoint coarse_grained_loop (option0 : string) (options : list string)
    (m : float_masks) : result float_masks :=
  match options with
  | [] => Ok m
  | option :: rest =>
      if is_str_non_neg_integer option0 then
        Throw (ArgumentErr
                 "When parsing intrinsics to float, expecting a string, not an integer. Check your inputs.")
      else
        let sensor_id := 0 in
        match apply_option option sensor_id m with
        | Throw e => Throw e
        | Ok m' => coarse_grained_loop option0 rest m'
        end
  end.

(** [for (sensor_id = 0; sensor_id < num_sensors; sensor_id++)
      v[sensor_id] = v[0];] *)
Definition distribute (num_sensors : Z) (v : list bool) : list bool :=
  fold_left (fun v sensor_id => array_set v sensor_id (array_get false v 0))
    (Zrange 0 num_sensors) v.

Definition coarse_grained_parse (num_sensors : Z) (options : list string)
    : result float_masks :=
  if num_sensors <? 0 then Throw (ArgumentErr "Cameras were not parsed correctly.")
  else
    let m := init_masks num_sensors in
    match coarse_grained_loop (hd ""%string options) options m with
    | Throw e => Throw e
    | Ok m =>
        Ok (Masks (distribute num_sensors (float_center m))
                  (distribute num_sensors (float_focus m))
                  (distribute num_sensors (float_distortion m)))
    end.

(** [asp::IntrinsicOptions] *)
Record IntrinsicOptions : Type := {
  focus_shared : bool;
  center_shared : bool;
  distortion_shared : bool;
  floated : float_masks;
  share_intrinsics_per_sensor : bool;
  num_sensors : Z
}.

(** The loop of [load_intrinsics_options] over the intrinsics to share:
    [(focus_shared, center_shared, distortion_shared)]. *)
Fixpoint share_loop (vals : list string) (s : bool * bool * bool)
    : result (bool * bool * bool) :=
  match vals with
  | [] => Ok s
  | val :: rest =>
      let '(focus, center, distortion) := s in
      if (val =? "focal_length")%string then share_loop rest (true, center, distortion)
      else if (val =? "optical_center")%string then
        share_loop rest (focus, true, distortion)
      else if ((val =? "other_intrinsics") || (val =? "distortion"))%string then
        share_loop rest (focus, center, true)
      else
        Throw (ArgumentErr
                 ("Error: Found unknown intrinsic to share: " ++ val ++ "."))
  end.

Definition default_intrinsics : string := "focal_length optical_center other_intrinsics".

(** [load_intrinsics_options]: the options after the call.
    [intrinsics_options] gives [share_intrinsics_per_sensor] and
    [num_sensors]; the other fields are overwritten. *)
Definition load_intrinsics_options (solve_intrinsics shared_is_specified : bool)
    (intrinsics_to_float_str intrinsics_to_share_str : string)
    (intrinsics_options : IntrinsicOptions) : result IntrinsicOptions :=
  let per_sensor := share_intrinsics_per_sensor intrinsics_options in
  let n := num_sensors intrinsics_options in
  let mk focus center distortion m :=
    {| focus_shared := focus; center_shared := center;
       distortion_shared := distortion; floated := m;
       share_intrinsics_per_sensor := per_sensor; num_sensors := n |} in
  let m1 := Masks [false] [false] [false] in
  if (negb (intrinsics_to_float_str =? "")%string
      || negb (intrinsics_to_share_str =? "")%string) && negb solve_intrinsics
  then
    Throw (ArgumentErr
             "To be able to specify only certain intrinsics, the option --solve-intrinsics must be on.")
  else if negb solve_intrinsics then Ok (mk true true true m1)
  else
    let intrinsics_to_float_str := to_lower intrinsics_to_float_str in
    let intrinsics_to_float_str :=
      if ((intrinsics_to_float_str =? "") || (intrinsics_to_float_str =? "all"))%string
      then default_intrinsics else intrinsics_to_float_str in
    let intrinsics_to_float_str :=
      if (intrinsics_to_float_str =? "none")%string then ""%string
      else intrinsics_to_float_str in
    let intrinsics_to_share_str := to_lower intrinsics_to_share_str in
    let intrinsics_to_share_str :=
      if negb shared_is_specified then default_intrinsics
      else
        let s :=
          if (intrinsics_to_share_str =? "all")%string then default_intrinsics
          else intrinsics_to_share_str in
        if (s =? "none")%string then ""%string else s in
    let shared : bool * bool * bool :=
      if shared_is_specified && negb per_sensor then (false, false, false)
      else (true, true, true) in
    let intrinsics_to_float_str := replace_separators_with_space intrinsics_to_float_str in
    let intrinsics_to_share_str := replace_separators_with_space intrinsics_to_share_str in
    let float_options := split_str_with_space intrinsics_to_float_str in
    let parsed :=
      match float_options with
      | option0 :: _ =>
          if is_str_non_neg_integer option0
          then fine_grained_parse per_sensor n float_options
          else coarse_grained_parse n float_options
      | [] => coarse_grained_parse n float_options
      end in
    match parsed with
    | Throw e => Throw e
    | Ok m =>
        let shared :=
          if shared_is_specified && negb per_sensor
          then share_loop (split_str_with_space intrinsics_to_share_str) shared
          else Ok shared in
        match shared with
        | Throw e => Throw e
        | Ok (focus, center, distortion) => Ok (mk focus center distortion m)
        end
    end.

(** *** [parse_intrinsics_limits] *)

(** The loop [while (is >> val)] over the values that the stream gives
    (the reading of doubles from a string is the library's): the vector and
    the count, or the exception with the vector as it is then. *)
Fixpoint limits_loop (vals : list double) (intrinsics_limits : list double)
    (count : Z) : outcome (list double) Z :=
  match vals with
  | [] => Ret count intrinsics_limits
  | val :: rest =>
      let intrinsics_limits := (intrinsics_limits ++ [val])%list in
      if (Z.rem count 2 =? 1)
         && negb (Qle_bool (array_get 0%Q intrinsics_limits (count - 1))
                           (array_get 0%Q intrinsics_limits count))
      then
        Raise (ArgumentErr "Error: Intrinsic limit pairs must be min before max.")
          intrinsics_limits
      else limits_loop rest intrinsics_limits (count + 1)
  end.

(** [parse_intrinsics_limits], on the values read from the string: the
    vector [intrinsics_limits] after the call. *)
Definition parse_intrinsics_limits (vals : list double) : outcome (list double) unit :=
  match limits_loop vals [] 0 with
  | Raise e intrinsics_limits => Raise e intrinsics_limits
  | Ret count intrinsics_limits =>
      if negb (Z.rem count 2 =? 0) then
        Raise (ArgumentErr
                 "Error: Intrinsic limits must always be provided in min max pairs.")
          intrinsics_limits
      else Ret tt intrinsics_limits
  end.

(** *** [distortion_sanity_check] *)

(** [std::set<int>::insert], on a set kept as a list without
    repetitions; its [size()] is the length. *)
Definition set_insert (x : Z) (s : list Z) : list Z :=
  if existsb (Z.eqb x) s then s else (s ++ [x])%list.

(** [num_dist_params[it] == num_dist_params[0]] for [it] from 1 on. *)
Definition have_same_size (num_dist_params : list Z) : bool :=
  forallb (fun it => array_get 0 num_dist_params it =? array_get 0 num_dist_params 0)
    (Zrange 1 (Z.of_nat (List.length num_dist_params))).

(** The sizes found for each sensor. *)
Definition dist_sizes (num_dist_params : list Z) (num_sensors : Z)
    (cam2sensor : list Z) : list (list Z) :=
  fold_left
    (fun dist_sizes cam_it =>
       let sensor_it := array_get 0 cam2sensor cam_it in
       array_set dist_sizes sensor_it
         (set_insert (array_get 0 num_dist_params cam_it)
            (array_get [] dist_sizes sensor_it)))
    (Zrange 0 (Z.of_nat (List.length num_dist_params)))
    (repeat [] (Z.to_nat num_sensors)).

(** [distortion_sanity_check]; of [intrinsics_opts] it reads
    [share_intrinsics_per_sensor], [distortion_shared], [num_sensors] and
    [cam2sensor]. *)
Definition distortion_sanity_check (num_dist_params : list Z)
    (share_intrinsics_per_sensor distortion_shared : bool) (num_sensors : Z)
    (cam2sensor : list Z) (intrinsics_limits : list double) : result unit :=
  if negb share_intrinsics_per_sensor && distortion_shared
     && negb (have_same_size num_dist_params)
  then
    Throw (ArgumentErr
             "When sharing distortion parameters, they must have the same size.")
  else if share_intrinsics_per_sensor
          && negb (forallb
                     (fun sensor_it =>
                        (List.length
                           (array_get []
                              (dist_sizes num_dist_params num_sensors cam2sensor)
                              sensor_it) =? 1)%nat)
                     (Zrange 0 num_sensors))
  then
    Throw (ArgumentErr
             "When sharing distortion parameters per sensor, they must have the same size for all cameras of the same sensor.")
  else if negb (List.length intrinsics_limits =? 0)%nat
          && negb (have_same_size num_dist_params)
  then
    Throw (ArgumentErr
             "When using --intrinsics-limits, all cameras must have the same number of distortion coefficients.")
  else Ok tt.

(** *** [read_image_cam_lists] *)

(** [str.find(",") != std::string::npos] *)
Fixpoint has_comma (str : string) : bool :=
  match str with
  | EmptyString => false
  | String c str' => Ascii.eqb c ","%char || has_comma str'
  end.

(** [boost::split(v, str, boost::is_any_of(","))]: the fields between
    the commas, the empty ones too; [cur] is the field being read. *)
Fixpoint split_loop_comma (str : string) (cur : string) : list string :=
  match str with
  | EmptyString => [cur]
  | String c str' =>
      if Ascii.eqb c ","%char then cur :: split_loop_comma str' ""%string
      else split_loop_comma str' (cur ++ String c EmptyString)%string
  end.

Definition split_at_commas (str : string) : list string := split_loop_comma str ""%string.

(** What the function writes: [images_or_cams], and of
    [intrinsics_opts] the fields [share_intrinsics_per_sensor],
    [cam2sensor] and [num_sensors]. *)
Record image_cam_lists : Type := {
  images_or_cams : list string;
  lists_share_intrinsics_per_sensor : bool;
  cam2sensor : list Z;
  lists_num_sensors : Z
}.

(** The loop over the sensors: the images, the cameras and
    [cam2sensor]; reading a pair of lists of different or of zero lengths
    throws. *)
Fixpoint read_sensor_lists (read_list : string -> list string)
    (lists : list (Z * (string * string)))
    (images cameras : list string) (cam2sensor : list Z)
    : outcome (list Z) (list string * list string) :=
  match lists with
  | [] => Ret (images, cameras) cam2sensor
  | (sensor_it, (image_list, camera_list)) :: rest =>
      let local_images := read_list image_list in
      let local_cameras := read_list camera_list in
      if negb (List.length local_images =? List.length local_cameras)%nat
         || (List.length local_images =? 0)%nat
      then
        Raise (ArgumentErr
                 ("Expecting the same positive number of images and cameras in lists: '"
                  ++ image_list ++ "' and '" ++ camera_list ++ "'."))
          cam2sensor
      else
        read_sensor_lists read_list rest (images ++ local_images)%list
          (cameras ++ local_cameras)%list
          (cam2sensor ++ repeat sensor_it (List.length local_cameras))%list
  end.

(** [read_image_cam_lists], with [asp::read_list] as [read_list]. *)
Definition read_image_cam_lists (read_list : string -> list string)
    (image_list camera_list : string) : outcome image_cam_lists unit :=
  if negb (has_comma image_list) && negb (has_comma camera_list) then
    let images := read_list image_list in
    if (camera_list =? "")%string then
      Ret tt {| images_or_cams := images; lists_share_intrinsics_per_sensor := false;
                cam2sensor := []; lists_num_sensors := 0 |}
    else
      let cams := read_list camera_list in
      if negb (List.length images =? List.length cams)%nat then
        Raise (ArgumentErr "Expecting the same number of images and cameras.")
          {| images_or_cams := images; lists_share_intrinsics_per_sensor := false;
             cam2sensor := []; lists_num_sensors := 0 |}
      else
        Ret tt {| images_or_cams := (images ++ cams)%list;
                  lists_share_intrinsics_per_sensor := false;
                  cam2sensor := []; lists_num_sensors := 0 |}
  else
    let image_lists := split_at_commas image_list in
    let camera_lists := split_at_commas camera_list in
    if negb (List.length image_lists =? List.length camera_lists)%nat then
      Raise (ArgumentErr
               "Expecting the same number of image and camera lists. They must be separated by commas on input.")
        {| images_or_cams := []; lists_share_intrinsics_per_sensor := true;
           cam2sensor := []; lists_num_sensors := 0 |}
    else
      match
        read_sensor_lists read_list
          (combine (Zrange 0 (Z.of_nat (List.length image_lists)))
             (combine image_lists camera_lists))
          [] [] []
      with
      | Raise e cam2sensor =>
          Raise e {| images_or_cams := []; lists_share_intrinsics_per_sensor := true;
                     cam2sensor := cam2sensor; lists_num_sensors := 0 |}
      | Ret (images, cameras) cam2sensor =>
          Ret tt {| images_or_cams := (images ++ cameras)%list;
                    lists_share_intrinsics_per_sensor := true;
                    cam2sensor := cam2sensor;
                    lists_num_sensors := Z.of_nat (List.length image_lists) |}
      end.

End BundleAdjustCamera2.

(* --------------------------------------------------------------------- *)
(** ** stereo_tri.cc                                                      *)
(* --------------------------------------------------------------------- *)

Module StereoTri.

Local Open Scope Z_scope.

(** [Vector6]: the point ([subvector(pt, 0, 3)]) and its error vector. *)
Record Vector6 : Type := V6 { xyz : Vector3; err : Vector3 }.

(** [ImageViewRef<Vector6>]: a lazy view, a size and a function of the
    column and the row. *)
Record ImageViewRef : Type := View {
  cols : Z;
  rows : Z;
  pixel : Z -> Z -> Vector6
}.

(** [vw::BBox2i]: [min] is in the box, [max] is just outside. *)
Record BBox2i : Type := BBox { min_x : Z; min_y : Z; max_x : Z; max_y : Z }.

(** [BBox2i(x, y, width, height)] *)
Definition BBox2i_xywh (x y w h : Z) : BBox2i := BBox x y (x + w) (y + h).

Definition width (b : BBox2i) : Z := max_x b - min_x b.
Definition height (b : BBox2i) : Z := max_y b - min_y b.

(** [b.crop(other)]: the minima are raised and the maxima lowered to those
    of [other]. *)
Definition bbox_crop (b other : BBox2i) : BBox2i :=
  BBox (Z.max (min_x b) (min_x other)) (Z.max (min_y b) (min_y other))
       (Z.min (max_x b) (max_x other)) (Z.min (max_y b) (max_y other)).

Definition bounding_box (image : ImageViewRef) : BBox2i :=
  BBox2i_xywh 0 0 (cols image) (rows image).

(** [crop(image, box)] *)
Definition crop (image : ImageViewRef) (box : BBox2i) : ImageViewRef :=
  View (width box) (height box)
       (fun px py => pixel image (px + min_x box) (py + min_y box)).

(** [sort(V.begin(), V.end())], as an insertion sort. *)
Fixpoint insert_sorted (x : double) (l : list double) : list double :=
  match l with
  | [] => [x]
  | y :: l' => if Qle_bool x y then x :: l else y :: insert_sorted x l'
  end.

Fixpoint sort (l : list double) : list double :=
  match l with
  | [] => []
  | x :: l' => insert_sorted x (sort l')
  end.

(** A loop over the values [idx] of its variable, with a body that either
    goes on with a new state or returns from the function. *)
Fixpoint for_each {S R : Type} (body : Z -> S -> S + R) (idx : list Z) (s : S)
    : S + R :=
  match idx with
  | [] => inl s
  | i :: idx' =>
      match body i s with
      | inl s' => for_each body idx' s'
      | inr r => inr r
      end
  end.

Section Center.

(** [RAND_MAX], and the values that the successive calls of [rand()]
    give, each in [0, RAND_MAX]; the state is the number of calls made
    so far. *)
Variable RAND_MAX : Z.
Variable rand_seq : nat -> Z.

(** [stereo_settings().trans_crop_win] *)
Variable trans_crop_win : BBox2i.

Definition coord (i : nat) (p : Vector3) : double :=
  match i with O => v3x p | S O => v3y p | _ => v3z p end.

(** One round of the loop of [find_approx_points_median]: coordinate
    [i], with [r] the value of [rand()]. *)
Definition approx_median_coord (points : list Vector3) (i : nat) (r : Z) : double :=
  let V := map (coord i) points in
  let V := sort V in
  let median := nth (List.length points / 2)%nat V 0%Q in
  (median + median * (1 # 10000000000) * inject_Z r / inject_Z RAND_MAX)%Q.

(** [find_approx_points_median], from the state [k] of [rand]. *)
Definition find_approx_points_median (points : list Vector3) (k : nat)
    : Vector3 * nat :=
  match points with
  | [] => (Vector3_zero, k)
  | _ =>
      (V3 (approx_median_coord points 0 (rand_seq k))
          (approx_median_coord points 1 (rand_seq (k + 1)))
          (approx_median_coord points 2 (rand_seq (k + 2))),
       (k + 3)%nat)
  end.

(** The two loops over [cropped_cloud]: the points pushed back. *)
Definition valid_points (cropped_cloud : ImageViewRef) : list Vector3 :=
  flat_map
    (fun px =>
       flat_map
         (fun py =>
            let xyz := xyz (pixel cropped_cloud px py) in
            if Vector3_eqb xyz Vector3_zero then [] else [xyz])
         (Zrange 0 (rows cropped_cloud)))
    (Zrange 0 (cols cropped_cloud)).

(** The points of the tile [(x, y)]. *)
Definition tile_points (tile_size : Z * Z) (point_cloud : ImageViewRef) (x y : Z)
    : list Vector3 :=
  let box :=
    BBox2i_xywh (x * fst tile_size) (y * snd tile_size) (fst tile_size)
      (snd tile_size) in
  let box := bbox_crop box (bounding_box point_cloud) in
  let box := bbox_crop box trans_crop_win in
  let cropped_cloud := crop point_cloud box in
  valid_points cropped_cloud.

(** [(int)ceil(n / double(d))] *)
Definition ceil_div (n d : Z) : Z := Qceiling (inject_Z n / inject_Z d).

(** The body of the loop over [y]. *)
Definition visit_tile (tile_size : Z * Z) (point_cloud : ImageViewRef)
    (numx numy r x y : Z) (k : nat) (points : list Vector3)
    : list Vector3 + Vector3 * nat :=
  if negb (x =? Z.quot numx 2 - r) && negb (x =? Z.quot numx 2 + r)
     && negb (y =? Z.quot numy 2 - r) && negb (y =? Z.quot numy 2 + r)
  then inl points
  else if (x <? 0) || (y <? 0) || (x >=? numx) || (y >=? numy)
  then inl points
  else
    let points := (points ++ tile_points tile_size point_cloud x y)%list in
    if (100 <? List.length points)%nat
    then inr (find_approx_points_median points k)
    else inl points.

(** [find_point_cloud_center], from the state [k] of [rand]. *)
Definition find_point_cloud_center (tile_size : Z * Z)
    (point_cloud : ImageViewRef) (k : nat) : Vector3 * nat :=
  let numx := ceil_div (cols point_cloud) (fst tile_size) in
  let numy := ceil_div (rows point_cloud) (snd tile_size) in
  let points : list Vector3 := [] in
  match
    for_each
      (fun r points =>
         for_each
           (fun x points =>
              for_each
                (fun y points =>
                   visit_tile tile_size point_cloud numx numy r x y k points)
                (Zrange (Z.quot numy 2 - r) (Z.quot numy 2 + r + 1)) points)
           (Zrange (Z.quot numx 2 - r) (Z.quot numx 2 + r + 1)) points)
      (Zrange 0 (Z.max (Z.quot numx 2) (Z.quot numy 2) + 1)) points
  with
  | inr center => center
  | inl points => find_approx_points_median points k
  end.

End Center.

End StereoTri.

(* --------------------------------------------------------------------- *)
(** ** The specification's wording, and the notions of the statements    *)
(* --------------------------------------------------------------------- *)

Module Spec.

Local Open Scope Z_scope.

(** "clamped to [0,N]" *)
Definition clamp (lo hi x : Z) : Z := Z.max lo (Z.min x hi).

Definition index_error : exn :=
  ArgumentErr
    "Book-keeping error in interpolation. Likely image order is different than camera order.".

(** The sample-index window as the specification words it:
    beg = floor((t_min - t0)/dt) - 3 and end = floor((t_max - t0)/dt) + 4,
    clamped to [0,N], and a fatal error if beg >= end. *)
Definition index_window (t1 t2 t0 dt : double) (N : Z) : result (Z * Z) :=
  let t_min := Qmin t1 t2 in
  let t_max := Qmax t1 t2 in
  let beg := clamp 0 N (Qfloor ((t_min - t0) / dt)%Q - 3) in
  let end_ := clamp 0 N (Qfloor ((t_max - t0) / dt)%Q + 4) in
  if beg >=? end_ then Throw index_error else Ok (beg, end_).

(** The inclusive window [first, last] that the half-open window
    [begIndex, endIndex) of the code denotes. *)
Definition inclusive (w : result (Z * Z)) : result (Z * Z) :=
  match w with
  | Ok (b, e) => Ok (b, e - 1)
  | Throw e => Throw e
  end.

(** The saturating residual as the specification words it: 1000 pixels,
    multiplied by the weight. *)
Definition saturating_residual (weight : double) : double :=
  (JitterSolveCostFuns.g_big_pixel_value * weight)%Q.

(** Two arrays of equal length that hold the same values at every index
    outside [T]. *)
Definition arrays_agree_off (T : Z -> Prop) (a a' : list double) : Prop :=
  List.length a = List.length a'
  /\ forall j, 0 <= j -> ~ T j -> array_get 0%Q a j = array_get 0%Q a' j.

(** Two flat arrays of samples of [n] doubles each that hold the same
    values in every sample whose index is outside [S]. *)
Definition samples_agree_off (n : Z) (S : Z -> Prop) (a a' : list double) : Prop :=
  arrays_agree_off (fun j => S (j / n)) a a'.

(** Two linescan models that differ at most in the quaternion samples
    with index in [SQ] and in the position samples with index in [SP]. *)
Definition models_differ_only (SQ SP : Z -> Prop)
    (m m' : JitterSolveCostFuns.UsgsAstroLsSensorModel) : Prop :=
  samples_agree_off JitterSolveCostFuns.NUM_QUAT_PARAMS SQ
    (JitterSolveCostFuns.m_quaternions m) (JitterSolveCostFuns.m_quaternions m')
  /\ samples_agree_off JitterSolveCostFuns.NUM_XYZ_PARAMS SP
       (JitterSolveCostFuns.m_positions m) (JitterSolveCostFuns.m_positions m')
  /\ JitterSolveCostFuns.m_t0Quat m = JitterSolveCostFuns.m_t0Quat m'
  /\ JitterSolveCostFuns.m_dtQuat m = JitterSolveCostFuns.m_dtQuat m'
  /\ JitterSolveCostFuns.m_t0Ephem m = JitterSolveCostFuns.m_t0Ephem m'
  /\ JitterSolveCostFuns.m_dtEphem m = JitterSolveCostFuns.m_dtEphem m'.

(** Two linescan costs for the same observation, weight and windows,
    that is, two costs that differ at most in their camera model. *)
Definition same_but_model (f f' : JitterSolveCostFuns.LsPixelReprojErr) : Prop :=
  JitterSolveCostFuns.ls_observation f = JitterSolveCostFuns.ls_observation f'
  /\ JitterSolveCostFuns.ls_weight f = JitterSolveCostFuns.ls_weight f'
  /\ JitterSolveCostFuns.m_begQuatIndex f = JitterSolveCostFuns.m_begQuatIndex f'
  /\ JitterSolveCostFuns.m_endQuatIndex f = JitterSolveCostFuns.m_endQuatIndex f'
  /\ JitterSolveCostFuns.m_begPosIndex f = JitterSolveCostFuns.m_begPosIndex f'
  /\ JitterSolveCostFuns.m_endPosIndex f = JitterSolveCostFuns.m_endPosIndex f'.

(** The locality of the linescan cost as the specification words it, for
    a camera api: a change of one quaternion sample outside
    [begQuat, endQuat), or of one position sample outside
    [begPos, endPos), leaves the residual as it is. *)
Definition cost_locality (api : JitterSolveCostFuns.CsmApi) : Prop :=
  forall (f f' : JitterSolveCostFuns.LsPixelReprojErr)
         (parameters : JitterSolveCostFuns.parameter_blocks) (q : Z),
    same_but_model f f' ->
    (models_differ_only (fun i => i = q) (fun _ => False)
       (JitterSolveCostFuns.ls_model f) (JitterSolveCostFuns.ls_model f')
     /\ ~ (JitterSolveCostFuns.m_begQuatIndex f <= q
            < JitterSolveCostFuns.m_endQuatIndex f))
    \/ (models_differ_only (fun _ => False) (fun i => i = q)
          (JitterSolveCostFuns.ls_model f) (JitterSolveCostFuns.ls_model f')
        /\ ~ (JitterSolveCostFuns.m_begPosIndex f <= q
               < JitterSolveCostFuns.m_endPosIndex f)) ->
    JitterSolveCostFuns.LsPixelReprojErr_call api f parameters
    = JitterSolveCostFuns.LsPixelReprojErr_call api f' parameters.

(** A 4x4 similarity transform: a linear part and a translation over the
    row (0, 0, 0, 1). *)
Definition is_similarity_matrix (M : BundleAdjustCamera2.Matrix) : Prop :=
  exists a b c d e f g h i j k l : double,
    M = [[a; b; c; d]; [e; f; g; h]; [i; j; k; l]; [0; 0; 0; 1]]%Q.

(** [ps1] is the parameter storage when [init_cams] reaches the initial
    transform: [ps0] itself without an input prefix, and otherwise what
    [put_adjustments_in_params] makes of it without throwing. *)
Definition adjustments_loaded {BAParams CamPtr CameraAdjustment : Type}
    (api : BundleAdjustCamera2.InitCamsApi BAParams CamPtr CameraAdjustment)
    (opt : BundleAdjustCamera2.BaBaseOptions CamPtr) (ps0 ps1 : BAParams) : Prop :=
  if (BundleAdjustCamera2.input_prefix opt =? "")%string then ps1 = ps0
  else
    BundleAdjustCamera2.put_adjustments_in_params api
      (BundleAdjustCamera2.input_prefix opt) (BundleAdjustCamera2.image_files opt)
      (BundleAdjustCamera2.camera_files opt) ps0
    = Ret tt ps1.

(** The centroid of a list of points. *)
Definition centroid (pts : list Vector3) : Vector3 :=
  Vector3_div (fold_left Vector3_add pts Vector3_zero)
              (inject_Z (Z.of_nat (List.length pts))).

(** The positions of the ground control points that [check_gcp_dists]
    takes into account (a nonzero position, more than one measure). *)
Definition gcp_positions (cnet : BundleAdjustCamera.ControlNetwork) : list Vector3 :=
  flat_map
    (fun cp =>
       if negb (BundleAdjustCamera.skipped cp)
          && BundleAdjustCamera.is_gcp (BundleAdjustCamera.type cp)
       then [BundleAdjustCamera.position cp] else [])
    cnet.

(** The triangulated positions of the measurement points that
    [check_gcp_dists] takes into account and that triangulate. *)
Definition triangulated_positions {PinholeModel OtherModel : Type}
    (triangulate_control_point :
       BundleAdjustCamera.ControlPoint ->
       list (BundleAdjustCamera.CameraModel PinholeModel OtherModel) ->
       double -> double -> double * BundleAdjustCamera.ControlPoint)
    (camera_models : list (BundleAdjustCamera.CameraModel PinholeModel OtherModel))
    (forced_triangulation_distance : double)
    (cnet : BundleAdjustCamera.ControlNetwork) : list Vector3 :=
  flat_map
    (fun cp =>
       if negb (BundleAdjustCamera.skipped cp)
          && negb (BundleAdjustCamera.is_gcp (BundleAdjustCamera.type cp))
       then
         match BundleAdjustCamera.triangulated triangulate_control_point
                 camera_models forced_triangulation_distance cp with
         | Some p => [p]
         | None => []
         end
       else [])
    cnet.

(** "The centroid of the triangulated measurement points is more than
    100 km from the centroid of the GCP positions." *)
Definition centroids_far_apart (ips gcps : list Vector3) : bool :=
  BundleAdjustCamera.norm_2_gt (Vector3_sub (centroid ips) (centroid gcps)) 100000%Q.

(** A camera after [apply_rigid_transform]. *)
Definition transformed_camera {PinholeModel OtherModel : Type}
    (pinhole_apply_transform :
       Matrix3x3 -> Vector3 -> double -> PinholeModel -> PinholeModel)
    (rotation : Matrix3x3) (translation : Vector3) (scale : double)
    (cam : BundleAdjustCamera.CameraModel PinholeModel OtherModel)
    : BundleAdjustCamera.CameraModel PinholeModel OtherModel :=
  match cam with
  | BundleAdjustCamera.Pinhole p =>
      BundleAdjustCamera.Pinhole (pinhole_apply_transform rotation translation scale p)
  | BundleAdjustCamera.NotPinhole c => BundleAdjustCamera.NotPinhole c
  end.

Definition is_pinhole {PinholeModel OtherModel : Type}
    (cam : BundleAdjustCamera.CameraModel PinholeModel OtherModel) : bool :=
  match cam with
  | BundleAdjustCamera.Pinhole _ => true
  | BundleAdjustCamera.NotPinhole _ => false
  end.

(** A control point after the similarity: a ground control point as it
    was, any other point at s·R·position + t. *)
Definition transformed_point (rotation : Matrix3x3) (translation : Vector3)
    (scale : double) (cp : BundleAdjustCamera.ControlPoint)
    : BundleAdjustCamera.ControlPoint :=
  if BundleAdjustCamera.is_gcp (BundleAdjustCamera.type cp) then cp
  else
    BundleAdjustCamera.set_position cp
      (Vector3_add
         (Matrix3x3_apply (Matrix3x3_scale scale rotation)
            (BundleAdjustCamera.position cp))
         translation).

(** The effect of [apply_rigid_transform] as the specification words it:
    every camera is transformed, and every control point is. *)
Definition rigid_transform_applied {PinholeModel OtherModel : Type}
    (pinhole_apply_transform :
       Matrix3x3 -> Vector3 -> double -> PinholeModel -> PinholeModel)
    (rotation : Matrix3x3) (translation : Vector3) (scale : double)
    (camera_models : list (BundleAdjustCamera.CameraModel PinholeModel OtherModel))
    (cnet : BundleAdjustCamera.ControlNetwork) : Prop :=
  BundleAdjustCamera.apply_rigid_transform pinhole_apply_transform rotation
    translation scale camera_models cnet
  = Ret tt
      (map (transformed_camera pinhole_apply_transform rotation translation scale)
         camera_models,
       map (transformed_point rotation translation scale) cnet).

(** Whether the tile [(x, y)] is visited in ring [r]: it is on the
    boundary of the square of the ring and inside the grid of tiles. *)
Definition tile_visited (numx numy r x y : Z) : bool :=
  negb (negb (x =? Z.quot numx 2 - r) && negb (x =? Z.quot numx 2 + r)
        && negb (y =? Z.quot numy 2 - r) && negb (y =? Z.quot numy 2 + r))
  && negb ((x <? 0) || (y <? 0) || (x >=? numx) || (y >=? numy)).

(** The tiles visited in ring [r], in the order of the two loops. *)
Definition ring_tiles (numx numy r : Z) : list (Z * Z) :=
  flat_map
    (fun x =>
       flat_map (fun y => if tile_visited numx numy r x y then [(x, y)] else [])
         (Zrange (Z.quot numy 2 - r) (Z.quot numy 2 + r + 1)))
    (Zrange (Z.quot numx 2 - r) (Z.quot numx 2 + r + 1)).

(** The tiles of the whole spiral, in the order of the search. *)
Definition spiral_tiles (numx numy : Z) : list (Z * Z) :=
  flat_map (ring_tiles numx numy)
    (Zrange 0 (Z.max (Z.quot numx 2) (Z.quot numy 2) + 1)).

(** The valid points of a list of tiles, in order. *)
Definition points_of (trans_crop_win : StereoTri.BBox2i) (tile_size : Z * Z)
    (point_cloud : StereoTri.ImageViewRef) (tiles : list (Z * Z)) : list Vector3 :=
  flat_map
    (fun t => StereoTri.tile_points trans_crop_win tile_size point_cloud (fst t) (snd t))
    tiles.

(** A search over a list of tiles that accumulates the points of each tile
    and, after a tile, finishes when [enough] holds of the number of points
    accumulated. *)
Fixpoint scan_tiles (enough : nat -> bool) (tile : Z * Z -> list Vector3)
    (finish : list Vector3 -> Vector3 * nat) (tiles : list (Z * Z))
    (points : list Vector3) : list Vector3 + Vector3 * nat :=
  match tiles with
  | [] => inl points
  | t :: rest =>
      let points := (points ++ tile t)%list in
      if enough (List.length points) then inr (finish points)
      else scan_tiles enough tile finish rest points
  end.

(** The cloud-center estimator as the specification words it: the spiral
    search stops as soon as at least 100 points are available. *)
Definition center_stopping_at_100 (RAND_MAX : Z) (rand_seq : nat -> Z)
    (trans_crop_win : StereoTri.BBox2i) (tile_size : Z * Z)
    (point_cloud : StereoTri.ImageViewRef) (k : nat) : Vector3 * nat :=
  let numx := StereoTri.ceil_div (StereoTri.cols point_cloud) (fst tile_size) in
  let numy := StereoTri.ceil_div (StereoTri.rows point_cloud) (snd tile_size) in
  match
    scan_tiles (fun n => (100 <=? n)%nat)
      (fun t => StereoTri.tile_points trans_crop_win tile_size point_cloud (fst t) (snd t))
      (fun points => StereoTri.find_approx_points_median RAND_MAX rand_seq points k)
      (spiral_tiles numx numy) []
  with
  | inr center => center
  | inl points => StereoTri.find_approx_points_median RAND_MAX rand_seq points k
  end.

(** The element of index n/2 of the sorted values. *)
Definition upper_median (V : list double) : double :=
  nth (List.length V / 2)%nat (StereoTri.sort V) 0%Q.

(** [m + m*1e-10*r/RAND_MAX] *)
Definition perturbed (RAND_MAX : Z) (m : double) (r : Z) : double :=
  (m + m * (1 # 10000000000) * inject_Z r / inject_Z RAND_MAX)%Q.

(** The view has a real point at the center: some pixel of the cloud holds
    a valid point equal to it. *)
Definition is_point_of (point_cloud : StereoTri.ImageViewRef) (center : Vector3)
    (col row : Z) : bool :=
  (0 <=? col) && (col <? StereoTri.cols point_cloud)
  && (0 <=? row) && (row <? StereoTri.rows point_cloud)
  && negb (Vector3_eqb (StereoTri.xyz (StereoTri.pixel point_cloud col row)) Vector3_zero)
  && Vector3_eqb (StereoTri.xyz (StereoTri.pixel point_cloud col row)) center.

(** The number of doubles behind a block address of the linescan cost
    and of the rig cost. *)
Definition block_size (a : JitterSolveCostFuns.block_address) : Z :=
  match a with
  | JitterSolveCostFuns.QuatSample _ => JitterSolveCostFuns.NUM_QUAT_PARAMS
  | JitterSolveCostFuns.PosSample _ => JitterSolveCostFuns.NUM_XYZ_PARAMS
  | JitterSolveCostFuns.TriPoint => JitterSolveCostFuns.NUM_XYZ_PARAMS
  end.

Definition rig_block_size (rig : JitterSolveCostFuns.RigApi)
    (a : JitterSolveCostFuns.rig_block_address) : Z :=
  match a with
  | JitterSolveCostFuns.RigQuatSample _ => JitterSolveCostFuns.NUM_QUAT_PARAMS
  | JitterSolveCostFuns.RigPosSample _ => JitterSolveCostFuns.NUM_XYZ_PARAMS
  | JitterSolveCostFuns.RigTriPoint => JitterSolveCostFuns.NUM_XYZ_PARAMS
  | JitterSolveCostFuns.RigRefToCurr => JitterSolveCostFuns.NUM_RIGID_PARAMS rig
  end.

(** A rig cost with another model of the current frame camera. *)
Definition rig_with_frame_model (f : JitterSolveCostFuns.RigLsFramePixelReprojErr)
    (m : JitterSolveCostFuns.UsgsAstroFrameSensorModel)
    : JitterSolveCostFuns.RigLsFramePixelReprojErr :=
  {| JitterSolveCostFuns.rig_frame_pix := JitterSolveCostFuns.rig_frame_pix f;
     JitterSolveCostFuns.rig_weight := JitterSolveCostFuns.rig_weight f;
     JitterSolveCostFuns.rig_cam_info := JitterSolveCostFuns.rig_cam_info f;
     JitterSolveCostFuns.rig_ref_ls_model := JitterSolveCostFuns.rig_ref_ls_model f;
     JitterSolveCostFuns.rig_curr_frame_model := m;
     JitterSolveCostFuns.rig_begQuatIndex := JitterSolveCostFuns.rig_begQuatIndex f;
     JitterSolveCostFuns.rig_endQuatIndex := JitterSolveCostFuns.rig_endQuatIndex f;
     JitterSolveCostFuns.rig_begPosIndex := JitterSolveCostFuns.rig_begPosIndex f;
     JitterSolveCostFuns.rig_endPosIndex := JitterSolveCostFuns.rig_endPosIndex f |}.

(** Two vectors with equal components, as rational numbers. *)
Definition Vector3_equiv (a b : Vector3) : Prop :=
  (v3x a == v3x b /\ v3y a == v3y b /\ v3z a == v3z b)%Q.

(** The sum of the points in which the first is divided by [c], the
    second by [c + 1], the third by [c + 2], and so on. *)
Fixpoint drifting_mean (pts : list Vector3) (c : double) : Vector3 :=
  match pts with
  | [] => Vector3_zero
  | p :: rest => Vector3_add (Vector3_div p c) (drifting_mean rest (c + 1)%Q)
  end.

(** The indices of the cameras that have an estimated position, that
    is, one that is not the zero vector. *)
Definition matched_cameras (estimated_camera_gcc : list Vector3) : list Z :=
  filter
    (fun i =>
       negb (Vector3_eqb (array_get Vector3_zero estimated_camera_gcc i) Vector3_zero))
    (Zrange 0 (Z.of_nat (List.length estimated_camera_gcc))).

(** For a ground control point, its triangulated position and its given
    position, when neither is the zero vector. *)
Definition gcp_pair {PinholeModel OtherModel : Type}
    (triangulate_control_point :
       BundleAdjustCamera.ControlPoint ->
       list (BundleAdjustCamera.CameraModel PinholeModel OtherModel) ->
       double -> double -> double * BundleAdjustCamera.ControlPoint)
    (camera_models : list (BundleAdjustCamera.CameraModel PinholeModel OtherModel))
    (cp : BundleAdjustCamera.ControlPoint) : option (Vector3 * Vector3) :=
  if BundleAdjustCamera.is_gcp (BundleAdjustCamera.type cp) then
    let inp :=
      BundleAdjustCamera.position
        (snd (triangulate_control_point cp camera_models 0%Q (- (1))%Q)) in
    let outp := BundleAdjustCamera.position cp in
    if Vector3_eqb inp Vector3_zero || Vector3_eqb outp Vector3_zero then None
    else Some (inp, outp)
  else None.

Definition gcp_pairs {PinholeModel OtherModel : Type}
    (triangulate_control_point :
       BundleAdjustCamera.ControlPoint ->
       list (BundleAdjustCamera.CameraModel PinholeModel OtherModel) ->
       double -> double -> double * BundleAdjustCamera.ControlPoint)
    (camera_models : list (BundleAdjustCamera.CameraModel PinholeModel OtherModel))
    (cnet : BundleAdjustCamera.ControlNetwork) : list (Vector3 * Vector3) :=
  flat_map
    (fun cp =>
       match gcp_pair triangulate_control_point camera_models cp with
       | Some inout => [inout]
       | None => []
       end)
    cnet.

(** The ground control points that the counting loop of
    [init_pinhole_model_with_multi_gcp] counts as good. *)
Definition good_gcps {PinholeModel OtherModel : Type}
    (triangulate_control_point :
       BundleAdjustCamera.ControlPoint ->
       list (BundleAdjustCamera.CameraModel PinholeModel OtherModel) ->
       double -> double -> double * BundleAdjustCamera.ControlPoint)
    (camera_models : list (BundleAdjustCamera.CameraModel PinholeModel OtherModel))
    (cnet : BundleAdjustCamera.ControlNetwork) : list BundleAdjustCamera.ControlPoint :=
  filter
    (fun cp =>
       BundleAdjustCamera.is_gcp (BundleAdjustCamera.type cp)
       && BundleAdjustCamera.good_gcp triangulate_control_point camera_models cp)
    cnet.

(** The ground control points with both positions not zero whose
    triangulation gives an error that is not positive, when there is not
    exactly one camera. *)
Definition uncounted_gcps {PinholeModel OtherModel : Type}
    (triangulate_control_point :
       BundleAdjustCamera.ControlPoint ->
       list (BundleAdjustCamera.CameraModel PinholeModel OtherModel) ->
       double -> double -> double * BundleAdjustCamera.ControlPoint)
    (camera_models : list (BundleAdjustCamera.CameraModel PinholeModel OtherModel))
    (cnet : BundleAdjustCamera.ControlNetwork) : list BundleAdjustCamera.ControlPoint :=
  filter
    (fun cp =>
       match gcp_pair triangulate_control_point camera_models cp with
       | Some _ =>
           Qle_bool (fst (triangulate_control_point cp camera_models 0%Q (- (1))%Q)) 0
           && negb (List.length camera_models =? 1)%nat
       | None => false
       end)
    cnet.

(** The pairs of elements of a list in which the first comes before the
    second, in the order of two nested loops. *)
Fixpoint ordered_pairs {A : Type} (l : list A) : list (A * A) :=
  match l with
  | [] => []
  | x :: rest => (map (pair x) rest ++ ordered_pairs rest)%list
  end.

(** The cameras, among the first [num_cams], with at least three points. *)
Definition good_cameras (xyz : list (list Vector3)) (num_cams : Z) : list Z :=
  filter (BundleAdjustCamera.is_good xyz) (Zrange 0 num_cams).

(** The change of the distance between two cameras, from the first set
    of cameras to the second. *)
Definition scale_change {PinholeModel : Type}
    (api : BundleAdjustCamera.AlignApi PinholeModel)
    (sfm_cams aux_cams : list PinholeModel) (its : Z * Z) : double :=
  (BundleAdjustCamera.norm_2 api
     (Vector3_sub (BundleAdjustCamera.pinhole_center_at api aux_cams (fst its))
                  (BundleAdjustCamera.pinhole_center_at api aux_cams (snd its)))
   / BundleAdjustCamera.norm_2 api
       (Vector3_sub (BundleAdjustCamera.pinhole_center_at api sfm_cams (fst its))
                    (BundleAdjustCamera.pinhole_center_at api sfm_cams (snd its))))%Q.

(** The measures of the ground control points of a network, in order:
    the image, the position of the point and the pixel. *)
Definition gcp_measures (cnet : BundleAdjustCamera.ControlNetwork)
    : list (Z * (Vector3 * Vector2)) :=
  flat_map
    (fun cp =>
       if BundleAdjustCamera.is_gcp (BundleAdjustCamera.type cp) then
         map (fun m =>
                (BundleAdjustCamera.image_id m,
                 (BundleAdjustCamera.position cp, BundleAdjustCamera.position2 m)))
             (BundleAdjustCamera.measures cp)
       else [])
    cnet.

(** Whether a measure names one of the [num_cams] cameras. *)
Definition names_a_camera (num_cams : Z) (m : Z * (Vector3 * Vector2)) : bool :=
  (0 <=? fst m) && (fst m <? num_cams).

(** The measures of camera [c], projected by [proj]. *)
Definition of_camera {A : Type} (proj : Vector3 * Vector2 -> A)
    (ms : list (Z * (Vector3 * Vector2))) (c : Z) : list A :=
  map (fun m => proj (snd m)) (filter (fun m => fst m =? c) ms).

(** The cameras, among the first [num_cams], that at least three of
    the measures name. *)
Definition cameras_with_three (ms : list (Z * (Vector3 * Vector2))) (num_cams : Z)
    : list Z :=
  filter (fun c => (3 <=? List.length (of_camera fst ms c))%nat) (Zrange 0 num_cams).

(** The options that the two grammars of the intrinsics to float know. *)
Definition known_option (o : string) : bool :=
  ((o =? "optical_center") || (o =? "focal_length") || (o =? "other_intrinsics")
   || (o =? "distortion") || (o =? "all") || (o =? "none"))%string.

Definition unknown_option_error (o : string) : exn :=
  ArgumentErr
    ("Found unknown option when parsing which sensor intrinsics to float: " ++ o ++ ".").

(** Whether some option asks to float the optical center, the focal
    length, the distortion. *)
Definition asks_center (options : list string) : bool :=
  existsb (fun o => (o =? "optical_center") || (o =? "all"))%string options.

Definition asks_focus (options : list string) : bool :=
  existsb (fun o => (o =? "focal_length") || (o =? "all"))%string options.

Definition asks_distortion (options : list string) : bool :=
  existsb (fun o => (o =? "other_intrinsics") || (o =? "distortion") || (o =? "all"))%string
    options.

(** The sensors (counted from zero) that the integer options name. *)
Definition named_sensors (options : list string) : list Z :=
  map (fun o => BundleAdjustCamera2.atoi o - 1)
    (filter BundleAdjustCamera2.is_str_non_neg_integer options).

(** Whether every pair (first and second value, third and fourth, ...)
    is a minimum before a maximum; a last value without partner is not
    looked at. *)
Fixpoint pairs_in_order (vals : list double) : bool :=
  match vals with
  | a :: b :: rest => Qle_bool a b && pairs_in_order rest
  | _ => true
  end.

(** The values up to and including the first pair that is not in
    order. *)
Fixpoint through_first_bad_pair (vals : list double) : list double :=
  match vals with
  | a :: b :: rest =>
      if Qle_bool a b then a :: b :: through_first_bad_pair rest else [a; b]
  | _ => vals
  end.

(** All elements of a list are equal. *)
Definition all_equal (l : list Z) : bool :=
  match l with
  | [] => true
  | x :: rest => forallb (fun y => y =? x) rest
  end.

(** The set of the elements of a list, with [std::set::insert]. *)
Definition set_of (l : list Z) : list Z :=
  fold_left (fun s x => BundleAdjustCamera2.set_insert x s) l [].

(** The cameras of a sensor, among the first [num_cams], and the sizes
    of their distortion vectors. *)
Definition cameras_of (cam2sensor : list Z) (num_cams : Z) (sensor : Z) : list Z :=
  filter (fun cam => array_get 0 cam2sensor cam =? sensor) (Zrange 0 num_cams).

Definition sizes_of (num_dist_params cam2sensor : list Z) (sensor : Z) : list Z :=
  map (array_get 0 num_dist_params)
    (cameras_of cam2sensor (Z.of_nat (List.length num_dist_params)) sensor).

(** A sensor has a camera, and all its cameras have one size. *)
Definition one_size (sizes : list Z) : bool :=
  negb (List.length sizes =? 0)%nat && all_equal sizes.

(** The characters that end a token of an option string: the
    separators, and what [isspace] accepts. *)
Definition is_separator (c : ascii) : bool :=
  existsb (Ascii.eqb c) BundleAdjustCamera2.sep.

Definition token_char (c : ascii) : bool :=
  negb (BundleAdjustCamera2.isspace c) && negb (is_separator c).

Fixpoint string_forallb (p : ascii -> bool) (s : string) : bool :=
  match s with
  | EmptyString => true
  | String c s' => p c && string_forallb p s'
  end.

Fixpoint string_filter (p : ascii -> bool) (s : string) : string :=
  match s with
  | EmptyString => EmptyString
  | String c s' => if p c then String c (string_filter p s') else string_filter p s'
  end.

(** A token: not empty, and made of token characters. *)
Definition is_token (t : string) : bool :=
  negb (t =? EmptyString)%string && string_forallb token_char t.

(** The tokens one after the other, and with [c] between them. *)
Definition concat_all (tokens : list string) : string :=
  fold_right append EmptyString tokens.

Fixpoint join (c : ascii) (tokens : list string) : string :=
  match tokens with
  | [] => EmptyString
  | [t] => t
  | t :: rest => (t ++ String c (join c rest))%string
  end.

End Spec.

(* --------------------------------------------------------------------- *)
(** ** Concrete inputs used by the examples                               *)
(* --------------------------------------------------------------------- *)

Module Fixtures.

Import JitterSolveCostFuns.

(** A camera api whose projections always throw. *)
Definition throwing_api : CsmApi :=
  {| ls_groundToImage := fun _ _ _ => Throw (StdException "groundToImage failed");
     ls_getImageTime := fun _ pt => line pt;
     frame_groundToImage := fun _ _ _ => Throw (StdException "groundToImage failed");
     toCsmPixel := fun pix => ImagePt (snd pix) (fst pix);
     fromCsmPixel := fun pt => (samp pt, line pt);
     DEFAULT_CSM_DESIRED_PRECISION := (1 # 100000000)%Q |}.

Definition ls_model_2 : UsgsAstroLsSensorModel :=
  {| m_quaternions := [0; 0; 0; 1; 0; 0; 0; 1]%Q;
     m_positions := [0; 0; 0]%Q;
     m_t0Quat := 0%Q; m_dtQuat := 1%Q; m_t0Ephem := 0%Q; m_dtEphem := 1%Q |}.

(** A linescan cost of weight 2 over quaternion sample 1 and position
    sample 0. *)
Definition ls_cost_w2 : LsPixelReprojErr :=
  {| ls_observation := (10, 20)%Q; ls_weight := 2%Q; ls_model := ls_model_2;
     m_begQuatIndex := 1%Z; m_endQuatIndex := 2%Z;
     m_begPosIndex := 0%Z; m_endPosIndex := 1%Z |}.

Definition frame_cost_w2 : FramePixelReprojErr :=
  {| fr_observation := (10, 20)%Q; fr_weight := 2%Q;
     fr_model := FrameModel [0; 0; 0; 0; 0; 0; 1]%Q |}.

Definition ls_blocks : parameter_blocks := [[0; 0; 0; 1]; [5; 6; 7]; [1; 2; 3]]%Q.
Definition frame_blocks : parameter_blocks := [[5; 6; 7]; [0; 0; 0; 1]; [1; 2; 3]]%Q.

(** A camera api whose linescan projection reads the first quaternion
    sample of the camera. *)
Definition first_sample_api : CsmApi :=
  {| ls_groundToImage :=
       fun cam _ _ => Ok (ImagePt 0%Q (array_get 0%Q (m_quaternions cam) 0));
     ls_getImageTime := fun _ pt => line pt;
     frame_groundToImage := fun _ _ _ => Ok (ImagePt 0%Q 0%Q);
     toCsmPixel := fun pix => ImagePt (snd pix) (fst pix);
     fromCsmPixel := fun pt => (samp pt, line pt);
     DEFAULT_CSM_DESIRED_PRECISION := (1 # 100000000)%Q |}.

(** A camera api whose projections do not depend on the camera. *)
Definition constant_api : CsmApi :=
  {| ls_groundToImage := fun _ P _ => Ok (ImagePt (ecef_y P) (ecef_x P));
     ls_getImageTime := fun _ pt => line pt;
     frame_groundToImage := fun _ P _ => Ok (ImagePt (ecef_y P) (ecef_x P));
     toCsmPixel := fun pix => ImagePt (snd pix) (fst pix);
     fromCsmPixel := fun pt => (samp pt, line pt);
     DEFAULT_CSM_DESIRED_PRECISION := (1 # 100000000)%Q |}.

(** [ls_model_2] with another quaternion sample 0, and the cost
    [ls_cost_w2] on it. *)
Definition ls_model_2' : UsgsAstroLsSensorModel :=
  {| m_quaternions := [1; 0; 0; 0; 0; 0; 0; 1]%Q;
     m_positions := [0; 0; 0]%Q;
     m_t0Quat := 0%Q; m_dtQuat := 1%Q; m_t0Ephem := 0%Q; m_dtEphem := 1%Q |}.

Definition ls_cost_w2' : LsPixelReprojErr :=
  {| ls_observation := (10, 20)%Q; ls_weight := 2%Q; ls_model := ls_model_2';
     m_begQuatIndex := 1%Z; m_endQuatIndex := 2%Z;
     m_begPosIndex := 0%Z; m_endPosIndex := 1%Z |}.

(** [ls_model_2] with another quaternion sample 1, and the cost
    [ls_cost_w2] on it. *)
Definition ls_model_2'' : UsgsAstroLsSensorModel :=
  {| m_quaternions := [0; 0; 0; 1; 1; 0; 0; 0]%Q;
     m_positions := [0; 0; 0]%Q;
     m_t0Quat := 0%Q; m_dtQuat := 1%Q; m_t0Ephem := 0%Q; m_dtEphem := 1%Q |}.

Definition ls_cost_w2'' : LsPixelReprojErr :=
  {| ls_observation := (10, 20)%Q; ls_weight := 2%Q; ls_model := ls_model_2'';
     m_begQuatIndex := 1%Z; m_endQuatIndex := 2%Z;
     m_begPosIndex := 0%Z; m_endPosIndex := 1%Z |}.

(** A rotation api that decomposes every matrix into the angles
    (179, 5, -179) degrees, and regularizers of weights 2 and 0 in the two
    modes. *)
Definition identity3 : Matrix3x3 := M3 (V3 1 0 0) (V3 0 1 0) (V3 0 0 1).

Definition rotation_api : RotationApi :=
  {| quaternionToMatrix := fun _ => identity3;
     inverse := fun m => m;
     rollPitchYawFromRotationMatrix := fun _ => (179, 5, -179)%Q |}.

Definition roll_yaw_cost (initial_camera_constraint : bool) : weightedRollYawError :=
  {| m_rollWeight := 2%Q; m_yawWeight := 0%Q;
     m_initial_camera_constraint := initial_camera_constraint;
     m_sat2World := identity3; m_rotXY := identity3; m_initCam2World := identity3 |}.

(** A parameter storage that is only its number of cameras, cameras that
    are numbers, and a [pow] that is right at 1 and 8. *)
Definition init_api : BundleAdjustCamera2.InitCamsApi nat nat unit :=
  {| BundleAdjustCamera2.init_cams_as_zero := fun ps => ps;
     BundleAdjustCamera2.num_cameras := fun ps => ps;
     BundleAdjustCamera2.set_camera := fun ps _ _ => ps;
     BundleAdjustCamera2.get_camera := fun _ _ => tt;
     BundleAdjustCamera2.read_from_adjust_file := fun _ => Ok tt;
     BundleAdjustCamera2.bundle_adjust_file_name := fun prefix _ _ => prefix;
     BundleAdjustCamera2.apply_transform_to_params := fun _ ps _ => ps;
     BundleAdjustCamera2.AdjustedCameraModel := fun cam _ => cam;
     BundleAdjustCamera2.null_cam := O;
     BundleAdjustCamera2.pow := fun x _ => if Qeq_bool x 8 then 2%Q else 1%Q |}.

Definition csm_options : BundleAdjustCamera2.BaBaseOptions nat :=
  {| BundleAdjustCamera2.camera_models := [7; 9]%nat;
     BundleAdjustCamera2.input_prefix := "";
     BundleAdjustCamera2.stereo_session := "csm";
     BundleAdjustCamera2.image_files := ["a.tif"; "b.tif"]%string;
     BundleAdjustCamera2.camera_files := ["a.json"; "b.json"]%string |}.

(** A scaling by 2 and the identity. *)
Definition scale2_transform : BundleAdjustCamera2.Matrix :=
  [[2; 0; 0; 0]; [0; 2; 0; 0]; [0; 0; 2; 0]; [0; 0; 0; 1]]%Q.

Definition identity_transform : BundleAdjustCamera2.Matrix :=
  [[1; 0; 0; 0]; [0; 1; 0; 0]; [0; 0; 1; 0]; [0; 0; 0; 1]]%Q.

(** Cameras with nothing in them, a triangulation that succeeds and
    leaves the point where it is, and a control network of two ground
    control points at 110 km on the x axis and one tie point at 1 m. *)
Definition no_cameras : list (BundleAdjustCamera.CameraModel unit unit) := [].

Definition triangulate_in_place (cp : BundleAdjustCamera.ControlPoint)
    (cams : list (BundleAdjustCamera.CameraModel unit unit)) (minimum_angle : double)
    (forced_triangulation_distance : double)
    : double * BundleAdjustCamera.ControlPoint :=
  (1%Q, cp).

Definition two_measures : list BundleAdjustCamera.ControlMeasure :=
  [ {| BundleAdjustCamera.image_id := 0; BundleAdjustCamera.position2 := (10, 10)%Q |};
    {| BundleAdjustCamera.image_id := 1; BundleAdjustCamera.position2 := (12, 10)%Q |} ].

Definition gcp_network : BundleAdjustCamera.ControlNetwork :=
  [ BundleAdjustCamera.CP BundleAdjustCamera.GroundControlPoint (V3 110000 0 0)
      two_measures;
    BundleAdjustCamera.CP BundleAdjustCamera.GroundControlPoint (V3 110000 0 0)
      two_measures;
    BundleAdjustCamera.CP BundleAdjustCamera.TiePoint (V3 1 0 0) two_measures ].

(** A camera that is not a pinhole camera, a pinhole camera, a transform
    of the pinhole cameras that counts its applications, and a network of
    a tie point and a ground control point. *)
Definition other_camera : BundleAdjustCamera.CameraModel nat unit :=
  BundleAdjustCamera.NotPinhole tt.

Definition pinhole_camera : BundleAdjustCamera.CameraModel nat unit :=
  BundleAdjustCamera.Pinhole 0%nat.

Definition count_transform (rotation : Matrix3x3) (translation : Vector3)
    (scale : double) (p : nat) : nat := S p.

Definition small_network : BundleAdjustCamera.ControlNetwork :=
  [ BundleAdjustCamera.CP BundleAdjustCamera.TiePoint (V3 1 2 3) two_measures;
    BundleAdjustCamera.CP BundleAdjustCamera.GroundControlPoint (V3 4 5 6)
      two_measures ].

(** The intrinsics options before the strings are parsed, with the
    intrinsics shared per sensor, for a number of sensors. *)
Definition per_sensor_options (n : Z) : BundleAdjustCamera2.IntrinsicOptions :=
  {| BundleAdjustCamera2.focus_shared := true;
     BundleAdjustCamera2.center_shared := true;
     BundleAdjustCamera2.distortion_shared := true;
     BundleAdjustCamera2.floated :=
       BundleAdjustCamera2.Masks [false] [false] [false];
     BundleAdjustCamera2.share_intrinsics_per_sensor := true;
     BundleAdjustCamera2.num_sensors := n |}.

Definition fine_grained_string : string :=
  "1:focal_length,optical_center 2:all 3:none".

(** [RAND_MAX] of glibc and a [rand()] that gives 12345 every time. *)
Definition glibc_RAND_MAX : Z := 2147483647.
Definition rand_12345 (k : nat) : Z := 12345.

(** A cloud of 20 columns and 10 rows: the points of columns 10 to 19 are
    (1, 1, 1) and those of columns 0 to 9 are (5, 5, 5). With tiles of
    10 by 10 the search starts in the tile of the columns 10 to 19. *)
Definition two_tile_cloud : StereoTri.ImageViewRef :=
  StereoTri.View 20 10
    (fun col row =>
       if (col <? 10)%Z then StereoTri.V6 (V3 5 5 5) Vector3_zero
       else StereoTri.V6 (V3 1 1 1) Vector3_zero).

Definition two_tile_window : StereoTri.BBox2i := StereoTri.BBox 0 0 20 10.

(** A cloud of three points in a row: (1/2, 1/2, 1/2), (1, 1, 1), and the
    point that is (1, 1, 1) scaled by 1 + 1e-10 * 12345 / RAND_MAX. *)
Definition nudged_one : double :=
  (1 + 1 * (1 # 10000000000) * inject_Z 12345 / inject_Z glibc_RAND_MAX)%Q.

Definition three_point_cloud : StereoTri.ImageViewRef :=
  StereoTri.View 3 1
    (fun col row =>
       if (col =? 0)%Z then StereoTri.V6 (V3 (1 # 2) (1 # 2) (1 # 2)) Vector3_zero
       else if (col =? 1)%Z then StereoTri.V6 (V3 1 1 1) Vector3_zero
       else StereoTri.V6 (V3 nudged_one nudged_one nudged_one) Vector3_zero).

Definition three_point_window : StereoTri.BBox2i := StereoTri.BBox 0 0 3 1.

(** A cloud of 4 by 4 pixels without a valid point. *)
Definition empty_cloud : StereoTri.ImageViewRef :=
  StereoTri.View 4 4 (fun col row => StereoTri.V6 Vector3_zero Vector3_zero).

(** A rig api whose transform always throws, and one that gives a fixed
    pose. *)
Definition throwing_rig_api : RigApi :=
  {| linescanToCurrSensorTrans := fun _ _ _ => Throw (StdException "no pose");
     NUM_RIGID_PARAMS := 7%Z |}.

Definition fixed_rig_api : RigApi :=
  {| linescanToCurrSensorTrans := fun _ _ _ => Ok [1; 2; 3; 0; 0; 0; 1]%Q;
     NUM_RIGID_PARAMS := 7%Z |}.

Definition rig_cost_w2 : RigLsFramePixelReprojErr :=
  {| rig_frame_pix := (10, 20)%Q; rig_weight := 2%Q;
     rig_cam_info := {| beg_pose_time := 3%Q; end_pose_time := 3%Q |};
     rig_ref_ls_model := ls_model_2;
     rig_curr_frame_model := FrameModel [0; 0; 0; 0; 0; 0; 1]%Q;
     rig_begQuatIndex := 1%Z; rig_endQuatIndex := 2%Z;
     rig_begPosIndex := 0%Z; rig_endPosIndex := 1%Z |}.

Definition rig_blocks : parameter_blocks :=
  [[0; 0; 0; 1]; [5; 6; 7]; [1; 2; 3]; [0; 0; 0; 0; 0; 0; 1]]%Q.

Definition jitter_options : BaBaseOptions :=
  {| max_init_reproj_error := 0%Q; robust_threshold := (1 # 2)%Q |}.

(** A satellite api over georeferences that are [unit]; its functions are
    stand-ins. *)
Definition sat_api : SatSimApi unit :=
  {| ecefToProj := fun _ p => p;
     calcProjAlongAcross := fun b e => (Vector3_sub e b, V3 0 1 0);
     satSimDelta := (1 # 10)%Q;
     calcEcefAlongAcross := fun _ _ along across _ => (along, across);
     norm_2 := fun _ => 1%Q;
     assembleCam2WorldMatrix := fun a b c => M3 a b c;
     rotationXY := identity3 |}.

(** A camera api whose frame projection reads the parameters 0 and 7 of
    the camera, and a frame model of eight parameters. *)
Definition frame_reading_api : CsmApi :=
  {| ls_groundToImage := fun _ P _ => Ok (ImagePt (ecef_y P) (ecef_x P));
     ls_getImageTime := fun _ pt => line pt;
     frame_groundToImage :=
       fun cam _ _ => Ok (ImagePt (array_get 0%Q (m_currentParameterValue cam) 0)
                                  (array_get 0%Q (m_currentParameterValue cam) 7));
     toCsmPixel := fun pix => ImagePt (snd pix) (fst pix);
     fromCsmPixel := fun pt => (samp pt, line pt);
     DEFAULT_CSM_DESIRED_PRECISION := (1 # 100000000)%Q |}.

Definition frame_model_8 : UsgsAstroFrameSensorModel :=
  FrameModel [9; 9; 9; 9; 9; 9; 9; 35]%Q.

Definition frame_model_8' : UsgsAstroFrameSensorModel :=
  FrameModel [0; 0; 0; 0; 0; 0; 1; 35]%Q.

(** A control network of one ground control point at 110 km on the x
    axis and one tie point at 1 m. *)
Definition one_gcp_network : BundleAdjustCamera.ControlNetwork :=
  [ BundleAdjustCamera.CP BundleAdjustCamera.GroundControlPoint (V3 110000 0 0)
      two_measures;
    BundleAdjustCamera.CP BundleAdjustCamera.TiePoint (V3 1 0 0) two_measures ].

(** A triangulation whose error is the x coordinate of the point, two
    pinhole cameras, and a network of four ground control points of which
    the last has a negative x coordinate. *)
Definition triangulate_by_x (cp : BundleAdjustCamera.ControlPoint)
    (cams : list (BundleAdjustCamera.CameraModel nat unit)) (minimum_angle : double)
    (forced_triangulation_distance : double)
    : double * BundleAdjustCamera.ControlPoint :=
  (v3x (BundleAdjustCamera.position cp), cp).

Definition two_pinhole_cameras : list (BundleAdjustCamera.CameraModel nat unit) :=
  [BundleAdjustCamera.Pinhole 0%nat; BundleAdjustCamera.Pinhole 5%nat].

Definition four_gcp_network : BundleAdjustCamera.ControlNetwork :=
  [ BundleAdjustCamera.CP BundleAdjustCamera.GroundControlPoint (V3 1 0 0) two_measures;
    BundleAdjustCamera.CP BundleAdjustCamera.GroundControlPoint (V3 2 0 0) two_measures;
    BundleAdjustCamera.CP BundleAdjustCamera.TiePoint (V3 7 7 7) two_measures;
    BundleAdjustCamera.CP BundleAdjustCamera.GroundControlPoint (V3 3 0 0) two_measures;
    BundleAdjustCamera.CP BundleAdjustCamera.GroundControlPoint (V3 (- (1)) 0 0)
      two_measures ].

(** A transform search that gives the identity rotation, the first
    input point as translation and the number of input points as scale; and
    a camera center that is the number of the camera on the x axis. *)
Definition first_point_transform (points_in points_out : list Vector3)
    : Matrix3x3 * Vector3 * double :=
  (identity3, nth 0 points_in Vector3_zero,
   inject_Z (Z.of_nat (List.length points_in))).

Definition center_on_x (cam : BundleAdjustCamera.CameraModel nat unit) : Vector3 :=
  match cam with
  | BundleAdjustCamera.Pinhole n => V3 (inject_Z (Z.of_nat n)) 0 0
  | BundleAdjustCamera.NotPinhole _ => Vector3_zero
  end.

(** An alignment api on cameras that are numbers on the x axis: the
    norm is the sum of the squares, the median is the first element, the fit
    and the solver change nothing. *)
Definition align_api : BundleAdjustCamera.AlignApi nat :=
  {| BundleAdjustCamera.pinhole_camera_center :=
       fun n => V3 (inject_Z (Z.of_nat n)) 0 0;
     BundleAdjustCamera.norm_2 := fun v => dot_prod v v;
     BundleAdjustCamera.destructive_median := fun l => nth 0 l 0%Q;
     BundleAdjustCamera.fit_camera_to_xyz := fun _ _ cam => cam;
     BundleAdjustCamera.pixel_to_vector := fun _ _ => V3 0 0 1;
     BundleAdjustCamera.transform_to_vector := fun _ _ _ => [];
     BundleAdjustCamera.levenberg_marquardt := fun _ _ _ C => C;
     BundleAdjustCamera.apply_rot_trans_scale := fun cam _ => cam;
     BundleAdjustCamera.vector_to_transform := fun _ => (identity3, V3 1 0 0, 2%Q) |}.

(** Three measures in image 0 and three in image 1, and a network of
    one ground control point with them and one tie point. *)
Definition six_measures : list BundleAdjustCamera.ControlMeasure :=
  [ {| BundleAdjustCamera.image_id := 0; BundleAdjustCamera.position2 := (1, 1)%Q |};
    {| BundleAdjustCamera.image_id := 1; BundleAdjustCamera.position2 := (2, 1)%Q |};
    {| BundleAdjustCamera.image_id := 0; BundleAdjustCamera.position2 := (3, 1)%Q |};
    {| BundleAdjustCamera.image_id := 1; BundleAdjustCamera.position2 := (4, 1)%Q |};
    {| BundleAdjustCamera.image_id := 0; BundleAdjustCamera.position2 := (5, 1)%Q |};
    {| BundleAdjustCamera.image_id := 1; BundleAdjustCamera.position2 := (6, 1)%Q |} ].

Definition mono_gcp_network : BundleAdjustCamera.ControlNetwork :=
  [ BundleAdjustCamera.CP BundleAdjustCamera.GroundControlPoint (V3 4 5 6) six_measures;
    BundleAdjustCamera.CP BundleAdjustCamera.TiePoint (V3 1 2 3) two_measures ].

(** A list reader that gives two names for every list. *)
Definition two_names (list_name : string) : list string :=
  [(list_name ++ "1")%string; (list_name ++ "2")%string].

(** What reading the image lists "a,b" and the camera lists "c,d"
    gives with [two_names]. *)
Definition two_sensor_lists : BundleAdjustCamera2.image_cam_lists :=
  {| BundleAdjustCamera2.images_or_cams :=
       ["a1"; "a2"; "b1"; "b2"; "c1"; "c2"; "d1"; "d2"]%string;
     BundleAdjustCamera2.lists_share_intrinsics_per_sensor := true;
     BundleAdjustCamera2.cam2sensor := [0; 0; 1; 1]%Z;
     BundleAdjustCamera2.lists_num_sensors := 2%Z |}.

End Fixtures.

(* ===================================================================== *)
(** * Part II: properties                                                 *)
(* ===================================================================== *)

(** ** Index windows ([calcIndexBounds], [addLsReprojectionErr]) *)

Section IndexBounds.

Import JitterSolveCostFuns.
Local Open Scope Q_scope.

Lemma static_cast_int_floor (x : double) :
  0 <= x -> static_cast_int x = Qfloor x.
Proof.
  destruct x as [n d]. unfold Qle, static_cast_int, Qfloor. simpl.
  intros H. apply Z.quot_div_nonneg; lia.
Qed.

Lemma quotient_nonneg (t t0 dt : double) :
  0 < dt -> t0 <= t -> 0 <= (t - t0) / dt.
Proof.
  intros Hdt Ht. apply Qle_shift_div_l; [assumption | lra].
Qed.

Lemma quotient_mono (t t' t0 dt : double) :
  0 < dt -> t <= t' -> (t - t0) / dt <= (t' - t0) / dt.
Proof.
  intros Hdt Ht. unfold Qdiv. apply Qmult_le_compat_r; [lra |].
  apply Qinv_le_0_compat. lra.
Qed.

Lemma floor_of_min (t1 t2 t0 dt : double) :
  0 < dt ->
  Z.min (Qfloor ((t1 - t0) / dt)) (Qfloor ((t2 - t0) / dt))
  = Qfloor ((Qmin t1 t2 - t0) / dt).
Proof.
  intros Hdt. destruct (Q.min_spec_le t1 t2) as [[Hle He] | [Hle He]]; rewrite He.
  - apply Z.min_l, Qfloor_resp_le, quotient_mono; assumption.
  - apply Z.min_r, Qfloor_resp_le, quotient_mono; assumption.
Qed.

Lemma floor_of_max (t1 t2 t0 dt : double) :
  0 < dt ->
  Z.max (Qfloor ((t1 - t0) / dt)) (Qfloor ((t2 - t0) / dt))
  = Qfloor ((Qmax t1 t2 - t0) / dt).
Proof.
  intros Hdt. destruct (Q.max_spec_le t1 t2) as [[Hle He] | [Hle He]]; rewrite He.
  - apply Z.max_r, Qfloor_resp_le, quotient_mono; assumption.
  - apply Z.max_l, Qfloor_resp_le, quotient_mono; assumption.
Qed.

(** The window in terms of the truncated quotients, for all inputs. *)
Lemma calcIndexBounds_trunc (time1 time2 t0 dt : double) (numVals : Z) :
  let i1 := static_cast_int ((time1 - t0) / dt) in
  let i2 := static_cast_int ((time2 - t0) / dt) in
  let b := Z.max 0 (Z.min i1 i2 - 3) in
  let e := Z.min (Z.max i1 i2 + 5) numVals in
  calcIndexBounds time1 time2 t0 dt numVals
  = if (b >=? e)%Z then Throw Spec.index_error else Ok (b, e).
Proof.
  intros i1 i2 b e. unfold calcIndexBounds.
  change (Z.quot 8 2) with 4%Z. fold i1 i2.
  replace (Z.min i1 i2 - 4 + 1)%Z with (Z.min i1 i2 - 3)%Z by lia.
  replace (Z.max i1 i2 + 4 + 1)%Z with (Z.max i1 i2 + 5)%Z by lia.
  reflexivity.
Qed.

End IndexBounds.

Section IndexBoundsClaim.

Import JitterSolveCostFuns.
Local Open Scope Q_scope.




End IndexBoundsClaim.

(** ** Saturating residuals *)

Section SaturatingResiduals.

Import JitterSolveCostFuns.
Local Open Scope Q_scope.




End SaturatingResiduals.

(** ** Arrays and the loops that write them *)

Section Arrays.

Local Open Scope Z_scope.

Lemma In_Zseq (n : nat) : forall lo x, In x (Zseq lo n) <-> lo <= x < lo + Z.of_nat n.
Proof.
  induction n as [| n IH]; intros lo x; simpl Zseq.
  - simpl. lia.
  - simpl In. rewrite IH. lia.
Qed.

Lemma In_Zrange (lo hi x : Z) : In x (Zrange lo hi) <-> lo <= x < hi.
Proof.
  unfold Zrange. rewrite In_Zseq. lia.
Qed.

Lemma length_list_set {A} (a : list A) : forall i v,
  List.length (list_set a i v) = List.length a.
Proof.
  induction a as [| h t IH]; intros [| i] v; simpl; auto.
Qed.

Lemma length_array_set {A} (a : list A) (i : Z) (v : A) :
  List.length (array_set a i v) = List.length a.
Proof.
  unfold array_set. destruct (i <? 0); [reflexivity | apply length_list_set].
Qed.

Lemma nth_list_set_other {A} (d : A) (a : list A) : forall i j v,
  i <> j -> nth j (list_set a i v) d = nth j a d.
Proof.
  induction a as [| h t IH]; intros [| i] [| j] v Hij; simpl; auto.
  - congruence.
Qed.

Lemma nth_list_set_same {A} (d : A) (a : list A) : forall i v,
  (i < List.length a)%nat -> nth i (list_set a i v) d = v.
Proof.
  induction a as [| h t IH]; intros [| i] v Hi; simpl in *; try lia; auto.
  apply IH. lia.
Qed.

Lemma array_get_set_other {A} (d : A) (a : list A) (i j : Z) (v : A) :
  i <> j -> array_get d (array_set a i v) j = array_get d a j.
Proof.
  intros Hij. unfold array_get, array_set.
  destruct (j <? 0) eqn:Hj; [reflexivity |].
  destruct (i <? 0) eqn:Hi; [reflexivity |].
  apply nth_list_set_other. lia.
Qed.

Lemma array_get_set_same {A} (d : A) (a : list A) (i : Z) (v : A) :
  array_get d (array_set a i v) i
  = if (0 <=? i) && (i <? Z.of_nat (List.length a)) then v else d.
Proof.
  unfold array_get, array_set.
  destruct (i <? 0) eqn:Hi.
  - replace (0 <=? i) with false by lia. reflexivity.
  - replace (0 <=? i) with true by lia. simpl.
    destruct (i <? Z.of_nat (List.length a)) eqn:Hlen.
    + apply nth_list_set_same. lia.
    + apply nth_overflow. rewrite length_list_set. lia.
Qed.

Lemma arrays_agree_off_weaken (T T' : Z -> Prop) (a a' : list double) :
  (forall j, 0 <= j -> T j -> T' j) ->
  Spec.arrays_agree_off T a a' -> Spec.arrays_agree_off T' a a'.
Proof.
  intros Hsub [Hlen Hag]. split; [assumption |].
  intros j Hj Hn. apply Hag; [assumption |]. intros HT. apply Hn, Hsub; assumption.
Qed.

Lemma arrays_agree_everywhere (T : Z -> Prop) (a a' : list double) :
  (forall j, 0 <= j -> ~ T j) -> Spec.arrays_agree_off T a a' -> a = a'.
Proof.
  intros Hempty [Hlen Hag].
  apply (nth_ext a a' 0%Q 0%Q Hlen). intros n Hn.
  assert (Hpos : 0 <= Z.of_nat n) by lia.
  specialize (Hag (Z.of_nat n) Hpos (Hempty (Z.of_nat n) Hpos)).
  unfold array_get in Hag.
  replace (Z.of_nat n <? 0) with false in Hag by lia.
  rewrite Nat2Z.id in Hag. exact Hag.
Qed.

(** A write of the same value at the same index in both arrays removes
    that index from where they may differ. *)
Lemma arrays_agree_off_set (T : Z -> Prop) (a a' : list double) (i : Z) (v : double) :
  Spec.arrays_agree_off T a a' ->
  Spec.arrays_agree_off (fun j => T j /\ j <> i) (array_set a i v) (array_set a' i v).
Proof.
  intros [Hlen Hag]. split.
  - rewrite !length_array_set. assumption.
  - intros j Hj Hn. destruct (Z.eq_dec i j) as [-> | Hij].
    + rewrite (array_get_set_same 0%Q a), (array_get_set_same 0%Q a').
      unfold double in *. rewrite Hlen. reflexivity.
    + rewrite !array_get_set_other by assumption.
      apply Hag; [assumption |]. intros HT. apply Hn. split; [assumption | congruence].
Qed.

(** A loop whose every round, run on two arrays, removes the indices [W x]
    from where they may differ. *)
Lemma arrays_agree_off_fold {X} (step : list double -> X -> list double)
    (W : X -> Z -> Prop) :
  (forall x T a a',
      Spec.arrays_agree_off T a a' ->
      Spec.arrays_agree_off (fun j => T j /\ ~ W x j) (step a x) (step a' x)) ->
  forall xs T a a',
    Spec.arrays_agree_off T a a' ->
    Spec.arrays_agree_off (fun j => T j /\ ~ exists x, In x xs /\ W x j)
      (fold_left step xs a) (fold_left step xs a').
Proof.
  intros Hstep xs. induction xs as [| x xs IH]; intros T a a' Hag; simpl fold_left.
  - eapply arrays_agree_off_weaken; [| exact Hag].
    intros j _ HT. split; [assumption |]. intros [x [Hin _]]. exact Hin.
  - eapply arrays_agree_off_weaken; [| apply IH, Hstep, Hag].
    intros j _ [[HT HnW] Hn]. split; [assumption |].
    intros [y [[-> | Hy] HW]].
    + apply HnW, HW.
    + apply Hn. exists y. split; assumption.
Qed.

End Arrays.

(** ** Locality of the linescan cost *)

Section CostLocality.

Import JitterSolveCostFuns.
Local Open Scope Z_scope.

(** The two update loops, run on two arrays, remove the samples of the
    window from where the arrays may differ. *)
Lemma overwrite_samples_agree (n beg end_ shift : Z) (parameters : parameter_blocks)
    (T : Z -> Prop) (a a' : list double) :
  Spec.arrays_agree_off T a a' ->
  Spec.arrays_agree_off
    (fun j => T j /\ ~ exists i, In i (Zrange beg end_)
                               /\ exists c, In c (Zrange 0 n) /\ j = n * i + c)
    (overwrite_samples n beg end_ shift parameters a)
    (overwrite_samples n beg end_ shift parameters a').
Proof.
  unfold overwrite_samples.
  apply (arrays_agree_off_fold
           (fun arr i =>
              fold_left
                (fun arr coord =>
                   array_set arr (n * i + coord)
                     (param parameters (i + shift - beg) coord))
                (Zrange 0 n) arr)
           (fun i j => exists c, In c (Zrange 0 n) /\ j = n * i + c)).
  intros i T0 b b' Hb.
  apply (arrays_agree_off_fold
           (fun arr coord =>
              array_set arr (n * i + coord) (param parameters (i + shift - beg) coord))
           (fun c j => j = n * i + c)); [| exact Hb].
  intros c T1 d d' Hd. apply arrays_agree_off_set. exact Hd.
Qed.

Lemma overwrite_samples_preserves (n beg end_ shift : Z) (parameters : parameter_blocks)
    (T : Z -> Prop) (a a' : list double) :
  Spec.arrays_agree_off T a a' ->
  Spec.arrays_agree_off T
    (overwrite_samples n beg end_ shift parameters a)
    (overwrite_samples n beg end_ shift parameters a').
Proof.
  intros H. eapply arrays_agree_off_weaken; [| apply overwrite_samples_agree, H].
  intros j _ [HT _]. exact HT.
Qed.

(** Arrays that differ only in samples of the window are equal after the
    update loops. *)
Lemma overwrite_samples_window (n beg end_ shift : Z) (parameters : parameter_blocks)
    (S : Z -> Prop) (a a' : list double) :
  0 < n ->
  (forall i, S i -> beg <= i < end_) ->
  Spec.samples_agree_off n S a a' ->
  overwrite_samples n beg end_ shift parameters a
  = overwrite_samples n beg end_ shift parameters a'.
Proof.
  intros Hn Hwin H.
  eapply arrays_agree_everywhere;
    [| apply (overwrite_samples_agree n beg end_ shift parameters), H].
  intros j Hj [HS Hno]. apply Hno.
  exists (j / n). split; [apply In_Zrange, Hwin, HS |].
  exists (j mod n). split.
  - apply In_Zrange. apply Z.mod_pos_bound. assumption.
  - apply Z.div_mod. lia.
Qed.

(** Agreement of two concrete arrays, index by index. *)
Lemma arrays_agree_off_pointwise (T : Z -> Prop) (a a' : list double) :
  List.length a = List.length a' ->
  (forall k, (k < List.length a)%nat -> nth k a 0%Q = nth k a' 0%Q \/ T (Z.of_nat k)) ->
  Spec.arrays_agree_off T a a'.
Proof.
  intros Hlen Hpt. split; [assumption |].
  intros j Hj HT. unfold array_get.
  replace (j <? 0) with false by lia.
  destruct (Nat.lt_ge_cases (Z.to_nat j) (List.length a)) as [Hin | Hout].
  - destruct (Hpt _ Hin) as [He | HT']; [exact He |].
    rewrite Z2Nat.id in HT' by assumption. contradiction.
  - rewrite !nth_overflow; [reflexivity | | assumption].
    unfold double in *. rewrite <- Hlen. assumption.
Qed.

Lemma fixture_differ_outside :
  Spec.models_differ_only (fun i => i = 0) (fun _ => False)
    Fixtures.ls_model_2 Fixtures.ls_model_2'.
Proof.
  split; [| split; [| repeat split; reflexivity]].
  - apply arrays_agree_off_pointwise; [reflexivity |].
    intros k Hk.
    do 8 (destruct k as [| k];
          [first [left; reflexivity | right; reflexivity] |]).
    simpl in Hk. lia.
  - apply arrays_agree_off_pointwise; [reflexivity |].
    intros k Hk. left. reflexivity.
Qed.

Lemma fixture_differ_inside :
  Spec.models_differ_only (fun i => i = 1) (fun _ => False)
    Fixtures.ls_model_2 Fixtures.ls_model_2''.
Proof.
  split; [| split; [| repeat split; reflexivity]].
  - apply arrays_agree_off_pointwise; [reflexivity |].
    intros k Hk.
    do 8 (destruct k as [| k];
          [first [left; reflexivity | right; reflexivity] |]).
    simpl in Hk. lia.
  - apply arrays_agree_off_pointwise; [reflexivity |].
    intros k Hk. left. reflexivity.
Qed.




End CostLocality.

(** ** The roll and yaw regularizer *)

Section RollYaw.

Import JitterSolveCostFuns.
Local Open Scope Q_scope.

Lemma round_near (x : Q) :
  - (1 # 2) <= x - round x <= 1 # 2.
Proof.
  unfold round. destruct (Qle_bool 0 x).
  - pose proof (Qfloor_le (x + (1 # 2))) as Hlo.
    pose proof (Qlt_floor (x + (1 # 2))) as Hhi.
    rewrite inject_Z_plus in Hhi. change (inject_Z 1) with 1 in Hhi.
    split; lra.
  - pose proof (Qle_ceiling (x - (1 # 2))) as Hhi.
    pose proof (Qceiling_lt (x - (1 # 2))) as Hlo.
    unfold Z.sub in Hlo. rewrite inject_Z_plus in Hlo.
    change (inject_Z (- (1))) with (- (1)) in Hlo.
    split; lra.
Qed.

(** The angle after the fix for the 180 degree ambiguity. *)
Lemma fix_180_bound (a : Q) : - (90) <= fix_180 a <= 90.
Proof.
  unfold fix_180. pose proof (round_near (a / 180)) as [Hlo Hhi].
  assert (Ha : a == 180 * (a / 180)) by (field; discriminate).
  split; lra.
Qed.

Lemma weighted_bound (x w : Q) :
  - (90) <= x <= 90 -> 0 <= w -> - (90) * w <= x * w <= 90 * w.
Proof.
  intros [Hlo Hhi] Hw. split; apply Qmult_le_compat_r; assumption.
Qed.

(** C4. For every input quaternion and non-negative weights, in the
    satellite-frame mode and in the initial-camera mode, the regularizer
    returns [true] and each of its two outputs is an angle after the fix
    [a - 180 * round(a / 180)], which lies in [-90, 90], times its weight:
    it lies in [-90, 90] times the weight. A zero weight has no case of its
    own. *)
Theorem C4_roll_yaw_range :
  forall (api : RotationApi) (f : weightedRollYawError) (parameters : parameter_blocks),
    0 <= m_rollWeight f ->
    0 <= m_yawWeight f ->
    exists a0 a1 : double,
      weightedRollYawError_call api f parameters
      = (true, (fix_180 a0 * m_rollWeight f, fix_180 a1 * m_yawWeight f))
      /\ (- (90) <= fix_180 a0 <= 90)
      /\ (- (90) <= fix_180 a1 <= 90)
      /\ (- (90) * m_rollWeight f <= fix_180 a0 * m_rollWeight f <= 90 * m_rollWeight f)
      /\ (- (90) * m_yawWeight f <= fix_180 a1 * m_yawWeight f <= 90 * m_yawWeight f).
Proof.
  intros api f parameters Hr Hy. unfold weightedRollYawError_call.
  destruct (m_initial_camera_constraint f).
  - destruct (rollPitchYawFromRotationMatrix api _) as [[roll pitch] yaw].
    exists pitch, yaw.
    split; [reflexivity |].
    pose proof (fix_180_bound pitch). pose proof (fix_180_bound yaw).
    repeat split; try tauto; apply weighted_bound; assumption.
  - destruct (rollPitchYawFromRotationMatrix api _) as [[roll pitch] yaw].
    exists roll, yaw.
    split; [reflexivity |].
    pose proof (fix_180_bound roll). pose proof (fix_180_bound yaw).
    repeat split; try tauto; apply weighted_bound; assumption.
Qed.

Lemma C4_roll_yaw_range_witness :
  (let r := snd (weightedRollYawError_call Fixtures.rotation_api
                   (Fixtures.roll_yaw_cost false) [[0; 0; 0; 1]]) in
   (- (90) * 2 <= fst r <= 90 * 2) /\ (- (90) * 0 <= snd r <= 90 * 0))
  /\ (let r := snd (weightedRollYawError_call Fixtures.rotation_api
                      (Fixtures.roll_yaw_cost true) [[0; 0; 0; 1]]) in
      (- (90) * 2 <= fst r <= 90 * 2) /\ (- (90) * 0 <= snd r <= 90 * 0)).
Proof.
  split.
  - destruct (C4_roll_yaw_range Fixtures.rotation_api (Fixtures.roll_yaw_cost false)
                [[0; 0; 0; 1]])
      as (a0 & a1 & Hcall & _ & _ & H0 & H1).
    + vm_compute; discriminate.
    + vm_compute; discriminate.
    + cbv zeta. rewrite Hcall. split; assumption.
  - destruct (C4_roll_yaw_range Fixtures.rotation_api (Fixtures.roll_yaw_cost true)
                [[0; 0; 0; 1]])
      as (a0 & a1 & Hcall & _ & _ & H0 & H1).
    + vm_compute; discriminate.
    + vm_compute; discriminate.
    + cbv zeta. rewrite Hcall. split; assumption.
Defined.

End RollYaw.

(** ** The scale gate of [init_cams] for CSM cameras *)

Section ScaleGate.

Import BundleAdjustCamera2.
Local Open Scope Q_scope.

(** The determinant of a similarity matrix is that of its linear part. *)
Lemma det_similarity (M : Matrix) :
  Spec.is_similarity_matrix M -> det M == det (linear_part M).
Proof.
  intros (a & b & c & d & e & f & g & h & i & j & k & l & ->).
  unfold det, linear_part.
  cbn [List.length det_rec cofactor_sum map remove_nth firstn].
  ring.
Qed.

Context {BAParams CamPtr CameraAdjustment : Type}.
Variable api : InitCamsApi BAParams CamPtr CameraAdjustment.
Hypothesis pow_proper : Proper (Qeq ==> Qeq ==> Qeq) (pow api).

Lemma scale_of_linear_part (M : Matrix) :
  Spec.is_similarity_matrix M ->
  transform_scale api M == pow api (det (linear_part M)) (1 / 3).
Proof.
  intros HM. unfold transform_scale.
  apply pow_proper; [apply det_similarity, HM | reflexivity].
Qed.


End ScaleGate.

Section ScaleGateExamples.

Import BundleAdjustCamera2.
Local Open Scope Q_scope.

Lemma fixture_pow_proper : Proper (Qeq ==> Qeq ==> Qeq) (pow Fixtures.init_api).
Proof.
  intros x x' Hx y y' _. simpl.
  destruct (Qeq_bool x 8) eqn:E; destruct (Qeq_bool x' 8) eqn:E'; try reflexivity.
  - apply Qeq_bool_iff in E. rewrite Hx in E. apply Qeq_bool_iff in E. congruence.
  - apply Qeq_bool_iff in E'. rewrite <- Hx in E'. apply Qeq_bool_iff in E'. congruence.
Qed.

Lemma fixture_similarity_scale2 : Spec.is_similarity_matrix Fixtures.scale2_transform.
Proof.
  unfold Spec.is_similarity_matrix, Fixtures.scale2_transform.
  repeat eexists.
Qed.

Lemma fixture_similarity_identity :
  Spec.is_similarity_matrix Fixtures.identity_transform.
Proof.
  unfold Spec.is_similarity_matrix, Fixtures.identity_transform.
  repeat eexists.
Qed.


End ScaleGateExamples.

(** ** Ground alignment: [check_gcp_dists] and [apply_rigid_transform] *)

Section GroundAlignment.

Import BundleAdjustCamera.
Local Open Scope Q_scope.

(** C6, at a failing input. The network has two ground control points at
    (110000, 0, 0) and one tie point that triangulates to (1, 0, 0), each
    with two measures: the centroids are 109999 m apart, and
    [check_gcp_dists] writes no warning. Its second loop divides each GCP
    position by [gcp_count] and then increments [gcp_count], so its
    [mean_gcp] is 110000/2 + 110000/3, at 91665.67 m of the other mean. *)
Theorem C6_check_gcp_dists_no_warning :
  Spec.triangulated_positions Fixtures.triangulate_in_place Fixtures.no_cameras 0
    Fixtures.gcp_network = [V3 1 0 0]
  /\ Spec.gcp_positions Fixtures.gcp_network = [V3 110000 0 0; V3 110000 0 0]
  /\ Spec.centroids_far_apart
       (Spec.triangulated_positions Fixtures.triangulate_in_place Fixtures.no_cameras
          0 Fixtures.gcp_network)
       (Spec.gcp_positions Fixtures.gcp_network) = true
  /\ check_gcp_dists Fixtures.triangulate_in_place Fixtures.no_cameras
       Fixtures.gcp_network 0 = [].
Proof.
  repeat split; vm_compute; reflexivity.
Qed.

Lemma transform_cameras_pinhole {PinholeModel OtherModel : Type}
    (ap : Matrix3x3 -> Vector3 -> double -> PinholeModel -> PinholeModel)
    (rotation : Matrix3x3) (translation : Vector3) (scale : double)
    (cams : list (CameraModel PinholeModel OtherModel)) :
  forallb Spec.is_pinhole cams = true ->
  transform_cameras ap rotation translation scale cams
  = Ret tt (map (Spec.transformed_camera ap rotation translation scale) cams).
Proof.
  induction cams as [| [p | c] cams IH]; simpl; intros H.
  - reflexivity.
  - rewrite (IH H). reflexivity.
  - discriminate.
Qed.

Lemma transform_cameras_not_pinhole {PinholeModel OtherModel : Type}
    (ap : Matrix3x3 -> Vector3 -> double -> PinholeModel -> PinholeModel)
    (rotation : Matrix3x3) (translation : Vector3) (scale : double)
    (cams : list (CameraModel PinholeModel OtherModel)) :
  forallb Spec.is_pinhole cams = false ->
  exists cams',
    transform_cameras ap rotation translation scale cams
    = Raise (ArgumentErr "A pinhole camera expected.") cams'.
Proof.
  induction cams as [| [p | c] cams IH]; simpl; intros H.
  - discriminate.
  - destruct (IH H) as [cams' ->]. eexists. reflexivity.
  - eexists. reflexivity.
Qed.

(** C8, as amended. When every camera is a pinhole camera,
    [apply_rigid_transform] transforms every camera, sets the position of
    every control point that is not a ground control point to
    s·R·position + t, and leaves every ground control point as it is.
    When some camera is not a pinhole camera it throws the argument error
    of [VW_ASSERT], and no control point has changed. *)
Theorem C8_apply_rigid_transform :
  forall (PinholeModel OtherModel : Type)
         (ap : Matrix3x3 -> Vector3 -> double -> PinholeModel -> PinholeModel)
         (rotation : Matrix3x3) (translation : Vector3) (scale : double)
         (cams : list (CameraModel PinholeModel OtherModel)) (cnet : ControlNetwork),
    (forallb Spec.is_pinhole cams = true ->
     exists cnet',
       apply_rigid_transform ap rotation translation scale cams cnet
       = Ret tt (map (Spec.transformed_camera ap rotation translation scale) cams,
                 cnet')
       /\ List.length cnet' = List.length cnet
       /\ forall i cp,
            nth_error cnet i = Some cp ->
            exists cp',
              nth_error cnet' i = Some cp'
              /\ type cp' = type cp
              /\ measures cp' = measures cp
              /\ (type cp = GroundControlPoint -> position cp' = position cp)
              /\ (type cp <> GroundControlPoint ->
                  position cp'
                  = Vector3_add
                      (Matrix3x3_apply (Matrix3x3_scale scale rotation) (position cp))
                      translation))
    /\ (forallb Spec.is_pinhole cams = false ->
        exists cams',
          apply_rigid_transform ap rotation translation scale cams cnet
          = Raise (ArgumentErr "A pinhole camera expected.") (cams', cnet)).
Proof.
  intros PinholeModel OtherModel ap rotation translation scale cams cnet. split.
  - intros Hpin. unfold apply_rigid_transform.
    rewrite (transform_cameras_pinhole ap rotation translation scale cams Hpin).
    eexists. split; [reflexivity |]. split; [apply length_map |].
    intros i cp Hi. rewrite nth_error_map, Hi. simpl.
    eexists. split; [reflexivity |].
    destruct (type cp) eqn:Ht; simpl; rewrite ?Ht;
      repeat split; try reflexivity; try congruence.
  - intros Hnot. unfold apply_rigid_transform.
    destruct (transform_cameras_not_pinhole ap rotation translation scale cams Hnot)
      as [cams' ->].
    exists cams'. reflexivity.
Qed.

Lemma C8_apply_rigid_transform_witness :
  (exists cnet',
      apply_rigid_transform Fixtures.count_transform Fixtures.identity3 (V3 10 0 0) 2
        [Fixtures.pinhole_camera] Fixtures.small_network
      = Ret tt ([Pinhole 1%nat], cnet'))
  /\ (exists cams',
        apply_rigid_transform Fixtures.count_transform Fixtures.identity3 (V3 10 0 0) 2
          [Fixtures.pinhole_camera; Fixtures.other_camera] Fixtures.small_network
        = Raise (ArgumentErr "A pinhole camera expected.") (cams', Fixtures.small_network)).
Proof.
  split.
  - destruct (proj1 (C8_apply_rigid_transform nat unit Fixtures.count_transform
                       Fixtures.identity3 (V3 10 0 0) 2 [Fixtures.pinhole_camera]
                       Fixtures.small_network) eq_refl)
      as (cnet' & Happly & _).
    exists cnet'. exact Happly.
  - exact (proj2 (C8_apply_rigid_transform nat unit Fixtures.count_transform
                    Fixtures.identity3 (V3 10 0 0) 2
                    [Fixtures.pinhole_camera; Fixtures.other_camera]
                    Fixtures.small_network) eq_refl).
Defined.

(** C8, as stated, fails when a camera is not a pinhole camera: the call
    throws, the tie point of the network keeps its position and the camera
    after the one that is not a pinhole camera is not transformed. *)
Lemma C8_counterexample :
  ~ Spec.rigid_transform_applied Fixtures.count_transform Fixtures.identity3
      (V3 10 0 0) 2 [Fixtures.other_camera; Fixtures.pinhole_camera]
      Fixtures.small_network.
Proof.
  unfold Spec.rigid_transform_applied. vm_compute. discriminate.
Qed.

End GroundAlignment.

(** ** The options of which intrinsics to float *)

Section IntrinsicsToFloat.

Import BundleAdjustCamera2.
Local Open Scope Z_scope.

Ltac step_loop IH :=
  simpl fine_grained_loop;
  repeat match goal with
         | |- context [if ?b then _ else _] => destruct b eqn:?
         | |- context [match apply_option ?o ?i ?m with _ => _ end] =>
             destruct (apply_option o i m) eqn:?
         end;
  try (eexists; reflexivity); try (apply IH; assumption).

(** An integer option that is out of range, anywhere in the options,
    makes the loop throw. *)
Lemma fine_grained_loop_out_of_range (n : Z) (o : string) :
  is_str_non_neg_integer o = true ->
  (atoi o - 1 <? 0) || (atoi o - 1 >=? n) = true ->
  forall options sensor_id seen_ids m,
    In o options ->
    exists e, fine_grained_loop n options sensor_id seen_ids m = Throw e.
Proof.
  intros Hint Hout options.
  induction options as [| h rest IH]; intros sensor_id seen_ids m Hin.
  - destruct Hin.
  - destruct Hin as [-> | Hin].
    + simpl fine_grained_loop. rewrite Hint, Hout. eexists. reflexivity.
    + step_loop IH.
Qed.

(** An integer option whose sensor was seen makes the loop throw. *)
Lemma fine_grained_loop_seen (n : Z) (o : string) :
  is_str_non_neg_integer o = true ->
  forall options sensor_id seen_ids m,
    In o options ->
    In (atoi o - 1) seen_ids ->
    exists e, fine_grained_loop n options sensor_id seen_ids m = Throw e.
Proof.
  intros Hint options.
  induction options as [| h rest IH]; intros sensor_id seen_ids m Hin Hseen.
  - destruct Hin.
  - destruct Hin as [-> | Hin].
    + simpl fine_grained_loop. rewrite Hint.
      destruct ((atoi o - 1 <? 0) || (atoi o - 1 >=? n)); [eexists; reflexivity |].
      replace (existsb (Z.eqb (atoi o - 1)) seen_ids) with true.
      * eexists. reflexivity.
      * symmetry. apply existsb_exists. exists (atoi o - 1).
        split; [assumption | apply Z.eqb_refl].
    + simpl fine_grained_loop.
      destruct (is_str_non_neg_integer h).
      * destruct ((atoi h - 1 <? 0) || (atoi h - 1 >=? n)); [eexists; reflexivity |].
        destruct (existsb (Z.eqb (atoi h - 1)) seen_ids); [eexists; reflexivity |].
        apply IH; [assumption | right; assumption].
      * destruct (apply_option h sensor_id m); [| eexists; reflexivity].
        apply IH; assumption.
Qed.

(** Two integer options for the same sensor make the loop throw. *)
Lemma fine_grained_loop_repeated (n : Z) (o1 o2 : string) (l2 l3 : list string) :
  is_str_non_neg_integer o1 = true ->
  is_str_non_neg_integer o2 = true ->
  atoi o1 = atoi o2 ->
  forall l1 sensor_id seen_ids m,
    exists e,
      fine_grained_loop n (l1 ++ o1 :: l2 ++ o2 :: l3) sensor_id seen_ids m = Throw e.
Proof.
  intros Hint1 Hint2 Heq l1.
  induction l1 as [| h rest IH]; intros sensor_id seen_ids m.
  - simpl app. simpl fine_grained_loop. rewrite Hint1.
    destruct ((atoi o1 - 1 <? 0) || (atoi o1 - 1 >=? n)); [eexists; reflexivity |].
    destruct (existsb (Z.eqb (atoi o1 - 1)) seen_ids); [eexists; reflexivity |].
    apply (fine_grained_loop_seen n o2 Hint2).
    + apply in_or_app. right. left. reflexivity.
    + left. rewrite Heq. reflexivity.
  - simpl app. simpl fine_grained_loop.
    destruct (is_str_non_neg_integer h).
    + destruct ((atoi h - 1 <? 0) || (atoi h - 1 >=? n)); [eexists; reflexivity |].
      destruct (existsb (Z.eqb (atoi h - 1)) seen_ids); [eexists; reflexivity |].
      apply IH.
    + destruct (apply_option h sensor_id m); [| eexists; reflexivity].
      apply IH.
Qed.

Lemma fine_grained_parse_throws_if_loop_does (share : bool) (n : Z)
    (options : list string) :
  options <> [] ->
  (forall sensor_id seen_ids m,
      exists e, fine_grained_loop n options sensor_id seen_ids m = Throw e) ->
  exists e, fine_grained_parse share n options = Throw e.
Proof.
  intros Hne Hloop. unfold fine_grained_parse.
  destruct (negb share); [eexists; reflexivity |].
  destruct (n <=? 0); [eexists; reflexivity |].
  destruct options as [| o0 rest]; [congruence |].
  destruct (negb (is_str_non_neg_integer o0)); [eexists; reflexivity |].
  apply Hloop.
Qed.



End IntrinsicsToFloat.

(** ** The cloud-center estimator *)

Section CloudCenter.

Import StereoTri.
Local Open Scope Z_scope.

Lemma scan_tiles_app (enough : nat -> bool) (tile : Z * Z -> list Vector3)
    (finish : list Vector3 -> Vector3 * nat) (l1 l2 : list (Z * Z)) :
  forall points,
    Spec.scan_tiles enough tile finish (l1 ++ l2) points
    = match Spec.scan_tiles enough tile finish l1 points with
      | inl points' => Spec.scan_tiles enough tile finish l2 points'
      | inr center => inr center
      end.
Proof.
  induction l1 as [| t l1 IH]; intros points; simpl.
  - reflexivity.
  - destruct (enough _); [reflexivity | apply IH].
Qed.

(** A loop whose every round is a search over some tiles is a search over
    the tiles of all rounds. *)
Lemma for_each_scan (enough : nat -> bool) (tile : Z * Z -> list Vector3)
    (finish : list Vector3 -> Vector3 * nat)
    (body : Z -> list Vector3 -> list Vector3 + Vector3 * nat)
    (tiles_of : Z -> list (Z * Z)) :
  (forall i points, body i points = Spec.scan_tiles enough tile finish (tiles_of i) points) ->
  forall idx points,
    for_each body idx points
    = Spec.scan_tiles enough tile finish (flat_map tiles_of idx) points.
Proof.
  intros Hbody idx. induction idx as [| i idx IH]; intros points; simpl.
  - reflexivity.
  - rewrite scan_tiles_app, Hbody.
    destruct (Spec.scan_tiles enough tile finish (tiles_of i) points);
      [apply IH | reflexivity].
Qed.

Variable RAND_MAX : Z.
Variable rand_seq : nat -> Z.
Variable trans_crop_win : BBox2i.
Variable tile_size : Z * Z.
Variable point_cloud : ImageViewRef.
Variable k : nat.

Local Abbreviation tile :=
  (fun t : Z * Z => tile_points trans_crop_win tile_size point_cloud (fst t) (snd t)).
Local Abbreviation finish :=
  (fun points : list Vector3 => find_approx_points_median RAND_MAX rand_seq points k).
Local Abbreviation enough := (fun n : nat => (100 <? n)%nat).

Lemma visit_tile_scan (numx numy r x y : Z) (points : list Vector3) :
  visit_tile RAND_MAX rand_seq trans_crop_win tile_size point_cloud numx numy r x y k
    points
  = Spec.scan_tiles enough tile finish
      (if Spec.tile_visited numx numy r x y then [(x, y)] else []) points.
Proof.
  unfold visit_tile, Spec.tile_visited.
  destruct (negb (x =? Z.quot numx 2 - r) && negb (x =? Z.quot numx 2 + r)
            && negb (y =? Z.quot numy 2 - r) && negb (y =? Z.quot numy 2 + r));
    [reflexivity |].
  destruct ((x <? 0) || (y <? 0) || (x >=? numx) || (y >=? numy)); reflexivity.
Qed.

(** The three loops of [find_point_cloud_center] are a search over the
    tiles of the spiral. *)
Lemma find_point_cloud_center_scan :
  find_point_cloud_center RAND_MAX rand_seq trans_crop_win tile_size point_cloud k
  = match
      Spec.scan_tiles enough tile finish
        (Spec.spiral_tiles (ceil_div (cols point_cloud) (fst tile_size))
                           (ceil_div (rows point_cloud) (snd tile_size))) []
    with
    | inr center => center
    | inl points => finish points
    end.
Proof.
  unfold find_point_cloud_center. cbv zeta.
  set (numx := ceil_div (cols point_cloud) (fst tile_size)).
  set (numy := ceil_div (rows point_cloud) (snd tile_size)).
  unfold Spec.spiral_tiles.
  rewrite (for_each_scan enough tile finish _ (Spec.ring_tiles numx numy)).
  - reflexivity.
  - intros r points. unfold Spec.ring_tiles.
    apply (for_each_scan enough tile finish _
             (fun x =>
                flat_map
                  (fun y => if Spec.tile_visited numx numy r x y then [(x, y)] else [])
                  (Zrange (Z.quot numy 2 - r) (Z.quot numy 2 + r + 1)))).
    intros x points'.
    apply (for_each_scan enough tile finish _
             (fun y => if Spec.tile_visited numx numy r x y then [(x, y)] else [])).
    intros y points''. apply visit_tile_scan.
Qed.

(** A search that finishes early: the tiles visited, with enough points
    after the last one and not after any tile before it. *)
Lemma scan_tiles_inr (enough' : nat -> bool) (tile' : Z * Z -> list Vector3)
    (finish' : list Vector3 -> Vector3 * nat) (tiles : list (Z * Z)) :
  forall points center,
    Spec.scan_tiles enough' tile' finish' tiles points = inr center ->
    exists visited rest,
      tiles = (visited ++ rest)%list
      /\ center = finish' (points ++ flat_map tile' visited)%list
      /\ enough' (List.length (points ++ flat_map tile' visited)%list) = true
      /\ forall v' t' r',
           visited = (v' ++ t' :: r')%list -> v' <> [] ->
           enough' (List.length (points ++ flat_map tile' v')%list) = false.
Proof.
  induction tiles as [| t tiles IH]; intros points center H; simpl in H.
  - discriminate.
  - destruct (enough' (List.length (points ++ tile' t)%list)) eqn:He.
    + injection H as <-. exists [t], tiles. simpl. rewrite app_nil_r.
      repeat split; try assumption.
      intros v' t' r' Hv Hne. destruct v' as [| a v']; [congruence |].
      destruct v'; discriminate.
    + destruct (IH _ _ H) as (visited & rest & -> & -> & Hen & Hpre).
      exists (t :: visited), rest. simpl. rewrite <- !app_assoc in *.
      repeat split; try assumption.
      intros v' t' r' Hv Hne. destruct v' as [| a v'']; [congruence |].
      simpl in Hv. injection Hv as <- ->.
      destruct v'' as [| b v''].
      * simpl. rewrite app_nil_r. exact He.
      * simpl flat_map at 1. rewrite app_assoc.
        apply (Hpre (b :: v'') t' r' eq_refl). discriminate.
Qed.

(** A search that comes to the end of the tiles: all the tiles were visited
    and after none of them were there enough points. *)
Lemma scan_tiles_inl (enough' : nat -> bool) (tile' : Z * Z -> list Vector3)
    (finish' : list Vector3 -> Vector3 * nat) (tiles : list (Z * Z)) :
  forall points points',
    Spec.scan_tiles enough' tile' finish' tiles points = inl points' ->
    points' = (points ++ flat_map tile' tiles)%list
    /\ forall v' t' r',
         tiles = (v' ++ t' :: r')%list ->
         enough' (List.length (points ++ flat_map tile' (v' ++ [t']))%list) = false.
Proof.
  induction tiles as [| t tiles IH]; intros points points' H; simpl in H.
  - injection H as <-. simpl. rewrite app_nil_r. split; [reflexivity |].
    intros v' t' r' Hv. destruct v'; discriminate.
  - destruct (enough' (List.length (points ++ tile' t)%list)) eqn:He; [discriminate |].
    destruct (IH _ _ H) as (-> & Hpre).
    simpl. rewrite <- app_assoc. split; [reflexivity |].
    intros v' t' r' Hv. destruct v' as [| a v''].
    + simpl in Hv. injection Hv as <- _. simpl. rewrite app_nil_r. exact He.
    + simpl in Hv. injection Hv as <- ->. simpl. rewrite app_assoc.
      apply (Hpre v'' t' r' eq_refl).
Qed.

(** A search over tiles without a valid point comes to the end with no
    point. *)
Lemma scan_tiles_no_points (enough' : nat -> bool) (tile' : Z * Z -> list Vector3)
    (finish' : list Vector3 -> Vector3 * nat) (tiles : list (Z * Z)) :
  enough' O = false ->
  flat_map tile' tiles = [] ->
  Spec.scan_tiles enough' tile' finish' tiles [] = inl [].
Proof.
  intros H0. induction tiles as [| t tiles IH]; simpl; intros Hnil.
  - reflexivity.
  - apply app_eq_nil in Hnil. destruct Hnil as [Ht Hrest].
    rewrite Ht. simpl. rewrite H0. apply IH, Hrest.
Qed.

(** [sort] sorts. *)
Lemma insert_sorted_perm (x : double) (l : list double) :
  Permutation (insert_sorted x l) (x :: l).
Proof.
  induction l as [| y l IH]; simpl.
  - apply Permutation_refl.
  - destruct (Qle_bool x y).
    + apply Permutation_refl.
    + apply perm_trans with (y :: x :: l); [apply perm_skip, IH | apply perm_swap].
Qed.

Lemma sort_perm (l : list double) : Permutation (sort l) l.
Proof.
  induction l as [| x l IH]; simpl.
  - apply perm_nil.
  - apply perm_trans with (x :: sort l); [apply insert_sorted_perm | apply perm_skip, IH].
Qed.

Lemma insert_sorted_sorted (x : double) (l : list double) :
  Sorted Qle l -> Sorted Qle (insert_sorted x l).
Proof.
  induction l as [| y l IH]; simpl; intros Hs.
  - repeat constructor.
  - destruct (Qle_bool x y) eqn:Hxy.
    + constructor; [assumption |]. constructor. apply Qle_bool_iff, Hxy.
    + inversion Hs as [| ? ? Hs' Hhd]; subst.
      constructor; [apply IH, Hs' |].
      assert (Hyx : (y <= x)%Q).
      { destruct (Qlt_le_dec y x) as [Hlt | Hle]; [apply Qlt_le_weak, Hlt |].
        apply Qle_bool_iff in Hle. congruence. }
      destruct l as [| z l]; simpl.
      * constructor. exact Hyx.
      * destruct (Qle_bool x z); constructor; [exact Hyx |].
        inversion Hhd; assumption.
Qed.

Lemma sort_sorted (l : list double) : Sorted Qle (sort l).
Proof.
  induction l as [| x l IH]; simpl.
  - constructor.
  - apply insert_sorted_sorted, IH.
Qed.

Lemma approx_median_coord_perturbed (points : list Vector3) (i : nat) (r : Z) :
  approx_median_coord RAND_MAX points i r
  = Spec.perturbed RAND_MAX (Spec.upper_median (map (coord i) points)) r.
Proof.
  unfold approx_median_coord, Spec.perturbed, Spec.upper_median.
  rewrite length_map. reflexivity.
Qed.

(** C7, as amended. The spiral search visits the tiles of the spiral in
    order and tests the number of valid points after each tile: it stops
    after the first tile with which more than 100 points are accumulated,
    or at the end of the spiral. It returns, for each coordinate, the
    element of index n/2 of the sorted values of the accumulated points,
    [m], as [m + m*1e-10*rand()/RAND_MAX]. *)
Theorem C7_cloud_center :
  let numx := ceil_div (cols point_cloud) (fst tile_size) in
  let numy := ceil_div (rows point_cloud) (snd tile_size) in
  (exists visited rest,
      Spec.spiral_tiles numx numy = (visited ++ rest)%list
      /\ find_point_cloud_center RAND_MAX rand_seq trans_crop_win tile_size
           point_cloud k
         = find_approx_points_median RAND_MAX rand_seq
             (Spec.points_of trans_crop_win tile_size point_cloud visited) k
      /\ (rest = []
          \/ (100 < List.length
                      (Spec.points_of trans_crop_win tile_size point_cloud visited))%nat)
      /\ forall v' t' r',
           visited = (v' ++ t' :: r')%list ->
           (List.length (Spec.points_of trans_crop_win tile_size point_cloud v')
            <= 100)%nat)
  /\ (forall points,
        points <> [] ->
        find_approx_points_median RAND_MAX rand_seq points k
        = (V3 (Spec.perturbed RAND_MAX (Spec.upper_median (map v3x points)) (rand_seq k))
              (Spec.perturbed RAND_MAX (Spec.upper_median (map v3y points))
                 (rand_seq (k + 1)))
              (Spec.perturbed RAND_MAX (Spec.upper_median (map v3z points))
                 (rand_seq (k + 2))),
           (k + 3)%nat))
  /\ (forall V, Sorted Qle (sort V) /\ Permutation (sort V) V).
Proof.
  intros numx numy. split; [| split].
  - rewrite find_point_cloud_center_scan. fold numx numy.
    destruct (Spec.scan_tiles enough tile finish (Spec.spiral_tiles numx numy) [])
      as [points | center] eqn:Hscan.
    + apply scan_tiles_inl in Hscan. destruct Hscan as [-> Hpre].
      exists (Spec.spiral_tiles numx numy), []. rewrite app_nil_r.
      split; [reflexivity |]. split; [reflexivity |]. split; [left; reflexivity |].
      intros v' t' r' Hv.
      destruct v' as [| a v''] using rev_ind; [simpl; lia |].
      rewrite <- app_assoc in Hv. simpl in Hv.
      specialize (Hpre _ _ _ Hv). cbv beta in Hpre.
      apply Nat.ltb_ge in Hpre. exact Hpre.
    + apply scan_tiles_inr in Hscan.
      destruct Hscan as (visited & rest & Htiles & -> & Hen & Hpre).
      exists visited, rest.
      split; [exact Htiles |]. split; [reflexivity |].
      cbv beta in Hen. split; [right; apply Nat.ltb_lt, Hen |].
      intros v' t' r' Hv.
      destruct v' as [| a v'']; [simpl; lia |].
      assert (Hne : a :: v'' <> []) by discriminate.
      specialize (Hpre _ _ _ Hv Hne). cbv beta in Hpre.
      apply Nat.ltb_ge in Hpre. exact Hpre.
  - intros points Hne. destruct points as [| p points]; [congruence |].
    unfold find_approx_points_median.
    rewrite !approx_median_coord_perturbed. reflexivity.
  - intros V. split; [apply sort_sorted | apply sort_perm].
Qed.

(** C10. When the spiral search accumulates no valid point,
    [find_approx_points_median] is called on the empty list and returns the
    zero vector, without a call of [rand()], and so does
    [find_point_cloud_center]. *)
Theorem C10_no_valid_points :
  Spec.points_of trans_crop_win tile_size point_cloud
    (Spec.spiral_tiles (ceil_div (cols point_cloud) (fst tile_size))
                       (ceil_div (rows point_cloud) (snd tile_size))) = [] ->
  find_approx_points_median RAND_MAX rand_seq [] k = (V3 0%Q 0%Q 0%Q, k)
  /\ find_point_cloud_center RAND_MAX rand_seq trans_crop_win tile_size point_cloud k
     = (V3 0%Q 0%Q 0%Q, k).
Proof.
  intros Hnone. split; [reflexivity |].
  rewrite find_point_cloud_center_scan.
  rewrite scan_tiles_no_points; [reflexivity | reflexivity | exact Hnone].
Qed.

End CloudCenter.

Section CloudCenterExamples.

Import StereoTri.

Lemma C7_cloud_center_witness :
  find_approx_points_median Fixtures.glibc_RAND_MAX Fixtures.rand_12345 [V3 1 2 3] 0
  = (V3 (Spec.perturbed Fixtures.glibc_RAND_MAX (Spec.upper_median [1%Q]) 12345)
        (Spec.perturbed Fixtures.glibc_RAND_MAX (Spec.upper_median [2%Q]) 12345)
        (Spec.perturbed Fixtures.glibc_RAND_MAX (Spec.upper_median [3%Q]) 12345),
     3%nat).
Proof.
  refine (proj1 (proj2 (C7_cloud_center Fixtures.glibc_RAND_MAX Fixtures.rand_12345
                          Fixtures.two_tile_window (10, 10)%Z Fixtures.two_tile_cloud
                          0%nat))
            [V3 1 2 3] _).
  discriminate.
Defined.

(** C7, as stated, fails. With exactly 100 valid points after the first
    tile the search goes on to the next tile: the center is that of the 200
    points of both tiles, not that of the first 100. And the center can be a
    real point of the cloud: of the points (1/2, 1/2, 1/2), (1, 1, 1) and
    (1, 1, 1) scaled by 1 + 1e-10 * 12345 / RAND_MAX, the center is the
    third, when [rand()] gives 12345. *)
Lemma C7_counterexample :
  find_point_cloud_center Fixtures.glibc_RAND_MAX Fixtures.rand_12345
    Fixtures.two_tile_window (10, 10)%Z Fixtures.two_tile_cloud 0
  <> Spec.center_stopping_at_100 Fixtures.glibc_RAND_MAX Fixtures.rand_12345
       Fixtures.two_tile_window (10, 10)%Z Fixtures.two_tile_cloud 0
  /\ Spec.is_point_of Fixtures.three_point_cloud
       (fst (find_point_cloud_center Fixtures.glibc_RAND_MAX Fixtures.rand_12345
               Fixtures.three_point_window (3, 1)%Z Fixtures.three_point_cloud 0))
       2 0 = true.
Proof.
  split.
  - vm_compute. discriminate.
  - vm_compute. reflexivity.
Qed.

Lemma C10_no_valid_points_witness :
  find_point_cloud_center Fixtures.glibc_RAND_MAX Fixtures.rand_12345
    (BBox 0 0 4 4) (2, 2)%Z Fixtures.empty_cloud 7
  = (V3 0 0 0, 7%nat).
Proof.
  refine (proj2 (C10_no_valid_points Fixtures.glibc_RAND_MAX Fixtures.rand_12345
                   (BBox 0 0 4 4) (2, 2)%Z Fixtures.empty_cloud 7%nat _)).
  vm_compute. reflexivity.
Defined.

End CloudCenterExamples.

(* ===================================================================== *)
(** * Part III: further properties of the code                            *)
(* ===================================================================== *)

(** Goals on the comparisons of [Z], by cases. *)
Ltac blia :=
  rewrite ?Nat2Z.inj_succ; unfold Z.succ; change (Z.of_nat 0) with 0%Z;
  repeat match goal with
         | |- context [Z.leb ?a ?b] => destruct (Z.leb_spec a b)
         | |- context [Z.ltb ?a ?b] => destruct (Z.ltb_spec a b)
         end;
  cbn [andb orb negb]; first [reflexivity | exfalso; lia | lia].

(** ** More on the index windows *)

Section IndexBoundsMore.

Import JitterSolveCostFuns.
Local Open Scope Z_scope.


(** A loop of writes [a[idx c] = val c] over the coordinates
    [c0, c0 + m), with [idx c = o + c], read back. *)
Lemma fold_array_set_window (idx : Z -> Z) (val : Z -> double) (o : Z)
    (Hidx : forall c, idx c = o + c) (m : nat) :
  forall (c0 : Z) (arr : list double) (j : Z),
    0 <= j < Z.of_nat (List.length arr) ->
    array_get 0%Q
      (fold_left (fun a coord => array_set a (idx coord) (val coord)) (Zseq c0 m) arr) j
    = if (o + c0 <=? j) && (j <? o + c0 + Z.of_nat m)
      then val (j - o)
      else array_get 0%Q arr j.
Proof.
  induction m as [| m IH]; intros c0 arr j Hj.
  - simpl fold_left. blia.
  - simpl fold_left. rewrite IH by (rewrite length_array_set; exact Hj).
    rewrite Hidx.
    destruct (Z.eq_dec j (o + c0)) as [-> | Hne].
    + rewrite array_get_set_same.
      replace (o + c0 - o) with c0 by lia. unfold double in *. blia.
    + rewrite array_get_set_other by congruence. blia.
Qed.

Lemma length_fold_array_set {X : Type} (idx : X -> Z) (val : X -> double)
    (xs : list X) :
  forall arr,
    List.length (fold_left (fun a x => array_set a (idx x) (val x)) xs arr)
    = List.length arr.
Proof.
  induction xs as [| x xs IH]; intros arr; simpl.
  - reflexivity.
  - rewrite IH. apply length_array_set.
Qed.

Lemma length_overwrite_samples (n beg end_ shift : Z) (parameters : parameter_blocks)
    (arr : list double) :
  List.length (overwrite_samples n beg end_ shift parameters arr) = List.length arr.
Proof.
  unfold overwrite_samples. generalize (Zrange beg end_). intros l. revert arr.
  induction l as [| i l IH]; intros arr; simpl.
  - reflexivity.
  - rewrite IH. apply length_fold_array_set.
Qed.

(** The outer update loop, on the samples [i0, i0 + m). *)
Lemma overwrite_samples_from (n beg shift : Z) (parameters : parameter_blocks)
    (m : nat) :
  0 < n ->
  forall (i0 : Z) (arr : list double) (j : Z),
    0 <= j < Z.of_nat (List.length arr) ->
    array_get 0%Q
      (fold_left
         (fun arr i =>
            fold_left
              (fun arr coord =>
                 array_set arr (n * i + coord) (param parameters (i + shift - beg) coord))
              (Zrange 0 n) arr)
         (Zseq i0 m) arr) j
    = if (n * i0 <=? j) && (j <? n * (i0 + Z.of_nat m))
      then param parameters (j / n + shift - beg) (j mod n)
      else array_get 0%Q arr j.
Proof.
  intros Hn. induction m as [| m IH]; intros i0 arr j Hj.
  - simpl fold_left.
    replace ((n * i0 <=? j) && (j <? n * (i0 + Z.of_nat 0))) with false by blia.
    reflexivity.
  - simpl fold_left. rewrite IH by (rewrite length_fold_array_set; exact Hj).
    unfold Zrange.
    rewrite (fold_array_set_window (fun coord => n * i0 + coord)
               (fun coord => param parameters (i0 + shift - beg) coord) (n * i0))
      by (reflexivity || exact Hj).
    replace (Z.of_nat (Z.to_nat (n - 0))) with n by lia.
    destruct ((n * (i0 + 1) <=? j) && (j <? n * (i0 + 1 + Z.of_nat m))) eqn:Hlater.
    + replace ((n * i0 <=? j) && (j <? n * (i0 + Z.of_nat (S m)))) with true by blia.
      reflexivity.
    + destruct ((n * i0 + 0 <=? j) && (j <? n * i0 + 0 + n)) eqn:Hhere.
      * replace ((n * i0 <=? j) && (j <? n * (i0 + Z.of_nat (S m)))) with true by blia.
        assert (Hdiv : j / n = i0)
          by (symmetry; apply (Z.div_unique j n i0 (j - n * i0)); lia).
        assert (Hmod : j mod n = j - n * i0)
          by (symmetry; apply (Z.mod_unique j n i0 (j - n * i0)); lia).
        rewrite Hdiv, Hmod. reflexivity.
      * replace ((n * i0 <=? j) && (j <? n * (i0 + Z.of_nat (S m)))) with false by blia.
        reflexivity.
Qed.

(** [overwrite_samples] read back: inside the window the array holds the
    parameter blocks, elsewhere it is unchanged. *)
Lemma overwrite_samples_read_back (n beg end_ shift : Z)
    (parameters : parameter_blocks) (arr : list double) (j : Z) :
  0 < n ->
  0 <= j < Z.of_nat (List.length arr) ->
  array_get 0%Q (overwrite_samples n beg end_ shift parameters arr) j
  = if (n * beg <=? j) && (j <? n * end_)
    then param parameters (j / n + shift - beg) (j mod n)
    else array_get 0%Q arr j.
Proof.
  intros Hn Hj. unfold overwrite_samples.
  change (Zrange beg end_) with (Zseq beg (Z.to_nat (end_ - beg))).
  rewrite (overwrite_samples_from n beg shift parameters _ Hn) by exact Hj.
  destruct (Z_lt_le_dec beg end_) as [Hlt | Hge].
  - replace (beg + Z.of_nat (Z.to_nat (end_ - beg))) with end_ by lia.
    reflexivity.
  - replace (Z.to_nat (end_ - beg)) with O by lia.
    assert (Hle : n * end_ <= n * beg) by nia.
    blia.
Qed.

(** The local copy of the linescan cost after the update loops. Inside
    the windows it holds the parameter blocks, quaternion sample [i] from
    block [i - begQuat] and position sample [i] from block
    [(endQuat - begQuat) + i - begPos]; elsewhere, and in its sizes and time
    grids, it is the model. *)
Theorem ls_updated_copy_read_back :
  forall (f : LsPixelReprojErr) (parameters : parameter_blocks),
    let cam := ls_updated_copy f parameters in
    let model := ls_model f in
    (forall j, 0 <= j < Z.of_nat (List.length (m_quaternions model)) ->
               array_get 0%Q (m_quaternions cam) j
               = if (4 * m_begQuatIndex f <=? j) && (j <? 4 * m_endQuatIndex f)
                 then param parameters (j / 4 - m_begQuatIndex f) (j mod 4)
                 else array_get 0%Q (m_quaternions model) j)
    /\ (forall j, 0 <= j < Z.of_nat (List.length (m_positions model)) ->
                  array_get 0%Q (m_positions cam) j
                  = if (3 * m_begPosIndex f <=? j) && (j <? 3 * m_endPosIndex f)
                    then param parameters
                           (m_endQuatIndex f - m_begQuatIndex f + (j / 3 - m_begPosIndex f))
                           (j mod 3)
                    else array_get 0%Q (m_positions model) j)
    /\ List.length (m_quaternions cam) = List.length (m_quaternions model)
    /\ List.length (m_positions cam) = List.length (m_positions model)
    /\ (m_t0Quat cam, m_dtQuat cam, m_t0Ephem cam, m_dtEphem cam)
       = (m_t0Quat model, m_dtQuat model, m_t0Ephem model, m_dtEphem model).
Proof.
  intros f parameters cam model. subst cam model. unfold ls_updated_copy. cbv zeta.
  cbn [m_quaternions m_positions m_t0Quat m_dtQuat m_t0Ephem m_dtEphem].
  split; [| split; [| split; [| split]]].
  - intros j Hj. change NUM_QUAT_PARAMS with 4.
    rewrite overwrite_samples_read_back by (lia || exact Hj).
    replace (j / 4 + 0 - m_begQuatIndex f) with (j / 4 - m_begQuatIndex f) by lia.
    reflexivity.
  - intros j Hj. change NUM_XYZ_PARAMS with 3.
    rewrite overwrite_samples_read_back by (lia || exact Hj).
    replace (j / 3 + (0 + (m_endQuatIndex f - m_begQuatIndex f)) - m_begPosIndex f)
      with (m_endQuatIndex f - m_begQuatIndex f + (j / 3 - m_begPosIndex f)) by lia.
    reflexivity.
  - apply length_overwrite_samples.
  - apply length_overwrite_samples.
  - reflexivity.
Qed.

End IndexBoundsMore.

(** ** The cost functions and their residual blocks *)

Section CostFunctions.

Import JitterSolveCostFuns.
Local Open Scope Z_scope.

Lemma map_const_Zrange {A B : Type} (f : Z -> A) (g : A -> B) (b : B) (lo hi : Z) :
  (forall i, g (f i) = b) ->
  map g (map f (Zrange lo hi)) = map (fun _ => b) (Zrange lo hi).
Proof.
  intros Hg. rewrite map_map. apply map_ext. intros i. apply Hg.
Qed.

Lemma length_Zseq (n : nat) : forall lo, List.length (Zseq lo n) = n.
Proof.
  induction n as [| n IH]; intros lo; simpl; [reflexivity | now rewrite IH].
Qed.

Lemma length_Zrange (lo hi : Z) : lo <= hi -> Z.of_nat (List.length (Zrange lo hi)) = hi - lo.
Proof.
  intros H. unfold Zrange. rewrite length_Zseq. lia.
Qed.

Lemma nth_Zseq (n : nat) : forall lo k d, (k < n)%nat -> nth k (Zseq lo n) d = lo + Z.of_nat k.
Proof.
  induction n as [| n IH]; intros lo k d Hk; [lia |].
  destruct k as [| k]; simpl.
  - lia.
  - rewrite IH by lia. lia.
Qed.

Lemma calcIndexBounds_in_range (time1 time2 t0 dt : double) (numVals b e : Z) :
  calcIndexBounds time1 time2 t0 dt numVals = Ok (b, e) ->
  0 <= b < e /\ e <= numVals.
Proof.
  rewrite calcIndexBounds_trunc. cbv zeta.
  match goal with |- context [?x >=? ?y] => destruct (x >=? y) eqn:Hbe end;
    [discriminate |].
  intros H. injection H as <- <-. lia.
Qed.



Lemma rig_residual_block_shape (api : CsmApi) (rig : RigApi) (opt : BaBaseOptions)
    (info : RigCamInfo) (frame_pix : Vector2) (weight : double)
    (ref_ls_model : UsgsAstroLsSensorModel)
    (curr_frame_model : UsgsAstroFrameSensorModel) (blk : RigResidualBlock) :
  addRigLsFrameReprojectionErr api rig opt info frame_pix weight ref_ls_model
    curr_frame_model = Ok blk ->
  exists bq eq_ bp ep,
    (0 <= bq < eq_ /\ 4 * eq_ <= Z.of_nat (List.length (m_quaternions ref_ls_model)))
    /\ (0 <= bp < ep /\ 3 * ep <= Z.of_nat (List.length (m_positions ref_ls_model)))
    /\ blk = {| rrb_cost :=
                  RigLsFramePixelReprojErr_Create rig frame_pix weight info
                    ref_ls_model curr_frame_model bq eq_ bp ep;
                rrb_loss_scale := robust_threshold opt;
                rrb_vars :=
                  map RigQuatSample (Zrange bq eq_)
                  ++ map RigPosSample (Zrange bp ep)
                  ++ [RigTriPoint] ++ [RigRefToCurr] |}.
Proof.
  unfold addRigLsFrameReprojectionErr. cbv zeta.
  destruct (negb (Qeq_bool _ _)); [discriminate |].
  destruct (calcIndexBounds _ _ (m_t0Quat ref_ls_model) _ _) as [[bq eq_] | e1] eqn:Hq;
    [| discriminate].
  destruct (calcIndexBounds _ _ (m_t0Ephem ref_ls_model) _ _) as [[bp ep] | e2] eqn:Hp;
    [| discriminate].
  intros H. injection H as <-.
  apply calcIndexBounds_in_range in Hq, Hp.
  change NUM_QUAT_PARAMS with 4 in Hq. change NUM_XYZ_PARAMS with 3 in Hp.
  pose proof (Z.quot_div_nonneg (Z.of_nat (List.length (m_quaternions ref_ls_model))) 4
                ltac:(lia) ltac:(lia)) as Hq4.
  pose proof (Z.quot_div_nonneg (Z.of_nat (List.length (m_positions ref_ls_model))) 3
                ltac:(lia) ltac:(lia)) as Hp3.
  pose proof (Z.mul_div_le (Z.of_nat (List.length (m_quaternions ref_ls_model))) 4
                ltac:(lia)) as Hq4'.
  pose proof (Z.mul_div_le (Z.of_nat (List.length (m_positions ref_ls_model))) 3
                ltac:(lia)) as Hp3'.
  exists bq, eq_, bp, ep. split; [lia |]. split; [lia |]. reflexivity.
Qed.

(** [addRigLsFrameReprojectionErr]. It throws when the first and the last
    pose time of the frame image differ. When it adds a residual block, the
    two pose times are equal, the cost has two residuals, its index windows
    are non-empty and inside the arrays of the reference linescan model, and
    the variables are, in this order, the quaternion samples of the window,
    the position samples of the window, the triangulated point and the
    transform from the reference sensor to the current one, one for each
    declared parameter block and of that block's size. *)
Theorem rig_residual_block_wiring :
  forall (api : CsmApi) (rig : RigApi) (opt : BaBaseOptions) (info : RigCamInfo)
         (frame_pix : Vector2) (weight : double)
         (ref_ls_model : UsgsAstroLsSensorModel)
         (curr_frame_model : UsgsAstroFrameSensorModel),
    let added := addRigLsFrameReprojectionErr api rig opt info frame_pix weight
                   ref_ls_model curr_frame_model in
    (~ (beg_pose_time info == end_pose_time info)%Q ->
     added = Throw (ArgumentErr "For a frame sensor beg and end pose time must be same."))
    /\ (forall blk, added = Ok blk ->
          let f := cf_functor (rrb_cost blk) in
          (beg_pose_time info == end_pose_time info)%Q
          /\ cf_num_residuals (rrb_cost blk) = 2
          /\ cf_parameter_blocks (rrb_cost blk)
             = map (Spec.rig_block_size rig) (rrb_vars blk)
          /\ (0 <= rig_begQuatIndex f < rig_endQuatIndex f
              /\ 4 * rig_endQuatIndex f
                 <= Z.of_nat (List.length (m_quaternions ref_ls_model)))
          /\ (0 <= rig_begPosIndex f < rig_endPosIndex f
              /\ 3 * rig_endPosIndex f
                 <= Z.of_nat (List.length (m_positions ref_ls_model)))
          /\ rrb_vars blk
             = map RigQuatSample (Zrange (rig_begQuatIndex f) (rig_endQuatIndex f))
               ++ map RigPosSample (Zrange (rig_begPosIndex f) (rig_endPosIndex f))
               ++ [RigTriPoint; RigRefToCurr]).
Proof.
  intros api rig opt info frame_pix weight ref_ls_model curr_frame_model added.
  split.
  - intros Hne. subst added. unfold addRigLsFrameReprojectionErr. cbv zeta.
    destruct (Qeq_bool (beg_pose_time info) (end_pose_time info)) eqn:Heq.
    + apply Qeq_bool_iff in Heq. contradiction.
    + reflexivity.
  - intros blk Hok. subst added.
    assert (Htimes : (beg_pose_time info == end_pose_time info)%Q).
    { revert Hok. unfold addRigLsFrameReprojectionErr. cbv zeta.
      destruct (Qeq_bool (beg_pose_time info) (end_pose_time info)) eqn:Heq.
      - intros _. apply Qeq_bool_iff. exact Heq.
      - discriminate. }
    apply rig_residual_block_shape in Hok.
    destruct Hok as (bq & eq_ & bp & ep & Hq & Hp & ->).
    cbn [rrb_cost rrb_vars]. unfold RigLsFramePixelReprojErr_Create.
    cbn [cf_functor cf_num_residuals cf_parameter_blocks rig_begQuatIndex
           rig_endQuatIndex rig_begPosIndex rig_endPosIndex].
    split; [exact Htimes |]. split; [reflexivity |].
    split.
    { rewrite !map_app.
      rewrite (map_const_Zrange RigQuatSample (Spec.rig_block_size rig) NUM_QUAT_PARAMS)
        by reflexivity.
      rewrite (map_const_Zrange RigPosSample (Spec.rig_block_size rig) NUM_XYZ_PARAMS)
        by reflexivity.
      reflexivity. }
    split; [exact Hq |]. split; [exact Hp |]. reflexivity.
Qed.

Lemma rig_residual_block_wiring_witness :
  exists blk,
    addRigLsFrameReprojectionErr Fixtures.constant_api Fixtures.fixed_rig_api
      Fixtures.jitter_options (rig_cam_info Fixtures.rig_cost_w2) (10, 20)%Q 2%Q
      Fixtures.ls_model_2 (FrameModel [0; 0; 0; 0; 0; 0; 1]%Q) = Ok blk
    /\ cf_parameter_blocks (rrb_cost blk)
       = map (Spec.rig_block_size Fixtures.fixed_rig_api) (rrb_vars blk)
    /\ rrb_vars blk
       = [RigQuatSample 0; RigQuatSample 1; RigPosSample 0; RigTriPoint; RigRefToCurr].
Proof.
  eexists. split; [vm_compute; reflexivity |].
  split; [| vm_compute; reflexivity].
  apply (rig_residual_block_wiring Fixtures.constant_api Fixtures.fixed_rig_api
           Fixtures.jitter_options (rig_cam_info Fixtures.rig_cost_w2) (10, 20)%Q 2%Q
           Fixtures.ls_model_2 (FrameModel [0; 0; 0; 0; 0; 0; 1]%Q)).
  vm_compute. reflexivity.
Defined.

Lemma fold_setParameterValue {X : Type} (idx : X -> Z) (val : X -> double)
    (xs : list X) :
  forall cam,
    m_currentParameterValue
      (fold_left (fun cam c => setParameterValue cam (idx c) (val c)) xs cam)
    = fold_left (fun a c => array_set a (idx c) (val c)) xs (m_currentParameterValue cam).
Proof.
  induction xs as [| x xs IH]; intros cam; simpl; [reflexivity | apply IH].
Qed.

Lemma array_get_ext (l1 l2 : list double) :
  List.length l1 = List.length l2 ->
  (forall j, 0 <= j < Z.of_nat (List.length l1) ->
             array_get 0%Q l1 j = array_get 0%Q l2 j) ->
  l1 = l2.
Proof.
  intros Hlen Hget. apply (nth_ext l1 l2 0%Q 0%Q Hlen).
  intros n Hn. specialize (Hget (Z.of_nat n) ltac:(lia)).
  unfold array_get in Hget.
  replace (Z.of_nat n <? 0) with false in Hget by lia.
  rewrite Nat2Z.id in Hget. exact Hget.
Qed.

(** The local copy of the frame cost after the two update loops:
    parameters 0 to 2 are block 0 (the position), parameters 3 to 6 are
    block 1 (the quaternion), and the other parameters and the number of
    parameters are those of the model. *)
Theorem frame_updated_copy_read_back :
  forall (f : FramePixelReprojErr) (parameters : parameter_blocks),
    let l := m_currentParameterValue (fr_model f) in
    let l' := m_currentParameterValue (frame_updated_copy f parameters) in
    List.length l' = List.length l
    /\ forall j, 0 <= j < Z.of_nat (List.length l) ->
                 array_get 0%Q l' j
                 = if j <? 3 then param parameters 0 j
                   else if j <? 7 then param parameters 1 (j - 3)
                   else array_get 0%Q l j.
Proof.
  intros f parameters l l'. subst l l'. unfold frame_updated_copy. cbv zeta.
  rewrite (fold_setParameterValue (fun coord => coord + NUM_XYZ_PARAMS)
             (fun coord => param parameters 1 coord)).
  rewrite (fold_setParameterValue (fun coord => coord)
             (fun coord => param parameters 0 coord)).
  split.
  - rewrite !length_fold_array_set. reflexivity.
  - intros j Hj. unfold Zrange.
    rewrite (fold_array_set_window (fun coord => coord + NUM_XYZ_PARAMS)
               (fun coord => param parameters 1 coord) 3)
      by (intros; unfold NUM_XYZ_PARAMS; lia
          || (rewrite length_fold_array_set; exact Hj)).
    rewrite (fold_array_set_window (fun coord => coord)
               (fun coord => param parameters 0 coord) 0)
      by (intros; lia || exact Hj).
    change (Z.of_nat (Z.to_nat (NUM_QUAT_PARAMS - 0))) with 4.
    change (Z.of_nat (Z.to_nat (NUM_XYZ_PARAMS - 0))) with 3.
    replace (j - 0) with j by lia.
    blia.
Qed.

(** The pose stored in the model of the current frame camera never
    reaches the rig cost: its first seven parameters are overwritten with
    the pose computed from the reference linescan camera and the rig
    transform. Two rig costs whose frame models have the same number of
    parameters and agree from parameter 7 on give the same result. *)
Theorem rig_cost_ignores_frame_pose :
  forall (api : CsmApi) (rig : RigApi) (f : RigLsFramePixelReprojErr)
         (m : UsgsAstroFrameSensorModel) (parameters : parameter_blocks),
    List.length (m_currentParameterValue m)
    = List.length (m_currentParameterValue (rig_curr_frame_model f)) ->
    (forall j, 7 <= j ->
               array_get 0%Q (m_currentParameterValue m) j
               = array_get 0%Q (m_currentParameterValue (rig_curr_frame_model f)) j) ->
    RigLsFramePixelReprojErr_call api rig (Spec.rig_with_frame_model f m) parameters
    = RigLsFramePixelReprojErr_call api rig f parameters.
Proof.
  intros api rig f m parameters Hlen Hrest.
  unfold RigLsFramePixelReprojErr_call, rig_updated_copy, Spec.rig_with_frame_model.
  cbv zeta.
  cbn [rig_frame_pix rig_weight rig_cam_info rig_ref_ls_model rig_curr_frame_model
         rig_begQuatIndex rig_endQuatIndex rig_begPosIndex rig_endPosIndex].
  destruct (linescanToCurrSensorTrans rig _ _ _) as [vec | e]; [| reflexivity].
  assert (Hcam :
    fold_left (fun cam coord => setParameterValue cam coord (array_get 0%Q vec coord))
      (Zrange 0 (NUM_XYZ_PARAMS + NUM_QUAT_PARAMS)) m
    = fold_left (fun cam coord => setParameterValue cam coord (array_get 0%Q vec coord))
        (Zrange 0 (NUM_XYZ_PARAMS + NUM_QUAT_PARAMS)) (rig_curr_frame_model f)).
  { match goal with
    | |- ?a = ?b =>
        assert (Hl : m_currentParameterValue a = m_currentParameterValue b);
        [| destruct a, b; cbn [m_currentParameterValue] in Hl; now rewrite Hl]
    end.
    rewrite !(fold_setParameterValue (fun coord => coord)
                (fun coord => array_get 0%Q vec coord)).
    apply array_get_ext.
    - rewrite !length_fold_array_set. exact Hlen.
    - intros j Hj. rewrite length_fold_array_set in Hj. unfold Zrange.
      rewrite !(fold_array_set_window (fun coord => coord)
                  (fun coord => array_get 0%Q vec coord) 0)
        by (intros; lia || (unfold double in *; lia)).
      change (Z.of_nat (Z.to_nat (NUM_XYZ_PARAMS + NUM_QUAT_PARAMS - 0))) with 7.
      destruct ((0 + 0 <=? j) && (j <? 0 + 0 + 7)) eqn:Hin; [reflexivity |].
      apply Hrest. lia. }
  rewrite Hcam. reflexivity.
Qed.

Lemma rig_cost_ignores_frame_pose_witness :
  RigLsFramePixelReprojErr_call Fixtures.frame_reading_api Fixtures.fixed_rig_api
    (Spec.rig_with_frame_model
       (Spec.rig_with_frame_model Fixtures.rig_cost_w2 Fixtures.frame_model_8')
       Fixtures.frame_model_8)
    Fixtures.rig_blocks
  = RigLsFramePixelReprojErr_call Fixtures.frame_reading_api Fixtures.fixed_rig_api
      (Spec.rig_with_frame_model Fixtures.rig_cost_w2 Fixtures.frame_model_8')
      Fixtures.rig_blocks
  /\ RigLsFramePixelReprojErr_call Fixtures.frame_reading_api Fixtures.fixed_rig_api
       (Spec.rig_with_frame_model Fixtures.rig_cost_w2 Fixtures.frame_model_8')
       Fixtures.rig_blocks
     = (true, (50, -38)%Q).
Proof.
  split; [| vm_compute; reflexivity].
  apply (rig_cost_ignores_frame_pose Fixtures.frame_reading_api Fixtures.fixed_rig_api
           (Spec.rig_with_frame_model Fixtures.rig_cost_w2 Fixtures.frame_model_8')
           Fixtures.frame_model_8 Fixtures.rig_blocks).
  - reflexivity.
  - intros j Hj. unfold array_get.
    replace (j <? 0) with false by lia.
    destruct (Z.to_nat j) as [| [| [| [| [| [| [| [| n]]]]]]]] eqn:Hn; try lia.
    + reflexivity.
    + simpl. destruct n; reflexivity.
Defined.

End CostFunctions.

(** ** More on the roll and yaw regularizer *)

Section RollYawMore.

Import JitterSolveCostFuns.
Local Open Scope Q_scope.

Lemma Qfloor_unique (y : Q) (k : Z) :
  inject_Z k <= y < inject_Z k + 1 -> Qfloor y = k.
Proof.
  intros [Hlo Hhi].
  pose proof (Qfloor_le y) as Hfl. pose proof (Qlt_floor y) as Hfh.
  rewrite inject_Z_plus in Hfh. change (inject_Z 1) with 1 in Hfh.
  assert (H1 : inject_Z (Qfloor y) < inject_Z (k + 1)).
  { rewrite inject_Z_plus. change (inject_Z 1) with 1. lra. }
  assert (H2 : inject_Z k < inject_Z (Qfloor y + 1)).
  { rewrite inject_Z_plus. change (inject_Z 1) with 1. lra. }
  rewrite <- Zlt_Qlt in H1, H2. lia.
Qed.

Lemma Qceiling_unique (y : Q) (k : Z) :
  inject_Z k - 1 < y <= inject_Z k -> Qceiling y = k.
Proof.
  intros [Hlo Hhi]. unfold Qceiling.
  rewrite (Qfloor_unique (- y) (- k)%Z); [lia |].
  rewrite inject_Z_opp. split; lra.
Qed.

(** [a - 180 * round(a / 180)] undoes whole turns of 180 degrees: an
    angle strictly between -90 and 90, moved by any whole number of half
    turns, comes back as itself. *)
Theorem fix_180_undoes_half_turns :
  forall (b : Q) (k : Z),
    - (90) < b < 90 ->
    fix_180 (b + 180 * inject_Z k) == b.
Proof.
  intros b k [Hlo Hhi]. unfold fix_180.
  assert (Hq : (b + 180 * inject_Z k) / 180 == inject_Z k + b / 180)
    by (field; discriminate).
  assert (Hb : b == 180 * (b / 180)) by (field; discriminate).
  assert (Hr : round ((b + 180 * inject_Z k) / 180) == inject_Z k).
  { unfold round.
    destruct (Qle_bool 0 ((b + 180 * inject_Z k) / 180)).
    - rewrite (Qfloor_unique _ k); [reflexivity | split; lra].
    - rewrite (Qceiling_unique _ k); [reflexivity | split; lra]. }
  rewrite Hr. ring.
Qed.

Lemma fix_180_undoes_half_turns_witness :
  fix_180 179 == - (1) /\ fix_180 (- (1) + 180 * inject_Z 1) == - (1).
Proof.
  split; [vm_compute; reflexivity |].
  apply (fix_180_undoes_half_turns (- (1)) 1). split; reflexivity.
Defined.

(** At the odd multiples of 90 degrees the rounding is away from zero, so
    the sign flips: 90 + 180 k gives -90 for k >= 0 and 90 for k < 0, so 90
    gives -90 and -90 gives 90. *)
Theorem fix_180_at_odd_multiples :
  forall k : Z,
    fix_180 (90 + 180 * inject_Z k)
    == (if (0 <=? k)%Z then - (90) else 90).
Proof.
  intros k. unfold fix_180.
  assert (Hq : (90 + 180 * inject_Z k) / 180 == inject_Z k + (1 # 2))
    by (field; discriminate).
  unfold round.
  destruct (Qle_bool 0 ((90 + 180 * inject_Z k) / 180)) eqn:Hs.
  - apply Qle_bool_iff in Hs.
    assert (Hk : (0 <= k)%Z).
    { assert (H : inject_Z (-1) < inject_Z k)
        by (change (inject_Z (-1)) with (- (1)); lra).
      rewrite <- Zlt_Qlt in H. lia. }
    replace (0 <=? k)%Z with true by lia.
    rewrite (Qfloor_unique _ (k + 1)%Z).
    + rewrite inject_Z_plus. change (inject_Z 1) with 1. ring.
    + rewrite inject_Z_plus. change (inject_Z 1) with 1. split; lra.
  - assert (Hneg : ~ 0 <= (90 + 180 * inject_Z k) / 180).
    { intros H. apply Qle_bool_iff in H. congruence. }
    assert (Hk : (k < 0)%Z).
    { assert (H : inject_Z k < inject_Z 0)
        by (change (inject_Z 0) with 0; lra).
      rewrite <- Zlt_Qlt in H. exact H. }
    replace (0 <=? k)%Z with false by lia.
    assert (Hk' : inject_Z k <= - (1)).
    { change (- (1)) with (inject_Z (-1)). rewrite <- Zle_Qle. lia. }
    rewrite (Qceiling_unique _ k).
    + ring.
    + split; lra.
Qed.

Local Open Scope Z_scope.

Ltac throw_case :=
  split;
  [ split;
    [ intros [f Hf]; discriminate
    | intros (H1 & H2 & H3); exfalso; first [contradiction | lia] ]
  | split; [| split; [| split]] ];
  try (intros; first [reflexivity | exfalso; first [contradiction | lia]]);
  try (intros f Hf; discriminate).

(** The constructor of [weightedRollYawError]. It succeeds exactly when
    there are as many positions as quaternions, the index of the current
    position is in range and there are at least two positions; each failed
    check throws its own message, in this order. When it succeeds, the three
    positions and the quaternion that it reads are inside their arrays, and
    the weights, the flag, the in-camera rotation and the initial rotation
    are stored as given. *)
Theorem weightedRollYawError_new_checks :
  forall (G : Type) (rot : RotationApi) (sat : SatSimApi G)
         (positions quaternions : list double) (georef : G) (cur_pos : Z)
         (rollWeight yawWeight : double) (initial_camera_constraint : bool),
    let num_pos := Z.of_nat (List.length positions) / 3 in
    let num_quat := Z.of_nat (List.length quaternions) / 4 in
    let built := weightedRollYawError_new rot sat positions quaternions georef cur_pos
                   rollWeight yawWeight initial_camera_constraint in
    ((exists f, built = Ok f)
     <-> (num_pos = num_quat /\ 0 <= cur_pos < num_pos /\ 2 <= num_pos))
    /\ (num_pos <> num_quat ->
        built = Throw (ArgumentErr
          "weightedRollYawError: Expecting the same number of positions and quaternions."))
    /\ (num_pos = num_quat -> ~ 0 <= cur_pos < num_pos ->
        built = Throw (ArgumentErr
          "weightedRollYawError: Expecting position index in range."))
    /\ (num_pos = num_quat -> 0 <= cur_pos < num_pos -> num_pos < 2 ->
        built = Throw (ArgumentErr
          "weightedRollYawError: Expecting at least 2 camera positions."))
    /\ (forall f, built = Ok f ->
          (0 <= 3 * Z.max 0 (cur_pos - 1)
           /\ 3 * Z.min (num_pos - 1) (cur_pos + 1) + 2
              < Z.of_nat (List.length positions)
           /\ 4 * cur_pos + 3 < Z.of_nat (List.length quaternions))
          /\ m_rollWeight f = rollWeight
          /\ m_yawWeight f = yawWeight
          /\ m_initial_camera_constraint f = initial_camera_constraint
          /\ m_rotXY f = rotationXY sat
          /\ m_initCam2World f
             = quaternionToMatrix rot (skipn (Z.to_nat (4 * cur_pos)) quaternions)).
Proof.
  intros G rot sat positions quaternions georef cur_pos rollWeight yawWeight
         initial_camera_constraint num_pos num_quat built.
  assert (Hnp : Z.quot (Z.of_nat (List.length positions)) NUM_XYZ_PARAMS = num_pos)
    by (apply Z.quot_div_nonneg; unfold NUM_XYZ_PARAMS; lia).
  assert (Hnq : Z.quot (Z.of_nat (List.length quaternions)) NUM_QUAT_PARAMS = num_quat)
    by (apply Z.quot_div_nonneg; unfold NUM_QUAT_PARAMS; lia).
  pose proof (Z.mul_div_le (Z.of_nat (List.length positions)) 3 ltac:(lia)) as Hp3.
  pose proof (Z.mul_div_le (Z.of_nat (List.length quaternions)) 4 ltac:(lia)) as Hq4.
  fold num_pos in Hp3. fold num_quat in Hq4.
  subst built. unfold weightedRollYawError_new. cbv zeta. rewrite Hnp, Hnq.
  destruct (num_pos =? num_quat) eqn:Heq; cbn [negb].
  2: { apply Z.eqb_neq in Heq. throw_case. }
  apply Z.eqb_eq in Heq.
  destruct ((cur_pos <? 0) || (cur_pos >=? num_pos)) eqn:Hrange.
  { assert (Hout : ~ 0 <= cur_pos < num_pos) by lia. throw_case. }
  assert (Hin : 0 <= cur_pos < num_pos) by lia.
  destruct (Z.max 0 (cur_pos - 1) >=? Z.min (num_pos - 1) (cur_pos + 1)) eqn:Htwo.
  { assert (Hone : num_pos < 2) by lia. throw_case. }
  assert (Hmany : 2 <= num_pos) by lia.
  destruct (calcProjAlongAcross sat _ _) as [proj_along proj_across].
  destruct (calcEcefAlongAcross sat _ _ _ _ _) as [along across].
  split; [| split; [| split; [| split]]].
  - split; [intros _; repeat split; lia | intros _; eexists; reflexivity].
  - intros H. contradiction.
  - intros _ H. contradiction.
  - intros _ _ H. lia.
  - intros f Hf. injection Hf as <-.
    cbn [m_rollWeight m_yawWeight m_initial_camera_constraint m_rotXY m_initCam2World].
    split; [lia |].
    repeat split.
    replace (cur_pos * NUM_QUAT_PARAMS) with (4 * cur_pos)
      by (unfold NUM_QUAT_PARAMS; lia).
    reflexivity.
Qed.

Lemma weightedRollYawError_new_checks_witness :
  exists f,
    weightedRollYawError_new Fixtures.rotation_api Fixtures.sat_api
      [0; 0; 0; 1; 0; 0]%Q [0; 0; 0; 1; 0; 0; 0; 1]%Q tt 0 2%Q 0%Q false = Ok f
    /\ m_rollWeight f = 2%Q
    /\ m_initial_camera_constraint f = false.
Proof.
  eexists. split; [vm_compute; reflexivity |].
  pose proof (weightedRollYawError_new_checks unit Fixtures.rotation_api
                Fixtures.sat_api [0; 0; 0; 1; 0; 0]%Q [0; 0; 0; 1; 0; 0; 0; 1]%Q tt 0
                2%Q 0%Q false) as H.
  cbv zeta in H. destruct H as (_ & _ & _ & _ & H).
  specialize (H _ eq_refl). destruct H as (_ & Hr & _ & Hf & _).
  split; [exact Hr | exact Hf].
Defined.

End RollYawMore.

(** ** The window of the rig cost *)

Section RigWindow.

Import JitterSolveCostFuns.

Lemma static_cast_int_ceiling (x : Q) :
  x <= 0 -> static_cast_int x = Qceiling x.
Proof.
  destruct x as [n d]. unfold Qle, static_cast_int, Qceiling, Qfloor. simpl.
  intros H.
  rewrite <- (Z.opp_involutive n) at 1. rewrite Z.quot_opp_l by lia.
  rewrite Z.quot_div_nonneg by lia. reflexivity.
Qed.

Lemma static_cast_int_mono (x y : Q) :
  x <= y -> (static_cast_int x <= static_cast_int y)%Z.
Proof.
  intros Hxy.
  destruct (Qlt_le_dec x 0) as [Hx | Hx]; destruct (Qlt_le_dec y 0) as [Hy | Hy].
  - rewrite !static_cast_int_ceiling by lra. apply Qceiling_resp_le. exact Hxy.
  - rewrite (static_cast_int_ceiling x) by lra.
    rewrite (static_cast_int_floor y) by exact Hy.
    apply Z.le_trans with 0%Z.
    + change 0%Z with (Qceiling 0). apply Qceiling_resp_le. lra.
    + change 0%Z with (Qfloor 0). apply Qfloor_resp_le. exact Hy.
  - lra.
  - rewrite !static_cast_int_floor by lra. apply Qfloor_resp_le. exact Hxy.
Qed.

Lemma sample_below_count (n len i : Z) :
  (0 < n)%Z -> (n * i + (n - 1) < len)%Z -> (i < len / n)%Z.
Proof.
  intros Hn Hi. apply Z.nle_gt. intros Hge.
  pose proof (Z.mod_pos_bound len n Hn).
  pose proof (Z.div_mod len n ltac:(lia)).
  nia.
Qed.

(** The window of the rig cost is around the time of the frame image. On
    time grids of positive step, when [addRigLsFrameReprojectionErr] adds a
    block, the quaternion sample and the position sample at the frame time
    (the truncated quotients of the frame time on the two grids) are in the
    windows of the cost whenever they are samples of the model at all. *)
Theorem rig_window_covers_frame_time :
  forall (api : CsmApi) (rig : RigApi) (opt : BaBaseOptions) (info : RigCamInfo)
         (frame_pix : Vector2) (weight : double)
         (ref_ls_model : UsgsAstroLsSensorModel)
         (curr_frame_model : UsgsAstroFrameSensorModel) (blk : RigResidualBlock),
    0 < m_dtQuat ref_ls_model ->
    0 < m_dtEphem ref_ls_model ->
    addRigLsFrameReprojectionErr api rig opt info frame_pix weight ref_ls_model
      curr_frame_model = Ok blk ->
    let f := cf_functor (rrb_cost blk) in
    let iq := static_cast_int
                ((beg_pose_time info - m_t0Quat ref_ls_model) / m_dtQuat ref_ls_model) in
    let ip := static_cast_int
                ((beg_pose_time info - m_t0Ephem ref_ls_model)
                 / m_dtEphem ref_ls_model) in
    ((0 <= iq /\ 4 * iq + 3 < Z.of_nat (List.length (m_quaternions ref_ls_model)))%Z ->
     (rig_begQuatIndex f <= iq < rig_endQuatIndex f)%Z)
    /\ ((0 <= ip /\ 3 * ip + 2 < Z.of_nat (List.length (m_positions ref_ls_model)))%Z ->
        (rig_begPosIndex f <= ip < rig_endPosIndex f)%Z).
Proof.
  intros api rig opt info frame_pix weight ref_ls_model curr_frame_model blk
         Hdq Hdp Hok f iq ip.
  subst f. revert Hok. unfold addRigLsFrameReprojectionErr. cbv zeta.
  destruct (negb (Qeq_bool _ _)); [discriminate |].
  set (delta := Qabs _).
  assert (Hdelta : 0 <= delta) by apply Qabs_nonneg.
  destruct (calcIndexBounds _ _ (m_t0Quat ref_ls_model) _ _) as [[bq eq_] | e1] eqn:Hq;
    [| discriminate].
  destruct (calcIndexBounds _ _ (m_t0Ephem ref_ls_model) _ _) as [[bp ep] | e2] eqn:Hp;
    [| discriminate].
  intros H. injection H as <-.
  cbn [rrb_cost]. unfold RigLsFramePixelReprojErr_Create.
  cbn [cf_functor rig_begQuatIndex rig_endQuatIndex rig_begPosIndex rig_endPosIndex].
  rewrite calcIndexBounds_trunc in Hq, Hp. cbv zeta in Hq, Hp.
  match type of Hq with
  | (if ?c then _ else _) = _ => destruct c eqn:Hcq; [discriminate |]
  end.
  match type of Hp with
  | (if ?c then _ else _) = _ => destruct c eqn:Hcp; [discriminate |]
  end.
  injection Hq as <- <-. injection Hp as <- <-.
  pose proof (Z.quot_div_nonneg (Z.of_nat (List.length (m_quaternions ref_ls_model))) 4
                ltac:(lia) ltac:(lia)) as Hq4.
  pose proof (Z.quot_div_nonneg (Z.of_nat (List.length (m_positions ref_ls_model))) 3
                ltac:(lia) ltac:(lia)) as Hp3.
  change NUM_QUAT_PARAMS with 4%Z in *. change NUM_XYZ_PARAMS with 3%Z in *.
  rewrite Hq4 in Hcq |- *. rewrite Hp3 in Hcp |- *.
  assert (Hmono : forall t0 dt : Q, 0 < dt ->
            (static_cast_int ((beg_pose_time info - delta - t0) / dt)%Q
             <= static_cast_int ((beg_pose_time info - t0) / dt)%Q
             <= static_cast_int ((beg_pose_time info + delta - t0) / dt)%Q)%Z).
  { intros t0 dt Hdt. split; apply static_cast_int_mono; apply quotient_mono;
      try exact Hdt; unfold double in *; lra. }
  pose proof (Hmono (m_t0Quat ref_ls_model) _ Hdq) as Hiq.
  pose proof (Hmono (m_t0Ephem ref_ls_model) _ Hdp) as Hip.
  fold iq in Hiq. fold ip in Hip.
  split.
  - intros [H0 Hlen].
    assert (Hin : (4 * iq + (4 - 1)
                   < Z.of_nat (List.length (m_quaternions ref_ls_model)))%Z) by lia.
    apply sample_below_count in Hin; lia.
  - intros [H0 Hlen].
    assert (Hin : (3 * ip + (3 - 1)
                   < Z.of_nat (List.length (m_positions ref_ls_model)))%Z) by lia.
    apply sample_below_count in Hin; lia.
Qed.

Lemma rig_window_covers_frame_time_witness :
  exists blk,
    addRigLsFrameReprojectionErr Fixtures.constant_api Fixtures.fixed_rig_api
      Fixtures.jitter_options {| beg_pose_time := 0; end_pose_time := 0 |} (10, 20) 2
      Fixtures.ls_model_2 (FrameModel [0; 0; 0; 0; 0; 0; 1]) = Ok blk
    /\ (rig_begQuatIndex (cf_functor (rrb_cost blk)) <= 0
        < rig_endQuatIndex (cf_functor (rrb_cost blk)))%Z
    /\ (rig_begPosIndex (cf_functor (rrb_cost blk)) <= 0
        < rig_endPosIndex (cf_functor (rrb_cost blk)))%Z.
Proof.
  eexists. split; [vm_compute; reflexivity |].
  pose proof (rig_window_covers_frame_time Fixtures.constant_api Fixtures.fixed_rig_api
                Fixtures.jitter_options {| beg_pose_time := 0; end_pose_time := 0 |}
                (10, 20) 2 Fixtures.ls_model_2 (FrameModel [0; 0; 0; 0; 0; 0; 1]) _
                eq_refl eq_refl eq_refl) as H.
  cbv zeta in H. destruct H as [Hq Hp].
  split; [apply Hq | apply Hp]; vm_compute; split; congruence.
Defined.

End RigWindow.

(** ** More on the ground alignment *)

Section GroundAlignmentMore.

Import BundleAdjustCamera.
Local Open Scope Q_scope.

(** [apply_rigid_transform] stops at the first camera that is not a
    pinhole camera: the cameras before it are already transformed, that
    camera and the ones after it are as they were, and the control network
    is untouched. *)
Theorem apply_rigid_transform_stops_half_way :
  forall (PinholeModel OtherModel : Type)
         (ap : Matrix3x3 -> Vector3 -> double -> PinholeModel -> PinholeModel)
         (rotation : Matrix3x3) (translation : Vector3) (scale : double)
         (before after : list (CameraModel PinholeModel OtherModel)) (c : OtherModel)
         (cnet : ControlNetwork),
    forallb Spec.is_pinhole before = true ->
    apply_rigid_transform ap rotation translation scale
      (before ++ NotPinhole c :: after) cnet
    = Raise (ArgumentErr "A pinhole camera expected.")
        (map (Spec.transformed_camera ap rotation translation scale) before
         ++ NotPinhole c :: after,
         cnet).
Proof.
  intros PinholeModel OtherModel ap rotation translation scale before after c cnet.
  unfold apply_rigid_transform.
  induction before as [| [p | c'] before IH]; simpl; intros Hpin.
  - reflexivity.
  - specialize (IH Hpin).
    destruct (transform_cameras ap rotation translation scale
                (before ++ NotPinhole c :: after)) as [u cams | e cams].
    + discriminate.
    + injection IH as -> ->. reflexivity.
  - discriminate.
Qed.

Lemma apply_rigid_transform_stops_half_way_witness :
  apply_rigid_transform Fixtures.count_transform Fixtures.identity3 (V3 10 0 0) 2
    ([Fixtures.pinhole_camera] ++ NotPinhole tt :: [Fixtures.pinhole_camera])
    Fixtures.small_network
  = Raise (ArgumentErr "A pinhole camera expected.")
      ([Pinhole 1%nat; NotPinhole tt; Pinhole 0%nat], Fixtures.small_network).
Proof.
  apply (apply_rigid_transform_stops_half_way nat unit Fixtures.count_transform
           Fixtures.identity3 (V3 10 0 0) 2 [Fixtures.pinhole_camera]
           [Fixtures.pinhole_camera] tt Fixtures.small_network).
  reflexivity.
Defined.

Lemma inject_Z_succ (k : Z) : inject_Z k + 1 = inject_Z (k + 1).
Proof.
  unfold Qplus, inject_Z. simpl. f_equal. lia.
Qed.

(** Equalities of vectors, by components. *)
Ltac v3_ring :=
  unfold Spec.Vector3_equiv, Spec.centroid, Vector3_add, Vector3_sub, Vector3_div,
    Vector3_zero, Qdiv;
  cbn [v3x v3y v3z];
  repeat match goal with
         | |- context [v3x ?t] => destruct t as [? ? ?]; cbn [v3x v3y v3z]
         | |- context [v3y ?t] => destruct t as [? ? ?]; cbn [v3x v3y v3z]
         | |- context [v3z ?t] => destruct t as [? ? ?]; cbn [v3x v3y v3z]
         end;
  repeat match goal with
         | x : double |- _ => progress unfold double in x
         end;
  repeat split; ring.

Section CheckGcpDists.

Variables PinholeModel OtherModel : Type.
Variable tri :
  ControlPoint -> list (CameraModel PinholeModel OtherModel) ->
  double -> double -> double * ControlPoint.
Variable cams : list (CameraModel PinholeModel OtherModel).
Variable ftd : double.

Local Abbreviation ips := (Spec.triangulated_positions tri cams ftd).
Local Abbreviation gcps := Spec.gcp_positions.

Lemma count_points_from (cnet : ControlNetwork) :
  forall g i : Z,
    fold_left
      (fun '(gcp_count, ip_count) cp =>
         if skipped cp then (gcp_count, ip_count)
         else if is_gcp (type cp) then (gcp_count + 1, ip_count)
         else
           match triangulated tri cams ftd cp with
           | None => (gcp_count, ip_count)
           | Some _ => (gcp_count, ip_count + 1)
           end)
      cnet (inject_Z g, inject_Z i)
    = (inject_Z (g + Z.of_nat (List.length (gcps cnet))),
       inject_Z (i + Z.of_nat (List.length (ips cnet)))).
Proof.
  induction cnet as [| cp cnet IH]; intros g i.
  - simpl. rewrite !Z.add_0_r. reflexivity.
  - cbn [fold_left]. unfold Spec.gcp_positions, Spec.triangulated_positions.
    cbn [flat_map]. rewrite !length_app.
    fold (Spec.gcp_positions cnet). fold (Spec.triangulated_positions tri cams ftd cnet).
    destruct (skipped cp); cbn [negb andb].
    + rewrite IH. simpl List.length. do 2 f_equal; lia.
    + destruct (is_gcp (type cp)); cbn [negb andb].
      * rewrite inject_Z_succ, IH. simpl List.length. do 2 f_equal; lia.
      * destruct (triangulated tri cams ftd cp) as [p |].
        -- rewrite inject_Z_succ, IH. simpl List.length. do 2 f_equal; lia.
        -- rewrite IH. simpl List.length. do 2 f_equal; lia.
Qed.

Lemma count_points_lengths (cnet : ControlNetwork) :
  count_points tri cams ftd cnet
  = (inject_Z (Z.of_nat (List.length (gcps cnet))),
     inject_Z (Z.of_nat (List.length (ips cnet)))).
Proof.
  unfold count_points. change (0, 0) with (inject_Z 0, inject_Z 0).
  rewrite count_points_from. reflexivity.
Qed.

Lemma accumulate_means_from (ip_count : double) (cnet : ControlNetwork) :
  forall (mean_gcp mean_ip : Vector3) (gcp_count : double),
    fold_left
      (fun '(mean_gcp, mean_ip, gcp_count) cp =>
         if skipped cp then (mean_gcp, mean_ip, gcp_count)
         else if is_gcp (type cp) then
           (Vector3_add mean_gcp (Vector3_div (position cp) gcp_count),
            mean_ip, gcp_count + 1)
         else
           match triangulated tri cams ftd cp with
           | None => (mean_gcp, mean_ip, gcp_count)
           | Some p =>
               (mean_gcp, Vector3_add mean_ip (Vector3_div p ip_count), gcp_count)
           end)
      cnet (mean_gcp, mean_ip, gcp_count)
    = (fst (fold_left
              (fun '(m, c) p => (Vector3_add m (Vector3_div p c), c + 1))
              (gcps cnet) (mean_gcp, gcp_count)),
       fold_left (fun m p => Vector3_add m (Vector3_div p ip_count)) (ips cnet) mean_ip,
       snd (fold_left
              (fun '(m, c) p => (Vector3_add m (Vector3_div p c), c + 1))
              (gcps cnet) (mean_gcp, gcp_count))).
Proof.
  induction cnet as [| cp cnet IH]; intros mean_gcp mean_ip gcp_count.
  - reflexivity.
  - cbn [fold_left]. unfold Spec.gcp_positions, Spec.triangulated_positions.
    cbn [flat_map]. rewrite !fold_left_app.
    fold (Spec.gcp_positions cnet). fold (Spec.triangulated_positions tri cams ftd cnet).
    destruct (skipped cp); cbn [negb andb].
    + rewrite IH. reflexivity.
    + destruct (is_gcp (type cp)); cbn [negb andb].
      * rewrite IH. reflexivity.
      * destruct (triangulated tri cams ftd cp) as [p |]; rewrite IH; reflexivity.
Qed.

Lemma Vector3_equiv_refl (a : Vector3) : Spec.Vector3_equiv a a.
Proof.
  repeat split; reflexivity.
Qed.

Lemma drifting_fold (pts : list Vector3) :
  forall (m : Vector3) (c : double),
    Spec.Vector3_equiv
      (fst (fold_left (fun '(m, c) p => (Vector3_add m (Vector3_div p c), c + 1))
              pts (m, c)))
      (Vector3_add m (Spec.drifting_mean pts c)).
Proof.
  induction pts as [| p pts IH]; intros m c.
  - simpl. unfold Spec.Vector3_equiv. simpl. v3_ring.
  - cbn [fold_left Spec.drifting_mean].
    destruct (IH (Vector3_add m (Vector3_div p c)) (c + 1)) as (Hx & Hy & Hz).
    unfold Spec.Vector3_equiv. cbn [Vector3_add v3x v3y v3z] in *.
    rewrite Hx, Hy, Hz. v3_ring.
Qed.

Lemma scaled_fold (c : Q) (pts : list Vector3) :
  forall acc acc' : Vector3,
    Spec.Vector3_equiv acc' (Vector3_div acc c) ->
    Spec.Vector3_equiv
      (fold_left (fun m p => Vector3_add m (Vector3_div p c)) pts acc')
      (Vector3_div (fold_left Vector3_add pts acc) c).
Proof.
  induction pts as [| p pts IH]; intros acc acc' Hacc.
  - exact Hacc.
  - cbn [fold_left]. apply IH.
    destruct Hacc as (Hx & Hy & Hz).
    unfold Spec.Vector3_equiv. cbn [Vector3_add Vector3_div v3x v3y v3z] in *.
    rewrite Hx, Hy, Hz. unfold Qdiv. v3_ring.
Qed.

Lemma norm_2_gt_equiv (a a' b b' : Vector3) (c : double) :
  Spec.Vector3_equiv a a' -> Spec.Vector3_equiv b b' ->
  norm_2_gt (Vector3_sub a b) c = norm_2_gt (Vector3_sub a' b') c.
Proof.
  intros (Hx & Hy & Hz) (Hx' & Hy' & Hz').
  unfold norm_2_gt, dot_prod. cbn [Vector3_sub v3x v3y v3z].
  f_equal. apply Qleb_comp; [| reflexivity].
  rewrite Hx, Hy, Hz, Hx', Hy', Hz'. reflexivity.
Qed.

(** What [check_gcp_dists] compares. It is silent when no measurement
    point triangulates or no ground control point counts. Otherwise its mean
    of the measurement points is their centroid, but its mean of the [n]
    ground control points is the sum in which the k-th of them is divided by
    [n + k], and it warns exactly when these two are more than 100 km
    apart. *)
Theorem check_gcp_dists_means :
  forall cnet : ControlNetwork,
    check_gcp_dists tri cams cnet ftd
    = match ips cnet, gcps cnet with
      | [], _ => []
      | _, [] => []
      | _ :: _, _ :: _ =>
          if norm_2_gt
               (Vector3_sub
                  (Spec.centroid (ips cnet))
                  (Spec.drifting_mean (gcps cnet)
                     (inject_Z (Z.of_nat (List.length (gcps cnet))))))
               100000
          then [gcp_warning] else []
      end.
Proof.
  intros cnet. unfold check_gcp_dists.
  rewrite count_points_lengths.
  destruct (ips cnet) as [| ip0 ips'] eqn:Hips.
  { reflexivity. }
  destruct (gcps cnet) as [| g0 gcps'] eqn:Hgcps.
  { simpl. reflexivity. }
  replace (Qeq_bool (inject_Z (Z.of_nat (List.length (ip0 :: ips')))) 0) with false.
  2: { symmetry. apply not_true_is_false. intros H. apply Qeq_bool_iff in H.
       unfold Qeq in H. simpl in H. lia. }
  replace (Qeq_bool (inject_Z (Z.of_nat (List.length (g0 :: gcps')))) 0) with false.
  2: { symmetry. apply not_true_is_false. intros H. apply Qeq_bool_iff in H.
       unfold Qeq in H. simpl in H. lia. }
  cbn [orb]. unfold accumulate_means. rewrite accumulate_means_from.
  rewrite Hips, Hgcps.
  erewrite norm_2_gt_equiv; [reflexivity | |].
  - unfold Spec.centroid. apply scaled_fold.
    unfold Spec.Vector3_equiv, Vector3_div, Vector3_zero, Qdiv. simpl.
    v3_ring.
  - pose proof (drifting_fold (g0 :: gcps') (V3 0 0 0)
                  (inject_Z (Z.of_nat (List.length (g0 :: gcps'))))) as (Hx & Hy & Hz).
    unfold Spec.Vector3_equiv. cbn [Vector3_add v3x v3y v3z] in *.
    rewrite Hx, Hy, Hz. v3_ring.
Qed.

(** With exactly one ground control point that counts, the check is the
    intended one: it warns exactly when the centroid of the triangulated
    measurement points is more than 100 km from that point. *)
Theorem check_gcp_dists_single_gcp :
  forall (cnet : ControlNetwork) (p : Vector3),
    gcps cnet = [p] ->
    ips cnet <> [] ->
    check_gcp_dists tri cams cnet ftd
    = if Spec.centroids_far_apart (ips cnet) (gcps cnet) then [gcp_warning] else [].
Proof.
  intros cnet p Hg Hi. rewrite check_gcp_dists_means.
  destruct (ips cnet) as [| ip0 ips'] eqn:Hips; [contradiction |].
  rewrite Hg. unfold Spec.centroids_far_apart.
  erewrite norm_2_gt_equiv; [reflexivity | apply Vector3_equiv_refl |].
  unfold Spec.Vector3_equiv, Spec.centroid, Spec.drifting_mean, Vector3_div,
    Vector3_add, Vector3_zero, Qdiv. simpl. v3_ring.
Qed.

End CheckGcpDists.

Lemma check_gcp_dists_single_gcp_witness :
  check_gcp_dists Fixtures.triangulate_in_place Fixtures.no_cameras
    Fixtures.one_gcp_network 0 = [gcp_warning]
  /\ check_gcp_dists Fixtures.triangulate_in_place Fixtures.no_cameras
       Fixtures.small_network 0 = [].
Proof.
  split.
  - rewrite (check_gcp_dists_single_gcp unit unit Fixtures.triangulate_in_place
               Fixtures.no_cameras 0 Fixtures.one_gcp_network (V3 110000 0 0)).
    + vm_compute. reflexivity.
    + reflexivity.
    + discriminate.
  - rewrite (check_gcp_dists_single_gcp unit unit Fixtures.triangulate_in_place
               Fixtures.no_cameras 0 Fixtures.small_network (V3 4 5 6)).
    + vm_compute. reflexivity.
    + reflexivity.
    + discriminate.
Defined.

End GroundAlignmentMore.

(** ** The initial alignment of pinhole cameras *)

Section PinholeInit.

Import BundleAdjustCamera.
Local Open Scope Z_scope.

Lemma fold_left_ext {A B : Type} (f g : A -> B -> A) (xs : list B) :
  (forall a b, f a b = g a b) ->
  forall a, fold_left f xs a = fold_left g xs a.
Proof.
  intros Hfg. induction xs as [| x xs IH]; intros a; simpl.
  - reflexivity.
  - rewrite Hfg. apply IH.
Qed.

Lemma array_set_app_here {A : Type} (l rest : list A) (z v : A) :
  array_set (l ++ z :: rest) (Z.of_nat (List.length l)) v = l ++ v :: rest.
Proof.
  unfold array_set. destruct (Z.ltb_spec (Z.of_nat (List.length l)) 0) as [H | H];
    [lia |].
  clear H. rewrite Nat2Z.id.
  induction l as [| h l IH]; simpl; [reflexivity | now rewrite IH].
Qed.

(** A loop that stores a pair of columns for every selected element, at
    an index that it increments, into matrices that have room for them. *)
Lemma fill_fits {X : Type} (sel : X -> option (Vector3 * Vector3)) (xs : list X) :
  forall (done_in done_out : list Vector3) (room : nat),
    List.length done_in = List.length done_out ->
    (List.length
       (flat_map (fun x => match sel x with Some p => [p] | None => [] end) xs)
     <= room)%nat ->
    fold_left
      (fun '(points_in, points_out, index) x =>
         match sel x with
         | None => (points_in, points_out, index)
         | Some (a, b) =>
             (array_set points_in index a, array_set points_out index b, index + 1)
         end)
      xs
      (done_in ++ repeat Vector3_zero room, done_out ++ repeat Vector3_zero room,
       Z.of_nat (List.length done_in))
    = let pairs :=
        flat_map (fun x => match sel x with Some p => [p] | None => [] end) xs in
      (done_in ++ map fst pairs
         ++ repeat Vector3_zero (room - List.length pairs),
       done_out ++ map snd pairs
         ++ repeat Vector3_zero (room - List.length pairs),
       Z.of_nat (List.length done_in + List.length pairs)).
Proof.
  induction xs as [| x xs IH]; intros done_in done_out room Hlen Hroom.
  - simpl. rewrite Nat.sub_0_r, Nat.add_0_r. reflexivity.
  - cbn [fold_left flat_map] in *. destruct (sel x) as [[a b] |].
    + cbn [app List.length] in Hroom.
      destruct room as [| room]; [lia |].
      cbn [repeat]. rewrite array_set_app_here.
      rewrite Hlen at 1. rewrite array_set_app_here.
      replace (Z.of_nat (List.length done_in) + 1)
        with (Z.of_nat (List.length (done_in ++ [a])))
        by (rewrite length_app; simpl; lia).
      replace (done_in ++ a :: repeat Vector3_zero room)
        with ((done_in ++ [a]) ++ repeat Vector3_zero room)
        by (rewrite <- app_assoc; reflexivity).
      replace (done_out ++ b :: repeat Vector3_zero room)
        with ((done_out ++ [b]) ++ repeat Vector3_zero room)
        by (rewrite <- app_assoc; reflexivity).
      rewrite IH by (rewrite ?length_app; simpl; lia).
      cbv zeta. cbn [app map fst snd List.length].
      rewrite <- !app_assoc. cbn [app].
      rewrite length_app. cbn [List.length Nat.sub].
      do 2 f_equal. lia.
    + cbn [app] in *. rewrite IH by assumption. reflexivity.
Qed.

(** The index that such a loop reaches, whether or not there is room. *)
Lemma fill_index {X : Type} (sel : X -> option (Vector3 * Vector3)) (xs : list X) :
  forall (points_in points_out : list Vector3) (index : Z),
    snd (fold_left
           (fun '(points_in, points_out, index) x =>
              match sel x with
              | None => (points_in, points_out, index)
              | Some (a, b) =>
                  (array_set points_in index a, array_set points_out index b, index + 1)
              end)
           xs (points_in, points_out, index))
    = index
      + Z.of_nat
          (List.length
             (flat_map (fun x => match sel x with Some p => [p] | None => [] end) xs)).
Proof.
  induction xs as [| x xs IH]; intros points_in points_out index.
  - simpl. lia.
  - cbn [fold_left flat_map]. destruct (sel x) as [[a b] |].
    + rewrite IH. cbn [app List.length]. lia.
    + rewrite IH. reflexivity.
Qed.

Lemma flat_map_filter {X Y : Type} (keep : X -> bool) (g : X -> Y) (xs : list X) :
  flat_map (fun x => if keep x then [g x] else []) xs = map g (filter keep xs).
Proof.
  induction xs as [| x xs IH]; simpl; [reflexivity |].
  destruct (keep x); simpl; now rewrite IH.
Qed.

Lemma count_fold {X : Type} (keep : X -> bool) (xs : list X) :
  forall n : Z,
    fold_left (fun n x => if keep x then n + 1 else n) xs n
    = n + Z.of_nat (List.length (filter keep xs)).
Proof.
  induction xs as [| x xs IH]; intros n; simpl.
  - lia.
  - rewrite IH. destruct (keep x); simpl; lia.
Qed.

Section Init.

Variables PinholeModel OtherModel : Type.
Variable ap : Matrix3x3 -> Vector3 -> double -> PinholeModel -> PinholeModel.
Variable tri :
  ControlPoint -> list (CameraModel PinholeModel OtherModel) ->
  double -> double -> double * ControlPoint.
Variable find : list Vector3 -> list Vector3 -> Matrix3x3 * Vector3 * double.
Variable center : CameraModel PinholeModel OtherModel -> Vector3.

Lemma count_matches_matched (est : list Vector3) :
  count_matches est (Z.of_nat (List.length est))
  = Z.of_nat (List.length (Spec.matched_cameras est)).
Proof.
  unfold count_matches, Spec.matched_cameras.
  rewrite (count_fold
             (fun i => negb (Vector3_eqb (array_get Vector3_zero est i) Vector3_zero))).
  reflexivity.
Qed.

Lemma fill_camera_positions_matched (cams : list (CameraModel PinholeModel OtherModel))
    (est : list Vector3) :
  fill_camera_positions center cams est (Z.of_nat (List.length est))
    (Z.of_nat (List.length (Spec.matched_cameras est)))
  = (map (camera_center_at center cams) (Spec.matched_cameras est),
     map (array_get Vector3_zero est) (Spec.matched_cameras est),
     Z.of_nat (List.length (Spec.matched_cameras est))).
Proof.
  unfold fill_camera_positions, zero_columns. rewrite Nat2Z.id.
  set (sel := fun i : Z =>
                if negb (Vector3_eqb (array_get Vector3_zero est i) Vector3_zero)
                then Some (camera_center_at center cams i, array_get Vector3_zero est i)
                else None).
  rewrite (fold_left_ext _
             (fun '(points_in, points_out, index) x =>
                match sel x with
                | None => (points_in, points_out, index)
                | Some (a, b) =>
                    (array_set points_in index a, array_set points_out index b,
                     index + 1)
                end)).
  2: { intros [[pin pout] index] i. unfold sel.
       change (V3 0%Q 0%Q 0%Q) with Vector3_zero.
       destruct (Vector3_eqb (array_get Vector3_zero est i) Vector3_zero); reflexivity. }
  assert (Hpairs :
    flat_map (fun x => match sel x with Some p => [p] | None => [] end)
      (Zrange 0 (Z.of_nat (List.length est)))
    = map (fun i => (camera_center_at center cams i, array_get Vector3_zero est i))
        (Spec.matched_cameras est)).
  { unfold Spec.matched_cameras. rewrite <- flat_map_filter.
    apply flat_map_ext. intros i. unfold sel.
    destruct (negb (Vector3_eqb (array_get Vector3_zero est i) Vector3_zero));
      reflexivity. }
  pose proof (fill_fits sel (Zrange 0 (Z.of_nat (List.length est))) [] []
                (List.length (Spec.matched_cameras est)) eq_refl) as Hfill.
  rewrite Hpairs in Hfill. rewrite length_map in Hfill.
  specialize (Hfill (le_n _)). cbn [app List.length] in Hfill.
  change (Z.of_nat 0) with 0 in Hfill.
  rewrite Hfill. cbv zeta. rewrite !length_map, Nat.sub_diag. cbn [repeat].
  rewrite !app_nil_r, !map_map. cbn [fst snd Nat.add]. reflexivity.
Qed.

(** [init_pinhole_model_with_camera_positions]. It throws, with no
    camera and no point changed, when the number of estimated positions is
    not the number of images, and when fewer than three estimated positions
    are not the zero vector. Otherwise the matrices handed to the transform
    search have exactly one column per camera with an estimated position, in
    order: the center of that camera and its estimated position; and the
    result is that of [apply_rigid_transform] with the transform found. *)
Theorem init_pinhole_model_with_camera_positions_cases :
  forall (cnet : ControlNetwork) (cams : list (CameraModel PinholeModel OtherModel))
         (image_files : list string) (est : list Vector3),
    let r := init_pinhole_model_with_camera_positions ap find center cnet cams
               image_files est in
    let matched := Spec.matched_cameras est in
    (List.length est <> List.length image_files ->
     r = Raise (ArgumentErr "No camera matches provided to init function!") (cams, cnet))
    /\ (List.length est = List.length image_files ->
        (List.length matched < 3)%nat ->
        r = Raise (ArgumentErr
                     "At least 3 camera position matches are required to initialize sensor models!")
              (cams, cnet))
    /\ (List.length est = List.length image_files ->
        (3 <= List.length matched)%nat ->
        r = let '(rotation, translation, scale) :=
              find (map (camera_center_at center cams) matched)
                   (map (array_get Vector3_zero est) matched) in
            match apply_rigid_transform ap rotation translation scale cams cnet with
            | Ret _ s => Ret true s
            | Raise e s => Raise e s
            end).
Proof.
  intros cnet cams image_files est r matched. subst r matched.
  unfold init_pinhole_model_with_camera_positions. cbv zeta.
  split; [| split].
  - intros Hne.
    destruct (Z.eqb_spec (Z.of_nat (List.length est))
                (Z.of_nat (List.length image_files))) as [He | He]; [lia |].
    reflexivity.
  - intros Heq Hfew. rewrite <- Heq, Z.eqb_refl. cbn [negb].
    rewrite count_matches_matched.
    destruct (Z.ltb_spec (Z.of_nat (List.length (Spec.matched_cameras est))) 3);
      [reflexivity | lia].
  - intros Heq Hmany. rewrite <- Heq, Z.eqb_refl. cbn [negb].
    rewrite count_matches_matched.
    destruct (Z.ltb_spec (Z.of_nat (List.length (Spec.matched_cameras est))) 3);
      [lia |].
    rewrite fill_camera_positions_matched. reflexivity.
Qed.

Lemma all_pinhole_forallb (cams : list (CameraModel PinholeModel OtherModel)) :
  all_pinhole cams = forallb Spec.is_pinhole cams.
Proof.
  induction cams as [| [p | c] cams IH]; simpl; auto.
Qed.

Lemma count_good_gcp_from (cams : list (CameraModel PinholeModel OtherModel))
    (cnet : ControlNetwork) :
  forall n g : Z,
    fold_left
      (fun '(num_gcp, num_good_gcp) cp =>
         if negb (is_gcp (type cp)) then (num_gcp, num_good_gcp)
         else if good_gcp tri cams cp
              then (num_gcp + 1, num_good_gcp + 1)
              else (num_gcp + 1, num_good_gcp))
      cnet (n, g)
    = (n + Z.of_nat (List.length (filter (fun cp => is_gcp (type cp)) cnet)),
       g + Z.of_nat (List.length (Spec.good_gcps tri cams cnet))).
Proof.
  induction cnet as [| cp cnet IH]; intros n g.
  - simpl. f_equal; lia.
  - cbn [fold_left]. unfold Spec.good_gcps. cbn [filter].
    fold (Spec.good_gcps tri cams cnet).
    destruct (is_gcp (type cp)); cbn [negb andb].
    + destruct (good_gcp tri cams cp); rewrite IH; cbn [List.length]; f_equal; lia.
    + rewrite IH. reflexivity.
Qed.

Lemma fill_gcp_sel (cams : list (CameraModel PinholeModel OtherModel))
    (cnet : ControlNetwork) (st : list Vector3 * list Vector3 * Z) :
  fold_left
    (fun '(points_in, points_out, index) cp =>
       if negb (is_gcp (type cp)) then (points_in, points_out, index)
       else
         let minimum_angle := 0%Q in
         let forced_triangulation_distance := (- (1))%Q in
         let '(_, cp_new) :=
           tri cp cams minimum_angle forced_triangulation_distance in
         let inp := position cp_new in
         let outp := position cp in
         if Vector3_eqb inp Vector3_zero || Vector3_eqb outp Vector3_zero
         then (points_in, points_out, index)
         else (array_set points_in index inp, array_set points_out index outp,
               (index + 1)%Z))
    cnet st
  = fold_left
      (fun '(points_in, points_out, index) cp =>
         match Spec.gcp_pair tri cams cp with
         | None => (points_in, points_out, index)
         | Some (a, b) =>
             (array_set points_in index a, array_set points_out index b, index + 1)
         end)
      cnet st.
Proof.
  apply fold_left_ext. intros [[pin pout] index] cp. unfold Spec.gcp_pair. cbv zeta.
  destruct (is_gcp (type cp)); cbn [negb]; [| reflexivity].
  destruct (tri cp cams 0%Q (- (1))%Q) as [err cp_new]. cbn [snd].
  destruct (Vector3_eqb (position cp_new) Vector3_zero
            || Vector3_eqb (position cp) Vector3_zero); reflexivity.
Qed.

Lemma gcp_pairs_split (cams : list (CameraModel PinholeModel OtherModel))
    (cnet : ControlNetwork) :
  List.length (Spec.gcp_pairs tri cams cnet)
  = (List.length (Spec.good_gcps tri cams cnet)
     + List.length (Spec.uncounted_gcps tri cams cnet))%nat.
Proof.
  unfold Spec.gcp_pairs, Spec.good_gcps, Spec.uncounted_gcps.
  induction cnet as [| cp cnet IH]; [reflexivity |].
  cbn [flat_map filter]. rewrite length_app, IH.
  unfold Spec.gcp_pair, good_gcp. cbv zeta.
  destruct (is_gcp (type cp)); cbn [andb]; [| reflexivity].
  destruct (tri cp cams 0%Q (- (1))%Q) as [err cp_new]. cbn [snd fst].
  destruct (Vector3_eqb (position cp_new) Vector3_zero); cbn [negb orb andb];
    [reflexivity |].
  destruct (Vector3_eqb (position cp) Vector3_zero); cbn [negb orb andb];
    [reflexivity |].
  destruct (Qle_bool err 0); cbn [negb orb andb];
    destruct (List.length cams =? 1)%nat; cbn [negb List.length]; lia.
Qed.

(** The two loops of [init_pinhole_model_with_multi_gcp] do not select
    the same points. The counting loop, which sizes the matrices, counts the
    ground control points with both positions not zero and a positive
    triangulation error (or a single camera); the populating loop stores a
    column for every ground control point with both positions not zero. The
    index it reaches is the number counted plus the number of ground control
    points whose error is not positive (with other than one camera): that
    many columns are written past the end of the matrices. *)
Theorem multi_gcp_columns_overrun :
  forall (cnet : ControlNetwork) (cams : list (CameraModel PinholeModel OtherModel)),
    let num_good_gcp := snd (count_good_gcp tri cams cnet) in
    let index := snd (fill_gcp tri cams cnet num_good_gcp) in
    num_good_gcp = Z.of_nat (List.length (Spec.good_gcps tri cams cnet))
    /\ index = Z.of_nat (List.length (Spec.gcp_pairs tri cams cnet))
    /\ index = num_good_gcp + Z.of_nat (List.length (Spec.uncounted_gcps tri cams cnet))
    /\ (Spec.uncounted_gcps tri cams cnet = [] ->
        fill_gcp tri cams cnet num_good_gcp
        = (map fst (Spec.gcp_pairs tri cams cnet),
           map snd (Spec.gcp_pairs tri cams cnet), num_good_gcp)).
Proof.
  intros cnet cams num_good_gcp index.
  assert (Hgood : num_good_gcp = Z.of_nat (List.length (Spec.good_gcps tri cams cnet))).
  { subst num_good_gcp. unfold count_good_gcp. rewrite count_good_gcp_from. reflexivity. }
  assert (Hindex : index = Z.of_nat (List.length (Spec.gcp_pairs tri cams cnet))).
  { subst index. unfold fill_gcp. rewrite fill_gcp_sel, fill_index. reflexivity. }
  split; [exact Hgood |]. split; [exact Hindex |].
  split.
  - rewrite Hindex, Hgood, gcp_pairs_split. lia.
  - intros Hnone. unfold fill_gcp. rewrite fill_gcp_sel. unfold zero_columns.
    pose proof (gcp_pairs_split cams cnet) as Hsplit.
    rewrite Hnone in Hsplit. cbn [List.length] in Hsplit. rewrite Nat.add_0_r in Hsplit.
    rewrite Hgood, Nat2Z.id.
    pose proof (fill_fits (Spec.gcp_pair tri cams) cnet [] []
                  (List.length (Spec.good_gcps tri cams cnet)) eq_refl) as Hfill.
    fold (Spec.gcp_pairs tri cams cnet) in Hfill. rewrite Hsplit in Hfill.
    specialize (Hfill (le_n _)). cbn [app List.length] in Hfill.
    change (Z.of_nat 0) with 0 in Hfill.
    rewrite Hfill. cbv zeta. rewrite Hsplit, Nat.sub_diag. cbn [repeat Nat.add].
    rewrite !app_nil_r. reflexivity.
Qed.


End Init.

Lemma init_pinhole_model_with_camera_positions_cases_witness :
  exists s,
    init_pinhole_model_with_camera_positions Fixtures.count_transform
      Fixtures.first_point_transform Fixtures.center_on_x Fixtures.small_network
      (Fixtures.two_pinhole_cameras ++ Fixtures.two_pinhole_cameras)
      ["a.tif"; "b.tif"; "c.tif"; "d.tif"]%string
      [V3 1 0 0; V3 0 0 0; V3 2 0 0; V3 3 0 0]%Q
    = Ret true s.
Proof.
  destruct (init_pinhole_model_with_camera_positions_cases nat unit
              Fixtures.count_transform Fixtures.first_point_transform
              Fixtures.center_on_x Fixtures.small_network
              (Fixtures.two_pinhole_cameras ++ Fixtures.two_pinhole_cameras)
              ["a.tif"; "b.tif"; "c.tif"; "d.tif"]%string
              [V3 1 0 0; V3 0 0 0; V3 2 0 0; V3 3 0 0]%Q) as (_ & _ & H).
  rewrite H; [| reflexivity | vm_compute; lia].
  vm_compute. eexists. reflexivity.
Defined.

Lemma multi_gcp_columns_overrun_witness :
  snd (count_good_gcp Fixtures.triangulate_by_x Fixtures.two_pinhole_cameras
         Fixtures.four_gcp_network) = 3
  /\ snd (fill_gcp Fixtures.triangulate_by_x Fixtures.two_pinhole_cameras
            Fixtures.four_gcp_network
            (snd (count_good_gcp Fixtures.triangulate_by_x Fixtures.two_pinhole_cameras
                    Fixtures.four_gcp_network))) = 4.
Proof.
  destruct (multi_gcp_columns_overrun nat unit Fixtures.triangulate_by_x
              Fixtures.four_gcp_network Fixtures.two_pinhole_cameras)
    as (Hgood & _ & Hindex & _).
  split.
  - etransitivity; [exact Hgood | vm_compute; reflexivity].
  - etransitivity; [exact Hindex | vm_compute; reflexivity].
Defined.


End PinholeInit.

(** ** Alignment with ground control points seen in one image *)

Section MonoGcp.

Import BundleAdjustCamera.
Local Open Scope Z_scope.

Lemma length_ordered_pairs {A : Type} (l : list A) :
  (2 * List.length (Spec.ordered_pairs l) = List.length l * (List.length l - 1))%nat.
Proof.
  induction l as [| x l IH]; [reflexivity |].
  cbn [Spec.ordered_pairs List.length]. rewrite length_app, length_map. nia.
Qed.

Section ScaleChange.

Variable PinholeModel : Type.
Variable api : AlignApi PinholeModel.
Variables sfm_cams aux_cams : list PinholeModel.
Variable xyz : list (list Vector3).

Lemma scale_changes_inner (it1 : Z) (its : list Z) :
  forall scales : list double,
    fold_left
      (fun scales it2 =>
         if negb (is_good xyz it2) then scales
         else
           let len1 :=
             norm_2 api (Vector3_sub (pinhole_center_at api sfm_cams it1)
                                     (pinhole_center_at api sfm_cams it2)) in
           let len2 :=
             norm_2 api (Vector3_sub (pinhole_center_at api aux_cams it1)
                                     (pinhole_center_at api aux_cams it2)) in
           let scale := (len2 / len1)%Q in
           scales ++ [scale])
      its scales
    = scales
      ++ map (fun it2 => Spec.scale_change api sfm_cams aux_cams (it1, it2))
           (filter (is_good xyz) its).
Proof.
  induction its as [| it2 its IH]; intros scales; simpl.
  - now rewrite app_nil_r.
  - rewrite IH. destruct (is_good xyz it2); simpl.
    + rewrite <- app_assoc. reflexivity.
    + reflexivity.
Qed.

Lemma scale_changes_outer (n : Z) (m : nat) :
  forall (lo : Z) (scales : list double),
    lo + Z.of_nat m = n ->
    fold_left
      (fun scales it1 =>
         if negb (is_good xyz it1) then scales
         else
           fold_left
             (fun scales it2 =>
                if negb (is_good xyz it2) then scales
                else
                  let len1 :=
                    norm_2 api (Vector3_sub (pinhole_center_at api sfm_cams it1)
                                            (pinhole_center_at api sfm_cams it2)) in
                  let len2 :=
                    norm_2 api (Vector3_sub (pinhole_center_at api aux_cams it1)
                                            (pinhole_center_at api aux_cams it2)) in
                  let scale := (len2 / len1)%Q in
                  scales ++ [scale])
             (Zrange (it1 + 1) n) scales)
      (Zseq lo m) scales
    = scales
      ++ map (Spec.scale_change api sfm_cams aux_cams)
           (Spec.ordered_pairs (filter (is_good xyz) (Zseq lo m))).
Proof.
  induction m as [| m IH]; intros lo scales Hn.
  - simpl. now rewrite app_nil_r.
  - cbn [Zseq fold_left filter].
    assert (Hrange : Zrange (lo + 1) n = Zseq (lo + 1) m)
      by (unfold Zrange; f_equal; lia).
    destruct (is_good xyz lo); cbn [negb].
    + rewrite scale_changes_inner, Hrange, IH by lia.
      cbn [Spec.ordered_pairs]. rewrite map_app, map_map, <- app_assoc. reflexivity.
    + apply IH. lia.
Qed.

(** [find_median_scale_change]. The scales are those of the pairs of
    cameras with at least three points each, the first before the second, in
    the order of the two loops: with [g] such cameras there are
    [g (g - 1) / 2] of them. With fewer than two such cameras it throws;
    otherwise it returns the median of these scales. *)
Theorem find_median_scale_change_pairs :
  let good := Spec.good_cameras xyz (Z.of_nat (List.length sfm_cams)) in
  let scales :=
    map (Spec.scale_change api sfm_cams aux_cams) (Spec.ordered_pairs good) in
  scale_changes api sfm_cams aux_cams xyz = scales
  /\ (2 * List.length scales = List.length good * (List.length good - 1))%nat
  /\ ((List.length good < 2)%nat ->
      find_median_scale_change api sfm_cams aux_cams xyz
      = Throw (LogicErr "Could not find two images with at least 3 GCP each."))
  /\ ((2 <= List.length good)%nat ->
      find_median_scale_change api sfm_cams aux_cams xyz
      = Ok (destructive_median api scales)).
Proof.
  intros good scales.
  assert (Hscales : scale_changes api sfm_cams aux_cams xyz = scales).
  { unfold scale_changes. cbv zeta. unfold Zrange at 2.
    rewrite (scale_changes_outer (Z.of_nat (List.length sfm_cams))) by lia.
    reflexivity. }
  assert (Hlen : (2 * List.length scales
                  = List.length good * (List.length good - 1))%nat).
  { subst scales. rewrite length_map. apply length_ordered_pairs. }
  split; [exact Hscales |]. split; [exact Hlen |].
  unfold find_median_scale_change. cbv zeta. rewrite Hscales.
  split; intros Hgood.
  - destruct scales as [| s0 scales']; [reflexivity |].
    cbn [List.length] in Hlen. nia.
  - destruct scales as [| s0 scales']; [| reflexivity].
    cbn [List.length] in Hlen. nia.
Qed.

End ScaleChange.

Lemma Zrange_0_of_nat (n : nat) : Zrange 0 (Z.of_nat n) = Zseq 0 n.
Proof.
  unfold Zrange. rewrite Z.sub_0_r, Nat2Z.id. reflexivity.
Qed.

Lemma array_get_map_Zseq {A : Type} (d : A) (f : Z -> A) (n : nat) (lo i : Z) :
  0 <= i < Z.of_nat n -> array_get d (map f (Zseq lo n)) i = f (lo + i).
Proof.
  intros Hi. unfold array_get. destruct (Z.ltb_spec i 0); [lia |].
  rewrite (nth_indep _ d (f 0)) by (rewrite length_map, length_Zseq; lia).
  rewrite map_nth, nth_Zseq by lia. f_equal. lia.
Qed.

Lemma list_set_map_Zseq {A : Type} (f : Z -> A) (v : A) (n : nat) :
  forall (lo : Z) (k : nat),
    (k < n)%nat ->
    list_set (map f (Zseq lo n)) k v
    = map (fun c => if c =? lo + Z.of_nat k then v else f c) (Zseq lo n).
Proof.
  induction n as [| n IH]; intros lo k Hk; [lia |].
  cbn [Zseq map]. destruct k as [| k]; cbn [list_set].
  - replace (lo =? lo + Z.of_nat 0) with true by blia. f_equal.
    apply map_ext_in. intros c Hc. apply In_Zseq in Hc.
    destruct (Z.eqb_spec c (lo + Z.of_nat 0)); [lia | reflexivity].
  - destruct (Z.eqb_spec lo (lo + Z.of_nat (S k))); [lia |]. f_equal.
    rewrite IH by lia. apply map_ext. intros c.
    replace (lo + 1 + Z.of_nat k) with (lo + Z.of_nat (S k)) by lia. reflexivity.
Qed.

Lemma array_set_map_Zseq {A : Type} (f : Z -> A) (v : A) (n : nat) (i : Z) :
  0 <= i < Z.of_nat n ->
  array_set (map f (Zseq 0 n)) i v
  = map (fun c => if c =? i then v else f c) (Zseq 0 n).
Proof.
  intros Hi. unfold array_set. destruct (Z.ltb_spec i 0); [lia |].
  rewrite list_set_map_Zseq by lia. apply map_ext. intros c.
  rewrite Z2Nat.id by lia. reflexivity.
Qed.

Lemma push_back_of_camera {A : Type} (proj : Vector3 * Vector2 -> A)
    (pre : list (Z * (Vector3 * Vector2))) (n : nat) (c : Z) (v : Vector3 * Vector2) :
  0 <= c < Z.of_nat n ->
  push_back_at (map (Spec.of_camera proj pre) (Zseq 0 n)) c (proj v)
  = map (Spec.of_camera proj (pre ++ [(c, v)])) (Zseq 0 n).
Proof.
  intros Hc. unfold push_back_at.
  rewrite array_get_map_Zseq by exact Hc.
  rewrite array_set_map_Zseq by exact Hc.
  apply map_ext. intros k. unfold Spec.of_camera.
  rewrite filter_app, map_app. cbn [filter fst snd].
  destruct (Z.eqb_spec k c) as [-> | Hne].
  - rewrite Z.eqb_refl. reflexivity.
  - destruct (Z.eqb_spec c k); [congruence |]. cbn [map]. now rewrite app_nil_r.
Qed.

(** The step of the extraction loop, on the measures of the ground
    control points. *)
Local Abbreviation extract_step num_cams :=
  (fun (acc : result (list (list Vector3) * list (list Vector2)))
       (m : Z * (Vector3 * Vector2)) =>
     match acc with
     | Throw e => Throw e
     | Ok (xyz, pix) =>
         if (fst m <? 0) || (fst m >=? num_cams) then
           Throw (ArgumentErr "Error: cnet index out of range.")
         else
           Ok (push_back_at xyz (fst m) (fst (snd m)),
               push_back_at pix (fst m) (fst (snd (snd m)), snd (snd (snd m))))
     end).

Lemma extract_gcp_flat (num_cams : Z) (cnet : ControlNetwork) :
  forall acc,
    fold_left
      (fun acc cp =>
         if negb (is_gcp (type cp)) then acc
         else
           fold_left
             (fun acc measure =>
                match acc with
                | Throw e => Throw e
                | Ok (xyz, pix) =>
                    let cam_it := image_id measure in
                    if (cam_it <? 0) || (cam_it >=? num_cams) then
                      Throw (ArgumentErr "Error: cnet index out of range.")
                    else
                      let pixel :=
                        (fst (position2 measure), snd (position2 measure)) in
                      Ok (push_back_at xyz cam_it (position cp),
                          push_back_at pix cam_it pixel)
                end)
             (measures cp) acc)
      cnet acc
    = fold_left (extract_step num_cams) (Spec.gcp_measures cnet) acc.
Proof.
  induction cnet as [| cp cnet IH]; intros acc; [reflexivity |].
  cbn [fold_left]. unfold Spec.gcp_measures. cbn [flat_map]. rewrite fold_left_app.
  fold (Spec.gcp_measures cnet). rewrite IH. f_equal.
  destruct (is_gcp (type cp)); cbn [negb]; [| reflexivity].
  generalize (measures cp) as ms. intros ms. revert acc.
  induction ms as [| m ms IHm]; intros acc; [reflexivity |].
  cbn [fold_left map]. rewrite IHm. reflexivity.
Qed.

Lemma extract_fold_throw (num_cams : Z) (ms : list (Z * (Vector3 * Vector2))) (e : exn) :
  fold_left (extract_step num_cams) ms (Throw e) = Throw e.
Proof.
  induction ms as [| m ms IH]; [reflexivity | exact IH].
Qed.

Lemma extract_fold (n : nat) (ms : list (Z * (Vector3 * Vector2))) :
  forall pre,
    fold_left (extract_step (Z.of_nat n)) ms
      (Ok (map (Spec.of_camera fst pre) (Zseq 0 n),
           map (Spec.of_camera (fun v => (fst (snd v), snd (snd v))) pre) (Zseq 0 n)))
    = if forallb (Spec.names_a_camera (Z.of_nat n)) ms
      then Ok (map (Spec.of_camera fst (pre ++ ms)) (Zseq 0 n),
               map (Spec.of_camera (fun v => (fst (snd v), snd (snd v))) (pre ++ ms))
                 (Zseq 0 n))
      else Throw (ArgumentErr "Error: cnet index out of range.").
Proof.
  induction ms as [| [c v] ms IH]; intros pre.
  - cbn [fold_left forallb]. now rewrite app_nil_r.
  - cbn [fold_left forallb fst snd]. unfold Spec.names_a_camera at 1. cbn [fst].
    destruct (Z.leb_spec 0 c); destruct (Z.ltb_spec c (Z.of_nat n)); cbn [andb];
      try (replace ((c <? 0) || (c >=? Z.of_nat n)) with true by blia;
           apply extract_fold_throw).
    replace ((c <? 0) || (c >=? Z.of_nat n)) with false by blia.
    rewrite (push_back_of_camera fst pre n c v) by lia.
    pose proof (push_back_of_camera (fun v => (fst (snd v), snd (snd v))) pre n c v
                  ltac:(lia)) as Hpix.
    cbv beta in Hpix. unfold Vector2 in *. rewrite Hpix.
    rewrite IH, <- app_assoc. reflexivity.
Qed.

(** The extraction loop of [init_pinhole_model_with_mono_gcp]. It
    throws exactly when some measure of a ground control point names no
    camera. Otherwise the entry of each camera holds, in the order of the
    network, the positions, and the pixels, of the measures of ground control
    points in that camera: the two entries of a camera have the same
    length. *)
Theorem extract_gcp_by_camera :
  forall (n : nat) (cnet : ControlNetwork),
    let ms := Spec.gcp_measures cnet in
    extract_gcp (Z.of_nat n) cnet
    = if forallb (Spec.names_a_camera (Z.of_nat n)) ms
      then Ok (map (Spec.of_camera fst ms) (Zrange 0 (Z.of_nat n)),
               map (Spec.of_camera snd ms) (Zrange 0 (Z.of_nat n)))
      else Throw (ArgumentErr "Error: cnet index out of range.").
Proof.
  intros n cnet ms. unfold extract_gcp. rewrite extract_gcp_flat, Nat2Z.id.
  fold ms. rewrite Zrange_0_of_nat.
  assert (Hinit : forall (A : Type) (proj : Vector3 * Vector2 -> A),
            repeat [] n = map (Spec.of_camera proj []) (Zseq 0 n)).
  { intros A proj. generalize 0 as lo. induction n as [| k IH]; intros lo;
      [reflexivity |]. cbn [repeat Zseq map]. f_equal. apply IH. }
  rewrite (Hinit _ fst) at 1.
  rewrite (Hinit _ (fun v : Vector3 * Vector2 => (fst (snd v), snd (snd v)))).
  rewrite extract_fold. cbn [app].
  destruct (forallb (Spec.names_a_camera (Z.of_nat n)) ms); [| reflexivity].
  assert (Hpix :
    map (Spec.of_camera (fun v : Vector3 * Vector2 => (fst (snd v), snd (snd v))) ms)
      (Zseq 0 n)
    = map (Spec.of_camera snd ms) (Zseq 0 n)).
  { apply map_ext. intros c. unfold Spec.of_camera.
    apply map_ext. intros [k [p [x y]]]. reflexivity. }
  rewrite Hpix. reflexivity.
Qed.

Lemma fold_left_ext_in {A B : Type} (f g : A -> B -> A) (xs : list B) :
  (forall a b, In b xs -> f a b = g a b) ->
  forall a, fold_left f xs a = fold_left g xs a.
Proof.
  induction xs as [| x xs IH]; intros Hfg a; simpl.
  - reflexivity.
  - rewrite Hfg by (left; reflexivity). apply IH.
    intros a' b Hb. apply Hfg. right. exact Hb.
Qed.

(** A loop whose every step increments a counter, kept last in the
    state, by one. *)
Lemma counting_fold {S X : Type} (step : S * Z -> X -> S * Z) (xs : list X) :
  (forall st x, snd (step st x) = snd st + 1) ->
  forall st, snd (fold_left step xs st) = snd st + Z.of_nat (List.length xs).
Proof.
  intros Hstep. induction xs as [| x xs IH]; intros st.
  - simpl. lia.
  - cbn [fold_left List.length]. rewrite IH, Hstep. lia.
Qed.

Lemma summing_fold {S X : Type} (good : X -> bool) (size : X -> nat)
    (inner : S * Z -> X -> S * Z) (xs : list X) :
  (forall st x, snd (inner st x) = snd st + Z.of_nat (size x)) ->
  forall st,
    snd (fold_left (fun st x => if good x then inner st x else st) xs st)
    = fold_left (fun n x => if good x then n + Z.of_nat (size x) else n) xs (snd st).
Proof.
  intros Hinner. induction xs as [| x xs IH]; intros st.
  - reflexivity.
  - cbn [fold_left]. rewrite IH. destruct (good x); [rewrite Hinner |]; reflexivity.
Qed.

Lemma length_Zrange_0 (n : nat) : List.length (Zrange 0 (Z.of_nat n)) = n.
Proof.
  rewrite Zrange_0_of_nat. apply length_Zseq.
Qed.

Lemma doubled_fold {X : Type} (good : X -> bool) (size : X -> nat) (xs : list X) :
  forall n : Z,
    fold_left (fun len x => if good x then len + Z.of_nat (size x) * 2 else len) xs (2 * n)
    = 2 * fold_left (fun n x => if good x then n + Z.of_nat (size x) else n) xs n.
Proof.
  induction xs as [| x xs IH]; intros n.
  - reflexivity.
  - cbn [fold_left]. destruct (good x); [| apply IH].
    rewrite <- IH. f_equal. lia.
Qed.

Section Align.

Variables PinholeModel OtherModel : Type.
Variable ap : Matrix3x3 -> Vector3 -> double -> PinholeModel -> PinholeModel.
Variable find : list Vector3 -> list Vector3 -> Matrix3x3 * Vector3 * double.
Variable api : AlignApi PinholeModel.

Lemma fill_pts_col (xyz : list (list Vector3)) (pix : list (list Vector2))
    (sfm_cams aux_cams : list PinholeModel) (world_scale : double) (num_pts : Z) :
  snd (fill_pts api xyz pix sfm_cams aux_cams world_scale num_pts)
  = fold_left
      (fun n it =>
         if is_good xyz it then n + Z.of_nat (List.length (array_get [] xyz it)) else n)
      (Zrange 0 (Z.of_nat (List.length sfm_cams))) 0.
Proof.
  unfold fill_pts.
  rewrite (summing_fold (S := list Vector3 * list Vector3) (is_good xyz)
             (fun it => List.length (array_get [] xyz it))).
  - reflexivity.
  - intros st it.
    rewrite (counting_fold (S := list Vector3 * list Vector3)).
    + rewrite length_Zrange_0. reflexivity.
    + intros [[a b] col] c. reflexivity.
Qed.

Lemma fill_pixel_vec_count (xyz : list (list Vector3)) (pix : list (list Vector2))
    (pixel_vec_len : Z) :
  snd (fill_pixel_vec xyz pix pixel_vec_len)
  = fold_left
      (fun n it =>
         if is_good xyz it then n + Z.of_nat (List.length (array_get [] pix it)) else n)
      (Zrange 0 (Z.of_nat (List.length pix))) 0.
Proof.
  unfold fill_pixel_vec.
  rewrite (summing_fold (S := list double) (is_good xyz)
             (fun it => List.length (array_get [] pix it))).
  - reflexivity.
  - intros st it.
    rewrite (counting_fold (S := list double)).
    + rewrite length_Zrange_0. reflexivity.
    + intros [v count] c. reflexivity.
Qed.

(** The two book-keeping checks of [align_cameras_to_ground]. The
    second one ("cam_gen") never fails. The first one never fails when every
    camera has as many pixels as points; then the function throws only with
    fewer than two cameras of at least three points, and otherwise returns
    the cameras, each moved with the parameters that the solver found, and
    the transform unpacked from those parameters. *)
Theorem align_cameras_to_ground_bookkeeping :
  forall (xyz : list (list Vector3)) (pix : list (list Vector2))
         (sfm_cams : list PinholeModel),
    let r := align_cameras_to_ground find api xyz pix sfm_cams in
    let good := Spec.good_cameras xyz (Z.of_nat (List.length sfm_cams)) in
    r <> Throw (LogicErr "Book-keeping failure in cam_gen.")
    /\ ((forall it, 0 <= it < Z.of_nat (List.length sfm_cams) ->
                    List.length (array_get [] xyz it)
                    = List.length (array_get [] pix it)) ->
        ((List.length good < 2)%nat ->
         r = Throw (LogicErr "Could not find two images with at least 3 GCP each."))
        /\ ((2 <= List.length good)%nat ->
            exists final_params,
              r = Ok (map (fun cam => apply_rot_trans_scale api cam final_params)
                        sfm_cams,
                      vector_to_transform api final_params))).
Proof.
  intros xyz pix sfm_cams r good.
  pose proof (find_median_scale_change_pairs PinholeModel api sfm_cams
                (individually_aligned api xyz pix sfm_cams) xyz) as Hmed.
  cbv zeta in Hmed. fold good in Hmed. destruct Hmed as (_ & _ & Hfew & Hmany).
  assert (Hcount : forall pixel_vec_len,
            2 * snd (fill_pixel_vec xyz pix pixel_vec_len) = count_pixel_vec xyz pix).
  { intros pixel_vec_len. rewrite fill_pixel_vec_count. unfold count_pixel_vec.
    rewrite <- doubled_fold. reflexivity. }
  subst r. unfold align_cameras_to_ground. cbv zeta.
  split.
  - destruct (find_median_scale_change api sfm_cams _ xyz) as [world_scale | e] eqn:Hm.
    + destruct (fill_pts api xyz pix sfm_cams _ world_scale _) as [[in_pts out_pts] col].
      destruct (negb (col =? _)); [discriminate |].
      destruct (find in_pts out_pts) as [[rotation translation] scale].
      specialize (Hcount (count_pixel_vec xyz pix)).
      destruct (fill_pixel_vec xyz pix (count_pixel_vec xyz pix)) as [pixel_vec count].
      cbn [snd] in Hcount. rewrite Hcount, Z.eqb_refl. cbn [negb]. discriminate.
    + destruct (Nat.lt_ge_cases (List.length good) 2) as [Hlt | Hge].
      * pose proof (Hfew Hlt) as Hf. injection Hf as ->. discriminate.
      * pose proof (Hmany Hge) as Hf. discriminate.
  - intros Hlens. split.
    + intros Hlt. rewrite (Hfew Hlt). reflexivity.
    + intros Hge. rewrite (Hmany Hge).
      pose proof (fill_pts_col xyz pix sfm_cams
                    (individually_aligned api xyz pix sfm_cams)
                    (destructive_median api
                       (map (Spec.scale_change api sfm_cams
                               (individually_aligned api xyz pix sfm_cams))
                          (Spec.ordered_pairs good)))
                    (count_pts xyz pix (Z.of_nat (List.length sfm_cams)))) as Hcol.
      destruct (fill_pts api xyz pix sfm_cams _ _ _) as [[in_pts out_pts] col].
      cbn [snd] in Hcol.
      assert (Hsame : col = count_pts xyz pix (Z.of_nat (List.length sfm_cams))).
      { rewrite Hcol. unfold count_pts. apply fold_left_ext_in.
        intros n it Hit. apply In_Zrange in Hit.
        rewrite (Hlens it Hit). reflexivity. }
      rewrite <- Hsame, Z.eqb_refl. cbn [negb].
      destruct (find in_pts out_pts) as [[rotation translation] scale].
      specialize (Hcount (count_pixel_vec xyz pix)).
      destruct (fill_pixel_vec xyz pix (count_pixel_vec xyz pix)) as [pixel_vec count].
      cbn [snd] in Hcount. rewrite Hcount, Z.eqb_refl. cbn [negb].
      eexists. reflexivity.
Qed.

Lemma pinhole_copies_cases (cams : list (CameraModel PinholeModel OtherModel)) :
  if forallb Spec.is_pinhole cams
  then exists l, pinhole_copies cams = Ok l /\ List.length l = List.length cams
  else pinhole_copies cams = Throw (ArgumentErr "A pinhole camera expected.").
Proof.
  induction cams as [| [p | c] cams IH]; cbn [forallb Spec.is_pinhole andb pinhole_copies].
  - exists []. split; reflexivity.
  - destruct (forallb Spec.is_pinhole cams).
    + destruct IH as (l & -> & Hl). exists (p :: l). split; [reflexivity |].
      simpl. now rewrite Hl.
    + rewrite IH. reflexivity.
  - reflexivity.
Qed.

(** [init_pinhole_model_with_mono_gcp]. It throws, with no camera and
    no point changed, when a camera is not a pinhole camera, when a measure
    of a ground control point names no camera, and when fewer than two
    cameras have at least three measures of ground control points, in this
    order. Otherwise it does not throw, the book-keeping checks of the
    alignment included: every camera is transformed and every control point
    that is not a ground control point is moved, by one transform. *)
Theorem init_pinhole_model_with_mono_gcp_cases :
  forall (cnet : ControlNetwork) (cams : list (CameraModel PinholeModel OtherModel)),
    let n := Z.of_nat (List.length cams) in
    let ms := Spec.gcp_measures cnet in
    let r := init_pinhole_model_with_mono_gcp ap find api cnet cams in
    (forallb Spec.is_pinhole cams = false ->
     r = Raise (ArgumentErr "A pinhole camera expected.") (cams, cnet))
    /\ (forallb Spec.is_pinhole cams = true ->
        forallb (Spec.names_a_camera n) ms = false ->
        r = Raise (ArgumentErr "Error: cnet index out of range.") (cams, cnet))
    /\ (forallb Spec.is_pinhole cams = true ->
        forallb (Spec.names_a_camera n) ms = true ->
        (List.length (Spec.cameras_with_three ms n) < 2)%nat ->
        r = Raise (LogicErr "Could not find two images with at least 3 GCP each.")
              (cams, cnet))
    /\ (forallb Spec.is_pinhole cams = true ->
        forallb (Spec.names_a_camera n) ms = true ->
        (2 <= List.length (Spec.cameras_with_three ms n))%nat ->
        exists rotation translation scale,
          r = Ret tt
                (map (Spec.transformed_camera ap rotation translation scale) cams,
                 map (Spec.transformed_point rotation translation scale) cnet)).
Proof.
  intros cnet cams n ms r. subst r. unfold init_pinhole_model_with_mono_gcp. cbv zeta.
  pose proof (pinhole_copies_cases cams) as Hcopies.
  rewrite (extract_gcp_by_camera (List.length cams) cnet). cbv zeta. fold n ms.
  destruct (forallb Spec.is_pinhole cams) eqn:Hpin.
  2: { rewrite Hcopies. repeat split; intros; first [reflexivity | discriminate]. }
  destruct Hcopies as (copies & -> & Hlen).
  destruct (forallb (Spec.names_a_camera n) ms) eqn:Hnames.
  2: { repeat split; intros; first [reflexivity | discriminate]. }
  pose proof (align_cameras_to_ground_bookkeeping
                (map (Spec.of_camera fst ms) (Zrange 0 n))
                (map (Spec.of_camera snd ms) (Zrange 0 n)) copies) as Halign.
  cbv zeta in Halign. destruct Halign as (_ & Halign).
  rewrite Hlen in Halign. fold n in Halign.
  assert (Hgood : Spec.good_cameras (map (Spec.of_camera fst ms) (Zrange 0 n)) n
                  = Spec.cameras_with_three ms n).
  { unfold Spec.good_cameras, Spec.cameras_with_three. apply filter_ext_in.
    intros c Hc. apply In_Zrange in Hc. unfold is_good, n.
    rewrite Zrange_0_of_nat, array_get_map_Zseq by (unfold n in Hc; lia).
    reflexivity. }
  rewrite Hgood in Halign.
  destruct Halign as (Hfew & Hmany).
  { intros it Hit. unfold n. rewrite Zrange_0_of_nat.
    rewrite !array_get_map_Zseq by (unfold n in Hit; lia).
    unfold Spec.of_camera. rewrite !length_map. reflexivity. }
  split; [discriminate |]. split; [discriminate |]. split.
  - intros _ _ Hlt. rewrite (Hfew Hlt). reflexivity.
  - intros _ _ Hge. destruct (Hmany Hge) as (final_params & ->).
    destruct (vector_to_transform api final_params) as [[rotation translation] scale].
    exists rotation, translation, scale.
    unfold apply_rigid_transform.
    rewrite (transform_cameras_pinhole ap rotation translation scale cams Hpin).
    reflexivity.
Qed.

End Align.

Lemma init_pinhole_model_with_mono_gcp_cases_witness :
  (exists rotation translation scale,
      init_pinhole_model_with_mono_gcp Fixtures.count_transform
        Fixtures.first_point_transform Fixtures.align_api Fixtures.mono_gcp_network
        Fixtures.two_pinhole_cameras
      = Ret tt
          (map (Spec.transformed_camera Fixtures.count_transform rotation translation
                  scale) Fixtures.two_pinhole_cameras,
           map (Spec.transformed_point rotation translation scale)
             Fixtures.mono_gcp_network))
  /\ init_pinhole_model_with_mono_gcp Fixtures.count_transform
       Fixtures.first_point_transform Fixtures.align_api Fixtures.gcp_network
       Fixtures.two_pinhole_cameras
     = Raise (LogicErr "Could not find two images with at least 3 GCP each.")
         (Fixtures.two_pinhole_cameras, Fixtures.gcp_network).
Proof.
  split.
  - destruct (init_pinhole_model_with_mono_gcp_cases nat unit Fixtures.count_transform
                Fixtures.first_point_transform Fixtures.align_api
                Fixtures.mono_gcp_network Fixtures.two_pinhole_cameras)
      as (_ & _ & _ & H).
    apply H; [reflexivity | reflexivity | vm_compute; lia].
  - destruct (init_pinhole_model_with_mono_gcp_cases nat unit Fixtures.count_transform
                Fixtures.first_point_transform Fixtures.align_api
                Fixtures.gcp_network Fixtures.two_pinhole_cameras)
      as (_ & _ & H & _).
    apply H; [reflexivity | reflexivity | vm_compute; lia].
Defined.

Lemma align_cameras_to_ground_bookkeeping_witness :
  exists final_params,
    align_cameras_to_ground Fixtures.first_point_transform Fixtures.align_api
      [[V3 1 0 0; V3 2 0 0; V3 3 0 0]; [V3 1 0 0; V3 2 0 0; V3 3 0 0]]%Q
      [[(1, 1); (2, 1); (3, 1)]; [(4, 1); (5, 1); (6, 1)]]%Q [0%nat; 5%nat]
    = Ok (map (fun cam => apply_rot_trans_scale Fixtures.align_api cam final_params)
            [0%nat; 5%nat],
          vector_to_transform Fixtures.align_api final_params).
Proof.
  destruct (align_cameras_to_ground_bookkeeping nat Fixtures.first_point_transform
              Fixtures.align_api
              [[V3 1 0 0; V3 2 0 0; V3 3 0 0]; [V3 1 0 0; V3 2 0 0; V3 3 0 0]]%Q
              [[(1, 1); (2, 1); (3, 1)]; [(4, 1); (5, 1); (6, 1)]]%Q [0%nat; 5%nat])
    as (_ & H).
  destruct H as (_ & H).
  - intros it Hit. assert (Hcases : it = 0 \/ it = 1) by (simpl in Hit; lia).
    destruct Hcases as [-> | ->]; reflexivity.
  - apply H. vm_compute. lia.
Defined.

End MonoGcp.

(** ** More on the intrinsics to float *)

Section IntrinsicsMore.

Import BundleAdjustCamera2.
Local Open Scope Z_scope.

Lemma array_get_ext_gen {A : Type} (d : A) (l1 l2 : list A) :
  List.length l1 = List.length l2 ->
  (forall j, 0 <= j < Z.of_nat (List.length l1) -> array_get d l1 j = array_get d l2 j) ->
  l1 = l2.
Proof.
  intros Hlen Hget. apply (nth_ext l1 l2 d d Hlen).
  intros n Hn. specialize (Hget (Z.of_nat n) ltac:(lia)).
  unfold array_get in Hget.
  destruct (Z.ltb_spec (Z.of_nat n) 0); [lia |].
  rewrite Nat2Z.id in Hget. exact Hget.
Qed.

Lemma array_get_repeat {A : Type} (d x : A) (n : nat) (j : Z) :
  0 <= j < Z.of_nat n -> array_get d (repeat x n) j = x.
Proof.
  intros Hj. unfold array_get. destruct (Z.ltb_spec j 0); [lia |].
  apply nth_repeat_lt. lia.
Qed.

Lemma length_distribute_from (its : list Z) :
  forall v : list bool,
    List.length
      (fold_left (fun v sensor_id => array_set v sensor_id (array_get false v 0)) its v)
    = List.length v.
Proof.
  induction its as [| i its IH]; intros v; simpl; [reflexivity |].
  rewrite IH. apply length_array_set.
Qed.

Lemma distribute_get (b : bool) (m : nat) :
  forall (lo : Z) (v : list bool) (j : Z),
    0 <= lo ->
    array_get false v 0 = b ->
    0 <= j < Z.of_nat (List.length v) ->
    array_get false
      (fold_left (fun v sensor_id => array_set v sensor_id (array_get false v 0))
         (Zseq lo m) v) j
    = if (lo <=? j) && (j <? lo + Z.of_nat m) then b else array_get false v j.
Proof.
  induction m as [| m IH]; intros lo v j Hlo Hb Hj.
  - simpl fold_left. blia.
  - cbn [Zseq fold_left]. rewrite Hb.
    assert (Hb' : array_get false (array_set v lo b) 0 = b).
    { destruct (Z.eq_dec lo 0) as [-> | Hne].
      - rewrite array_get_set_same.
        destruct (Z.leb_spec 0 0); destruct (Z.ltb_spec 0 (Z.of_nat (List.length v)));
          cbn [andb]; try lia. reflexivity.
      - rewrite array_get_set_other by exact Hne. exact Hb. }
    rewrite IH by (rewrite ?length_array_set; lia || exact Hb').
    destruct (Z.eq_dec j lo) as [-> | Hne].
    + rewrite array_get_set_same.
      destruct (Z.leb_spec 0 lo); destruct (Z.ltb_spec lo (Z.of_nat (List.length v)));
        cbn [andb]; try lia.
      blia.
    + rewrite array_get_set_other by congruence. blia.
Qed.

(** The distribution loop on a vector of [max(num_sensors, 1)] entries
    makes every entry the entry 0. *)
Lemma distribute_uniform (n : Z) (b : bool) (rest : list bool) :
  0 <= n ->
  List.length (b :: rest) = Z.to_nat (Z.max n 1) ->
  distribute n (b :: rest) = repeat b (Z.to_nat (Z.max n 1)).
Proof.
  intros Hn Hlen. unfold distribute. apply (array_get_ext_gen false).
  - rewrite length_distribute_from, repeat_length. exact Hlen.
  - intros j Hj. rewrite length_distribute_from in Hj.
    unfold Zrange. rewrite (distribute_get b) by (lia || reflexivity || exact Hj).
    rewrite array_get_repeat by lia.
    destruct ((0 <=? j) && (j <? 0 + Z.of_nat (Z.to_nat (n - 0)))) eqn:Hin;
      [reflexivity |].
    assert (Hj0 : j = 0).
    { rewrite Hlen in Hj. apply andb_false_iff in Hin.
      destruct Hin as [Hin | Hin]; [apply Z.leb_gt in Hin | apply Z.ltb_ge in Hin]; lia. }
    subst j. reflexivity.
Qed.

Lemma coarse_grained_loop_closed (option0 : string) (options : list string) :
  is_str_non_neg_integer option0 = false ->
  forall (c f d : bool) (tc tf td : list bool),
    coarse_grained_loop option0 options (Masks (c :: tc) (f :: tf) (d :: td))
    = match find (fun o => negb (Spec.known_option o)) options with
      | Some o => Throw (Spec.unknown_option_error o)
      | None =>
          Ok (Masks ((c || Spec.asks_center options) :: tc)
                    ((f || Spec.asks_focus options) :: tf)
                    ((d || Spec.asks_distortion options) :: td))
      end.
Proof.
  intros Hstr. induction options as [| o options IH]; intros c f d tc tf td.
  - cbn. rewrite !orb_false_r. reflexivity.
  - cbn [coarse_grained_loop find]. rewrite Hstr.
    unfold apply_option, Spec.known_option, Spec.asks_center, Spec.asks_focus,
      Spec.asks_distortion.
    cbn [existsb float_center float_focus float_distortion].
    fold (Spec.asks_center options). fold (Spec.asks_focus options).
    fold (Spec.asks_distortion options).
    destruct (o =? "optical_center")%string eqn:H1.
    { apply String.eqb_eq in H1. subst o. cbn. rewrite IH.
      rewrite !orb_true_r. reflexivity. }
    destruct (o =? "focal_length")%string eqn:H2.
    { apply String.eqb_eq in H2. subst o. cbn. rewrite IH.
      rewrite !orb_true_r. reflexivity. }
    destruct (o =? "other_intrinsics")%string eqn:H3.
    { apply String.eqb_eq in H3. subst o. cbn. rewrite IH.
      rewrite !orb_true_r. reflexivity. }
    destruct (o =? "distortion")%string eqn:H4.
    { apply String.eqb_eq in H4. subst o. cbn. rewrite IH.
      rewrite !orb_true_r. reflexivity. }
    destruct (o =? "all")%string eqn:H5.
    { apply String.eqb_eq in H5. subst o. cbn. rewrite IH.
      rewrite !orb_true_r. reflexivity. }
    destruct (o =? "none")%string eqn:H6.
    { apply String.eqb_eq in H6. subst o. cbn. rewrite IH. reflexivity. }
    cbn. reflexivity.
Qed.

(** [coarse_grained_parse] in closed form. It throws for a negative
    number of sensors, then for a first option that is an integer, then for
    the first option that it does not know. Otherwise each of the three
    vectors has [max(num_sensors, 1)] entries that are all equal: true
    exactly when some option asks for that intrinsic or for "all". *)
Theorem coarse_grained_parse_closed_form :
  forall (n : Z) (options : list string),
    coarse_grained_parse n options
    = if n <? 0 then Throw (ArgumentErr "Cameras were not parsed correctly.")
      else if negb (List.length options =? 0)%nat
              && is_str_non_neg_integer (hd ""%string options)
      then Throw (ArgumentErr
                    "When parsing intrinsics to float, expecting a string, not an integer. Check your inputs.")
      else
        match find (fun o => negb (Spec.known_option o)) options with
        | Some o => Throw (Spec.unknown_option_error o)
        | None =>
            let size := Z.to_nat (Z.max n 1) in
            Ok (Masks (repeat (Spec.asks_center options) size)
                      (repeat (Spec.asks_focus options) size)
                      (repeat (Spec.asks_distortion options) size))
        end.
Proof.
  intros n options. unfold coarse_grained_parse.
  destruct (Z.ltb_spec n 0) as [Hneg | Hn]; [reflexivity |].
  unfold init_masks.
  assert (Hsize : exists k, Z.to_nat (Z.max n 1) = S k)
    by (exists (Z.to_nat (Z.max n 1) - 1)%nat; lia).
  destruct Hsize as [k Hk]. rewrite Hk. cbn [repeat].
  destruct options as [| o0 options].
  - cbn. rewrite !distribute_uniform
      by (lia || (rewrite Hk; simpl; now rewrite repeat_length)).
    rewrite Hk. reflexivity.
  - cbn [List.length Nat.eqb negb andb hd].
    destruct (is_str_non_neg_integer o0) eqn:Hint.
    + cbn [coarse_grained_loop]. rewrite Hint. reflexivity.
    + rewrite coarse_grained_loop_closed by exact Hint.
      destruct (find (fun o => negb (Spec.known_option o)) (o0 :: options));
        [reflexivity |].
      cbn [orb float_center float_focus float_distortion].
      rewrite !distribute_uniform
        by (lia || (rewrite Hk; simpl; now rewrite repeat_length)).
      rewrite Hk. reflexivity.
Qed.

(** The vectors agree at a sensor, and have the same sizes. *)
Local Abbreviation same_at m m' s :=
  (array_get false (float_center m') s = array_get false (float_center m) s
   /\ array_get false (float_focus m') s = array_get false (float_focus m) s
   /\ array_get false (float_distortion m') s = array_get false (float_distortion m) s).

Local Abbreviation same_sizes m m' :=
  (List.length (float_center m') = List.length (float_center m)
   /\ List.length (float_focus m') = List.length (float_focus m)
   /\ List.length (float_distortion m') = List.length (float_distortion m)).

Lemma apply_option_elsewhere (o : string) (sensor_id : Z) (m m' : float_masks) :
  apply_option o sensor_id m = Ok m' ->
  same_sizes m m' /\ forall s, s <> sensor_id -> same_at m m' s.
Proof.
  unfold apply_option.
  repeat match goal with
         | |- context [if ?c then _ else _] => destruct c
         end;
    intros H; try discriminate; injection H as <-;
    cbn [float_center float_focus float_distortion];
    rewrite ?length_array_set;
    (split;
     [ repeat split
     | intros s' Hs; rewrite ?array_get_set_other by congruence; repeat split ]).
Qed.

Lemma fine_grained_loop_inv (n : Z) (options : list string) :
  forall (sensor_id : Z) (seen_ids : list Z) (m0 m : float_masks),
    fine_grained_loop n options sensor_id seen_ids m0 = Ok m ->
    same_sizes m0 m
    /\ (forall s, s <> sensor_id -> ~ In s (Spec.named_sensors options) -> same_at m0 m s)
    /\ NoDup (Spec.named_sensors options)
    /\ (forall s, In s (Spec.named_sensors options) -> 0 <= s < n /\ ~ In s seen_ids).
Proof.
  induction options as [| o options IH]; intros sensor_id seen_ids m0 m Hok.
  - injection Hok as <-. split; [repeat split |].
    split; [intros s _ _; repeat split |]. split; [constructor |]. intros s [].
  - cbn [fine_grained_loop] in Hok. unfold Spec.named_sensors. cbn [filter].
    destruct (is_str_non_neg_integer o) eqn:Hint.
    + fold (Spec.named_sensors options). cbn [map].
      destruct ((atoi o - 1 <? 0) || (atoi o - 1 >=? n)) eqn:Hrange; [discriminate |].
      destruct (existsb (Z.eqb (atoi o - 1)) seen_ids) eqn:Hseen; [discriminate |].
      apply IH in Hok. destruct Hok as (Hsizes & Hsame & Hnodup & Hnamed).
      split; [exact Hsizes |]. split; [| split].
      * intros s Hs Hnot. apply Hsame.
        -- intros ->. apply Hnot. left. reflexivity.
        -- intros Hin. apply Hnot. right. exact Hin.
      * constructor; [| exact Hnodup].
        intros Hin. apply Hnamed in Hin. destruct Hin as [_ Hin].
        apply Hin. left. reflexivity.
      * intros s [<- | Hin].
        -- split; [lia |]. intros Hin.
           assert (Hex : existsb (Z.eqb (atoi o - 1)) seen_ids = true).
           { apply existsb_exists. exists (atoi o - 1). split; [exact Hin |].
             apply Z.eqb_refl. }
           congruence.
        -- apply Hnamed in Hin. destruct Hin as [Hr Hin]. split; [exact Hr |].
           intros Hs. apply Hin. right. exact Hs.
    + fold (Spec.named_sensors options).
      destruct (apply_option o sensor_id m0) as [m1 | e] eqn:Hopt; [| discriminate].
      apply apply_option_elsewhere in Hopt. destruct Hopt as (Hsizes1 & Hsame1).
      apply IH in Hok. destruct Hok as (Hsizes & Hsame & Hnodup & Hnamed).
      split; [| split; [| split]].
      * destruct Hsizes as (H1 & H2 & H3). destruct Hsizes1 as (H1' & H2' & H3').
        repeat split; congruence.
      * intros s Hs Hnot. destruct (Hsame s Hs Hnot) as (H1 & H2 & H3).
        destruct (Hsame1 s Hs) as (H1' & H2' & H3'). repeat split; congruence.
      * exact Hnodup.
      * exact Hnamed.
Qed.



End IntrinsicsMore.

(** ** The limits of the intrinsics and the sizes of the distortion *)

Section LimitsAndSizes.

Import BundleAdjustCamera2.
Local Open Scope Z_scope.

Lemma pair_induction {A : Type} (P : list A -> Prop) :
  P [] -> (forall a, P [a]) -> (forall a b rest, P rest -> P (a :: b :: rest)) ->
  forall l, P l.
Proof.
  intros H0 H1 H2.
  assert (H : forall l, P l /\ forall a, P (a :: l)).
  { induction l as [| x l [IHl IHx]]; split.
    - exact H0.
    - exact H1.
    - apply IHx.
    - intros a. apply H2. exact IHl. }
  intros l. apply H.
Qed.

Lemma array_get_app_last {A : Type} (d : A) (l : list A) (x : A) :
  array_get d (l ++ [x]) (Z.of_nat (List.length l)) = x.
Proof.
  unfold array_get. destruct (Z.ltb_spec (Z.of_nat (List.length l)) 0); [lia |].
  rewrite Nat2Z.id, app_nth2 by lia. rewrite Nat.sub_diag. reflexivity.
Qed.

Lemma limits_loop_pairs (vals : list double) :
  forall (acc : list double) (k : Z),
    Z.of_nat (List.length acc) = 2 * k ->
    limits_loop vals acc (2 * k)
    = if Spec.pairs_in_order vals
      then Ret (2 * k + Z.of_nat (List.length vals)) (acc ++ vals)
      else Raise (ArgumentErr "Error: Intrinsic limit pairs must be min before max.")
             (acc ++ Spec.through_first_bad_pair vals).
Proof.
  induction vals as [| a | a b rest IH] using pair_induction; intros acc k Hk;
    unfold double in *.
  - cbn. rewrite app_nil_r, Z.add_0_r. reflexivity.
  - cbn [limits_loop Spec.pairs_in_order List.length].
    replace (Z.rem (2 * k) 2 =? 1) with false
      by (symmetry; apply Z.eqb_neq; rewrite Z.mul_comm, Z.rem_mul by lia; lia).
    cbn [andb]. f_equal; lia.
  - cbn [limits_loop Spec.pairs_in_order Spec.through_first_bad_pair].
    replace (Z.rem (2 * k) 2 =? 1) with false
      by (symmetry; apply Z.eqb_neq; rewrite Z.mul_comm, Z.rem_mul by lia; lia).
    cbn [andb].
    assert (Hodd : Z.rem (2 * k + 1) 2 = 1).
    { rewrite Z.rem_mod_nonneg by lia.
      rewrite Z.add_comm, Z.mul_comm, Z.mod_add by lia. reflexivity. }
    rewrite Hodd, Z.eqb_refl. cbn [andb].
    replace (2 * k + 1 - 1) with (Z.of_nat (List.length acc)) by lia.
    replace (2 * k + 1) with (Z.of_nat (List.length (acc ++ [a]))) at 1
      by (rewrite length_app; cbn [List.length]; lia).
    rewrite array_get_app_last.
    assert (Ha : array_get 0%Q ((acc ++ [a]) ++ [b]) (Z.of_nat (List.length acc)) = a).
    { rewrite <- app_assoc. unfold array_get.
      destruct (Z.ltb_spec (Z.of_nat (List.length acc)) 0); [lia |].
      rewrite Nat2Z.id, app_nth2 by lia. rewrite Nat.sub_diag. reflexivity. }
    unfold double in *. rewrite Ha. destruct (Qle_bool a b); cbn [negb andb].
    + replace (2 * k + 1 + 1) with (2 * (k + 1)) by lia.
      rewrite IH by (rewrite !length_app; cbn [List.length]; lia).
      rewrite <- !app_assoc. cbn [app List.length].
      destruct (Spec.pairs_in_order rest); [| reflexivity].
      f_equal; lia.
    + rewrite <- app_assoc. reflexivity.
Qed.

(** [parse_intrinsics_limits] in closed form, on the values read. With
    a pair whose maximum is below its minimum it throws at the first such
    pair, and the output holds the values up to that pair. Otherwise, with an
    odd number of values it throws, the output holding all the values, and
    with an even number it returns them all (none, for an empty string). *)
Theorem parse_intrinsics_limits_closed_form :
  forall vals : list double,
    parse_intrinsics_limits vals
    = if Spec.pairs_in_order vals then
        if Nat.even (List.length vals) then Ret tt vals
        else
          Raise (ArgumentErr
                   "Error: Intrinsic limits must always be provided in min max pairs.")
            vals
      else
        Raise (ArgumentErr "Error: Intrinsic limit pairs must be min before max.")
          (Spec.through_first_bad_pair vals).
Proof.
  intros vals. unfold parse_intrinsics_limits.
  change 0 with (2 * 0) at 1. rewrite limits_loop_pairs by reflexivity.
  cbn [app]. destruct (Spec.pairs_in_order vals); [| reflexivity].
  rewrite Z.mul_0_r, Z.add_0_l.
  rewrite Z.rem_mod_nonneg by lia.
  destruct (Nat.even (List.length vals)) eqn:Heven.
  - apply Nat.even_spec in Heven. destruct Heven as [h Hh].
    replace (Z.of_nat (List.length vals)) with (Z.of_nat h * 2) by lia.
    rewrite Z.mod_mul by lia. reflexivity.
  - assert (Hodd : Nat.odd (List.length vals) = true)
      by (rewrite <- Nat.negb_even, Heven; reflexivity).
    apply Nat.odd_spec in Hodd. destruct Hodd as [h Hh].
    replace (Z.of_nat (List.length vals)) with (1 + Z.of_nat h * 2) by lia.
    rewrite Z.mod_add by lia. reflexivity.
Qed.

Lemma forallb_from (x : Z) (rest : list Z) :
  forall pre : list Z,
    forallb (fun it => array_get 0 (pre ++ rest) it =? x)
      (Zseq (Z.of_nat (List.length pre)) (List.length rest))
    = forallb (fun y => y =? x) rest.
Proof.
  induction rest as [| y rest IH]; intros pre; [reflexivity |].
  cbn [List.length Zseq forallb]. f_equal.
  - unfold array_get. destruct (Z.ltb_spec (Z.of_nat (List.length pre)) 0); [lia |].
    rewrite Nat2Z.id, app_nth2 by lia. rewrite Nat.sub_diag. reflexivity.
  - replace (pre ++ y :: rest) with ((pre ++ [y]) ++ rest)
      by (rewrite <- app_assoc; reflexivity).
    replace (Z.of_nat (List.length pre) + 1) with (Z.of_nat (List.length (pre ++ [y])))
      by (rewrite length_app; cbn [List.length]; lia).
    apply IH.
Qed.

Lemma have_same_size_all_equal (num_dist_params : list Z) :
  have_same_size num_dist_params = Spec.all_equal num_dist_params.
Proof.
  unfold have_same_size. destruct num_dist_params as [| x rest]; [reflexivity |].
  cbn [Spec.all_equal List.length]. unfold Zrange.
  replace (Z.to_nat (Z.of_nat (S (List.length rest)) - 1)) with (List.length rest) by lia.
  change (array_get 0 (x :: rest) 0) with x.
  apply (forallb_from x rest [x]).
Qed.

Lemma set_insert_grows (l : list Z) :
  forall s : list Z,
    (List.length s <= List.length (fold_left (fun s x => set_insert x s) l s))%nat.
Proof.
  induction l as [| y l IH]; intros s; [apply le_n |].
  cbn [fold_left]. etransitivity; [| apply IH].
  unfold set_insert. destruct (existsb (Z.eqb y) s); [apply le_n |].
  rewrite length_app. cbn [List.length]. lia.
Qed.

Lemma set_of_one (x : Z) (l : list Z) :
  (List.length (fold_left (fun s y => set_insert y s) l [x]) =? 1)%nat
  = forallb (fun y => y =? x) l.
Proof.
  induction l as [| y l IH]; [reflexivity |].
  cbn [fold_left forallb]. unfold set_insert at 2. cbn [existsb].
  rewrite orb_false_r. destruct (Z.eqb_spec y x) as [-> | Hne].
  - cbn [andb]. exact IH.
  - cbn [andb app].
    pose proof (set_insert_grows l [x; y]) as Hgrow. cbn [List.length] in Hgrow.
    apply Nat.eqb_neq. lia.
Qed.

Lemma length_set_of (sizes : list Z) :
  (List.length (Spec.set_of sizes) =? 1)%nat = Spec.one_size sizes.
Proof.
  unfold Spec.set_of, Spec.one_size. destruct sizes as [| x l]; [reflexivity |].
  cbn [fold_left List.length Nat.eqb negb andb Spec.all_equal].
  unfold set_insert at 2. cbn [existsb app]. apply set_of_one.
Qed.

Lemma repeat_map_Zseq {A : Type} (x : A) (f : Z -> A) (k : nat) :
  (forall s, f s = x) -> forall lo, repeat x k = map f (Zseq lo k).
Proof.
  intros Hf. induction k as [| k IH]; intros lo; [reflexivity |].
  cbn [repeat Zseq map]. rewrite Hf. f_equal. apply IH.
Qed.

(** The sizes found for each sensor, when every camera has a sensor. *)
Lemma dist_sizes_from (num_dist_params cam2sensor : list Z) (n : nat)
    (cams : list Z) :
  (forall cam, In cam cams -> 0 <= array_get 0 cam2sensor cam < Z.of_nat n) ->
  forall pre : list Z,
    fold_left
      (fun dist_sizes cam_it =>
         let sensor_it := array_get 0 cam2sensor cam_it in
         array_set dist_sizes sensor_it
           (set_insert (array_get 0 num_dist_params cam_it)
              (array_get [] dist_sizes sensor_it)))
      cams
      (map (fun s =>
              Spec.set_of
                (map (array_get 0 num_dist_params)
                   (filter (fun cam => array_get 0 cam2sensor cam =? s) pre)))
         (Zseq 0 n))
    = map (fun s =>
             Spec.set_of
               (map (array_get 0 num_dist_params)
                  (filter (fun cam => array_get 0 cam2sensor cam =? s) (pre ++ cams))))
        (Zseq 0 n).
Proof.
  induction cams as [| cam cams IH]; intros Hin pre.
  - cbn [fold_left]. now rewrite app_nil_r.
  - cbn [fold_left]. cbv zeta.
    assert (Hs : 0 <= array_get 0 cam2sensor cam < Z.of_nat n)
      by (apply Hin; left; reflexivity).
    rewrite array_get_map_Zseq by exact Hs.
    rewrite array_set_map_Zseq by exact Hs.
    replace (pre ++ cam :: cams) with ((pre ++ [cam]) ++ cams)
      by (rewrite <- app_assoc; reflexivity).
    rewrite <- IH by (intros c Hc; apply Hin; right; exact Hc).
    f_equal. apply map_ext. intros s.
    rewrite filter_app, map_app. unfold Spec.set_of. rewrite fold_left_app.
    cbn [filter]. rewrite Z.add_0_l.
    destruct (Z.eqb_spec s (array_get 0 cam2sensor cam)) as [-> | Hne].
    + rewrite Z.eqb_refl. reflexivity.
    + destruct (Z.eqb_spec (array_get 0 cam2sensor cam) s); [congruence |].
      reflexivity.
Qed.

(** [distortion_sanity_check] in closed form, when every camera has one
    of the sensors. Without sharing per sensor, a shared distortion needs
    distortion vectors of one size. With sharing per sensor, every sensor
    needs at least one camera, and cameras of one size: a sensor without
    cameras makes the check throw. Limits of the intrinsics need distortion
    vectors of one size. The three checks are made in this order. *)
Theorem distortion_sanity_check_closed_form :
  forall (num_dist_params : list Z) (share_per_sensor distortion_shared : bool)
         (num_sensors : Z) (cam2sensor : list Z) (intrinsics_limits : list double),
    0 <= num_sensors ->
    (forall cam, 0 <= cam < Z.of_nat (List.length num_dist_params) ->
                 0 <= array_get 0 cam2sensor cam < num_sensors) ->
    distortion_sanity_check num_dist_params share_per_sensor distortion_shared
      num_sensors cam2sensor intrinsics_limits
    = if negb share_per_sensor && distortion_shared
         && negb (Spec.all_equal num_dist_params)
      then
        Throw (ArgumentErr
                 "When sharing distortion parameters, they must have the same size.")
      else if share_per_sensor
              && negb (forallb
                         (fun sensor =>
                            Spec.one_size
                              (Spec.sizes_of num_dist_params cam2sensor sensor))
                         (Zrange 0 num_sensors))
      then
        Throw (ArgumentErr
                 "When sharing distortion parameters per sensor, they must have the same size for all cameras of the same sensor.")
      else if negb (List.length intrinsics_limits =? 0)%nat
              && negb (Spec.all_equal num_dist_params)
      then
        Throw (ArgumentErr
                 "When using --intrinsics-limits, all cameras must have the same number of distortion coefficients.")
      else Ok tt.
Proof.
  intros num_dist_params share_per_sensor distortion_shared num_sensors cam2sensor
         intrinsics_limits Hn Hsensors.
  unfold distortion_sanity_check. rewrite have_same_size_all_equal.
  assert (Hsizes :
    forallb
      (fun sensor_it =>
         (List.length
            (array_get [] (dist_sizes num_dist_params num_sensors cam2sensor) sensor_it)
          =? 1)%nat)
      (Zrange 0 num_sensors)
    = forallb
        (fun sensor => Spec.one_size (Spec.sizes_of num_dist_params cam2sensor sensor))
        (Zrange 0 num_sensors)).
  { unfold dist_sizes.
    assert (Hinit : repeat [] (Z.to_nat num_sensors)
                    = map (fun s =>
                             Spec.set_of
                               (map (array_get 0 num_dist_params)
                                  (filter (fun cam => array_get 0 cam2sensor cam =? s) [])))
                        (Zseq 0 (Z.to_nat num_sensors))).
    { apply repeat_map_Zseq. reflexivity. }
    rewrite Hinit, dist_sizes_from.
    2: { intros cam Hcam. apply In_Zrange in Hcam. rewrite Z2Nat.id by lia.
         apply Hsensors. exact Hcam. }
    cbn [app].
    assert (Hext : forall (f g : Z -> bool) (l : list Z),
              (forall s, In s l -> f s = g s) -> forallb f l = forallb g l).
    { intros f g l. induction l as [| y l IHl]; intros Hfg; [reflexivity |].
      cbn [forallb]. rewrite (Hfg y) by (left; reflexivity).
      rewrite IHl by (intros s Hs; apply Hfg; right; exact Hs). reflexivity. }
    apply Hext. intros s Hs. apply In_Zrange in Hs.
    rewrite array_get_map_Zseq by lia. rewrite Z.add_0_l.
    apply length_set_of. }
  rewrite Hsizes. reflexivity.
Qed.

Lemma distortion_sanity_check_closed_form_witness :
  distortion_sanity_check [5; 5; 8] true true 2 [0; 0; 1] [] = Ok tt
  /\ distortion_sanity_check [5; 5; 8] true true 3 [0; 0; 1] []
     = Throw (ArgumentErr
                "When sharing distortion parameters per sensor, they must have the same size for all cameras of the same sensor.").
Proof.
  split.
  - rewrite (distortion_sanity_check_closed_form [5; 5; 8] true true 2 [0; 0; 1] []).
    + reflexivity.
    + lia.
    + intros cam Hcam. assert (H : cam = 0 \/ cam = 1 \/ cam = 2) by (simpl in Hcam; lia).
      destruct H as [-> | [-> | ->]]; vm_compute; split; congruence.
  - rewrite (distortion_sanity_check_closed_form [5; 5; 8] true true 3 [0; 0; 1] []).
    + reflexivity.
    + lia.
    + intros cam Hcam. assert (H : cam = 0 \/ cam = 1 \/ cam = 2) by (simpl in Hcam; lia).
      destruct H as [-> | [-> | ->]]; vm_compute; split; congruence.
Defined.

Lemma length_split_loop_comma (str : string) :
  forall cur, (1 <= List.length (split_loop_comma str cur))%nat.
Proof.
  induction str as [| c str IH]; intros cur; cbn [split_loop_comma].
  - apply le_n.
  - destruct (Ascii.eqb c ","%char); [cbn [List.length]; lia | apply IH].
Qed.

Lemma read_sensor_lists_ret (read_list : string -> list string)
    (lists : list (Z * (string * string))) :
  forall (imgs cams : list string) (c2s : list Z)
         (images cameras : list string) (c2s' : list Z),
    read_sensor_lists read_list lists imgs cams c2s = Ret (images, cameras) c2s' ->
    images = imgs ++ flat_map (fun e => read_list (fst (snd e))) lists
    /\ cameras = cams ++ flat_map (fun e => read_list (snd (snd e))) lists
    /\ c2s' = c2s
              ++ flat_map
                   (fun e => repeat (fst e) (List.length (read_list (snd (snd e)))))
                   lists
    /\ List.length (flat_map (fun e => read_list (fst (snd e))) lists)
       = List.length (flat_map (fun e => read_list (snd (snd e))) lists)
    /\ List.length
         (flat_map (fun e => repeat (fst e) (List.length (read_list (snd (snd e)))))
            lists)
       = List.length (flat_map (fun e => read_list (snd (snd e))) lists)
    /\ Forall (fun e => (1 <= List.length (read_list (snd (snd e))))%nat) lists.
Proof.
  induction lists as [| [s [il cl]] lists IH];
    intros imgs cams c2s images cameras c2s' Hret.
  - cbn in Hret. injection Hret as <- <- <-. cbn. rewrite !app_nil_r.
    repeat split. constructor.
  - cbn [read_sensor_lists] in Hret.
    destruct (Nat.eqb_spec (List.length (read_list il)) (List.length (read_list cl)))
      as [Heq | Hne]; cbn [negb orb] in Hret; [| discriminate].
    destruct (Nat.eqb_spec (List.length (read_list il)) 0) as [H0 | Hpos];
      [discriminate |].
    apply IH in Hret. destruct Hret as (-> & -> & -> & Hl1 & Hl2 & Hall).
    cbn [flat_map fst snd]. rewrite <- !app_assoc, !length_app, repeat_length.
    repeat split; try lia. constructor; [cbn [snd]; lia | exact Hall].
Qed.

Lemma in_combine_exists {A B : Type} (l1 : list A) :
  forall (l2 : list B) (x : A),
    List.length l1 = List.length l2 -> In x l1 -> exists y, In (x, y) (combine l1 l2).
Proof.
  induction l1 as [| a l1 IH]; intros l2 x Hlen Hin; [destruct Hin |].
  destruct l2 as [| b l2]; [discriminate |].
  destruct Hin as [-> | Hin].
  - exists b. left. reflexivity.
  - destruct (IH l2 x) as [y Hy]; [simpl in Hlen; lia | exact Hin |].
    exists y. right. exact Hy.
Qed.

Lemma flat_map_combine_fst {A B C : Type} (f : A -> list C) (l1 : list A) :
  forall l2 : list B,
    List.length l1 = List.length l2 ->
    flat_map (fun e => f (fst e)) (combine l1 l2) = flat_map f l1.
Proof.
  induction l1 as [| a l1 IH]; intros [| b l2] Hlen; try discriminate; [reflexivity |].
  cbn [combine flat_map fst]. rewrite IH by (simpl in Hlen; lia). reflexivity.
Qed.

Lemma flat_map_combine_snd {A B C : Type} (f : B -> list C) (l1 : list A) :
  forall l2 : list B,
    List.length l1 = List.length l2 ->
    flat_map (fun e => f (snd e)) (combine l1 l2) = flat_map f l2.
Proof.
  induction l1 as [| a l1 IH]; intros [| b l2] Hlen; try discriminate; [reflexivity |].
  cbn [combine flat_map snd]. rewrite IH by (simpl in Hlen; lia). reflexivity.
Qed.

(** What [read_image_cam_lists] returns. With single lists nothing is
    shared per sensor, there is no sensor and no map from cameras to sensors.
    With lists separated by commas the intrinsics are shared per sensor, there
    is one sensor per list and at least one, the output holds all the images
    and then as many cameras, the map from cameras to sensors has one entry
    per camera, each entry is a sensor, and every sensor has a camera. *)
Theorem read_image_cam_lists_sensors :
  forall (read_list : string -> list string) (image_list camera_list : string)
         (r : image_cam_lists),
    read_image_cam_lists read_list image_list camera_list = Ret tt r ->
    (lists_share_intrinsics_per_sensor r = false ->
     lists_num_sensors r = 0 /\ cam2sensor r = []
     /\ images_or_cams r
        = read_list image_list
          ++ (if (camera_list =? "")%string then [] else read_list camera_list))
    /\ (lists_share_intrinsics_per_sensor r = true ->
        lists_num_sensors r = Z.of_nat (List.length (split_at_commas image_list))
        /\ 1 <= lists_num_sensors r
        /\ images_or_cams r
           = flat_map read_list (split_at_commas image_list)
             ++ flat_map read_list (split_at_commas camera_list)
        /\ List.length (images_or_cams r) = (2 * List.length (cam2sensor r))%nat
        /\ (forall s, In s (cam2sensor r) -> 0 <= s < lists_num_sensors r)
        /\ (forall s, 0 <= s < lists_num_sensors r -> In s (cam2sensor r))).
Proof.
  intros read_list image_list camera_list r. unfold read_image_cam_lists.
  destruct (negb (has_comma image_list) && negb (has_comma camera_list)).
  - destruct (camera_list =? "")%string.
    + intros H. injection H as <-. cbn. rewrite app_nil_r.
      split; [intros _; repeat split | discriminate].
    + destruct (negb (List.length (read_list image_list)
                      =? List.length (read_list camera_list))%nat); [discriminate |].
      intros H. injection H as <-. cbn.
      split; [intros _; repeat split | discriminate].
  - destruct (Nat.eqb_spec (List.length (split_at_commas image_list))
                (List.length (split_at_commas camera_list))) as [Hlists | Hne];
      cbn [negb]; [| discriminate].
    set (n := List.length (split_at_commas image_list)) in *.
    destruct (read_sensor_lists read_list _ [] [] []) as [[images cameras] c2s | e c2s]
      eqn:Hread; [| discriminate].
    intros H. injection H as <-.
    cbn [lists_share_intrinsics_per_sensor lists_num_sensors cam2sensor images_or_cams].
    split; [discriminate |]. intros _.
    apply read_sensor_lists_ret in Hread.
    destruct Hread as (-> & -> & -> & Hl1 & Hl2 & Hall). cbn [app] in *.
    assert (Hn : (1 <= n)%nat) by apply length_split_loop_comma.
    assert (Hzr : List.length (Zrange 0 (Z.of_nat n)) = n) by apply length_Zrange_0.
    assert (Hpairs : List.length (combine (split_at_commas image_list)
                                    (split_at_commas camera_list)) = n).
    { rewrite length_combine. fold n. rewrite <- Hlists. apply Nat.min_id. }
    split; [reflexivity |]. split; [lia |]. split; [| split; [| split]].
    + f_equal.
      * rewrite (flat_map_combine_snd (fun p : string * string => read_list (fst p)))
          by lia.
        apply flat_map_combine_fst. exact Hlists.
      * rewrite (flat_map_combine_snd (fun p : string * string => read_list (snd p)))
          by lia.
        apply flat_map_combine_snd. exact Hlists.
    + rewrite length_app. lia.
    + intros s Hs. apply in_flat_map in Hs. destruct Hs as ([s' p] & Hin & Hrep).
      apply repeat_spec in Hrep. cbn [fst] in Hrep. subst s.
      apply in_combine_l, In_Zrange in Hin. exact Hin.
    + intros s Hs.
      destruct (in_combine_exists (Zrange 0 (Z.of_nat n))
                  (combine (split_at_commas image_list) (split_at_commas camera_list))
                  s ltac:(lia) ltac:(apply In_Zrange; exact Hs)) as [p Hp].
      apply in_flat_map. exists (s, p). split; [exact Hp |].
      rewrite Forall_forall in Hall. specialize (Hall _ Hp). cbn [fst snd] in *.
      destruct (List.length (read_list (snd p))); [lia | left; reflexivity].
Qed.

Lemma read_image_cam_lists_sensors_witness :
  read_image_cam_lists Fixtures.two_names "a,b" "c,d" = Ret tt Fixtures.two_sensor_lists
  /\ (forall s, 0 <= s < 2 -> In s [0; 0; 1; 1]).
Proof.
  assert (Hread : read_image_cam_lists Fixtures.two_names "a,b" "c,d"
                  = Ret tt Fixtures.two_sensor_lists) by (vm_compute; reflexivity).
  split; [exact Hread |].
  destruct (read_image_cam_lists_sensors Fixtures.two_names "a,b" "c,d" _ Hread)
    as [_ H].
  destruct (H eq_refl) as (_ & _ & _ & _ & _ & Hall). exact Hall.
Defined.

(** The two functions together. With the map from cameras to sensors
    that [read_image_cam_lists] gives for lists separated by commas, and one
    distortion size per camera, the check of the sizes per sensor has no
    sensor without cameras to stumble on: it passes exactly when the cameras
    of each sensor have one size (and, with limits of the intrinsics, all
    cameras have one size). *)
Theorem sizes_checked_per_sensor :
  forall (read_list : string -> list string) (image_list camera_list : string)
         (r : image_cam_lists) (num_dist_params : list Z) (distortion_shared : bool)
         (intrinsics_limits : list double),
    read_image_cam_lists read_list image_list camera_list = Ret tt r ->
    lists_share_intrinsics_per_sensor r = true ->
    List.length num_dist_params = List.length (cam2sensor r) ->
    distortion_sanity_check num_dist_params true distortion_shared
      (lists_num_sensors r) (cam2sensor r) intrinsics_limits
    = if negb (forallb
                 (fun sensor =>
                    Spec.all_equal
                      (Spec.sizes_of num_dist_params (cam2sensor r) sensor))
                 (Zrange 0 (lists_num_sensors r)))
      then
        Throw (ArgumentErr
                 "When sharing distortion parameters per sensor, they must have the same size for all cameras of the same sensor.")
      else if negb (List.length intrinsics_limits =? 0)%nat
              && negb (Spec.all_equal num_dist_params)
      then
        Throw (ArgumentErr
                 "When using --intrinsics-limits, all cameras must have the same number of distortion coefficients.")
      else Ok tt.
Proof.
  intros read_list image_list camera_list r num_dist_params distortion_shared
         intrinsics_limits Hread Hshare Hlen.
  destruct (read_image_cam_lists_sensors read_list image_list camera_list r Hread)
    as [_ H].
  destruct (H Hshare) as (_ & Hn & _ & _ & Hrange & Hall).
  assert (Hget : forall cam, 0 <= cam < Z.of_nat (List.length num_dist_params) ->
                             In (array_get 0 (cam2sensor r) cam) (cam2sensor r)).
  { intros cam Hcam. unfold array_get.
    destruct (Z.ltb_spec cam 0); [lia |]. apply nth_In. lia. }
  rewrite distortion_sanity_check_closed_form;
    [| lia | intros cam Hcam; apply Hrange, Hget; exact Hcam].
  cbn [negb andb].
  assert (Hsame :
    forallb
      (fun sensor => Spec.one_size (Spec.sizes_of num_dist_params (cam2sensor r) sensor))
      (Zrange 0 (lists_num_sensors r))
    = forallb
        (fun sensor =>
           Spec.all_equal (Spec.sizes_of num_dist_params (cam2sensor r) sensor))
        (Zrange 0 (lists_num_sensors r))).
  { assert (Hext : forall (f g : Z -> bool) (l : list Z),
              (forall s, In s l -> f s = g s) -> forallb f l = forallb g l).
    { intros f g l. induction l as [| y l IHl]; intros Hfg; [reflexivity |].
      cbn [forallb]. rewrite (Hfg y) by (left; reflexivity).
      rewrite IHl by (intros s Hs; apply Hfg; right; exact Hs). reflexivity. }
    apply Hext. intros s Hs. apply In_Zrange in Hs. unfold Spec.one_size.
    specialize (Hall s Hs). apply In_nth with (d := 0) in Hall.
    destruct Hall as (k & Hk & Hnth).
    assert (Hin : In (Z.of_nat k)
                    (Spec.cameras_of (cam2sensor r)
                       (Z.of_nat (List.length num_dist_params)) s)).
    { unfold Spec.cameras_of. apply filter_In. split.
      - apply In_Zrange. lia.
      - unfold array_get. destruct (Z.ltb_spec (Z.of_nat k) 0); [lia |].
        rewrite Nat2Z.id, Hnth. apply Z.eqb_refl. }
    unfold Spec.sizes_of.
    destruct (Spec.cameras_of (cam2sensor r)
                (Z.of_nat (List.length num_dist_params)) s); [destruct Hin |].
    reflexivity. }
  rewrite Hsame. reflexivity.
Qed.

Lemma sizes_checked_per_sensor_witness :
  distortion_sanity_check [5; 5; 8; 8] true true 2 [0; 0; 1; 1] [] = Ok tt
  /\ distortion_sanity_check [5; 6; 8; 8] true true 2 [0; 0; 1; 1] []
     = Throw (ArgumentErr
                "When sharing distortion parameters per sensor, they must have the same size for all cameras of the same sensor.").
Proof.
  assert (Hread : read_image_cam_lists Fixtures.two_names "a,b" "c,d"
                  = Ret tt Fixtures.two_sensor_lists) by (vm_compute; reflexivity).
  split.
  - exact (sizes_checked_per_sensor Fixtures.two_names "a,b" "c,d"
             Fixtures.two_sensor_lists [5; 5; 8; 8] true [] Hread eq_refl eq_refl).
  - exact (sizes_checked_per_sensor Fixtures.two_names "a,b" "c,d"
             Fixtures.two_sensor_lists [5; 6; 8; 8] true [] Hread eq_refl eq_refl).
Defined.

End LimitsAndSizes.

(** ** More on the center of the cloud *)

Section CloudCenterMore.

Import StereoTri.
Local Open Scope Z_scope.

Lemma NoDup_Zseq (n : nat) : forall lo, NoDup (Zseq lo n).
Proof.
  induction n as [| n IH]; intros lo; cbn [Zseq]; constructor.
  - rewrite In_Zseq. lia.
  - apply IH.
Qed.

Lemma NoDup_flat_map_keyed {A B : Type} (f : A -> list B) (key : B -> A) (l : list A) :
  NoDup l ->
  (forall a, In a l -> NoDup (f a)) ->
  (forall a b, In a l -> In b (f a) -> key b = a) ->
  NoDup (flat_map f l).
Proof.
  induction l as [| a l IH]; intros Hl Hf Hkey; cbn [flat_map]; [constructor |].
  inversion Hl as [| ? ? Hnotin Hl']; subst.
  apply NoDup_app.
  - apply Hf. left. reflexivity.
  - apply IH; [exact Hl' | |].
    + intros a' Ha'. apply Hf. right. exact Ha'.
    + intros a' b Ha' Hb. apply Hkey; [right; exact Ha' | exact Hb].
  - intros b Hb Hb'. apply in_flat_map in Hb'. destruct Hb' as (a' & Ha' & Hb').
    apply Hnotin.
    rewrite <- (Hkey a b (or_introl eq_refl) Hb).
    rewrite (Hkey a' b (or_intror Ha') Hb'). exact Ha'.
Qed.

Lemma In_ring_tiles (numx numy r x y : Z) :
  In (x, y) (Spec.ring_tiles numx numy r)
  <-> (Z.quot numx 2 - r <= x <= Z.quot numx 2 + r
       /\ Z.quot numy 2 - r <= y <= Z.quot numy 2 + r
       /\ Spec.tile_visited numx numy r x y = true).
Proof.
  unfold Spec.ring_tiles. rewrite in_flat_map. split.
  - intros (x' & Hx' & Hin). apply in_flat_map in Hin. destruct Hin as (y' & Hy' & Hin).
    apply In_Zrange in Hx', Hy'.
    destruct (Spec.tile_visited numx numy r x' y') eqn:Hv; [| destruct Hin].
    destruct Hin as [Heq | []]. injection Heq as <- <-.
    repeat split; try lia. exact Hv.
  - intros (Hx & Hy & Hv). exists x. split; [apply In_Zrange; lia |].
    apply in_flat_map. exists y. split; [apply In_Zrange; lia |].
    rewrite Hv. left. reflexivity.
Qed.

Lemma NoDup_ring_tiles (numx numy r : Z) : NoDup (Spec.ring_tiles numx numy r).
Proof.
  unfold Spec.ring_tiles.
  apply (NoDup_flat_map_keyed _ fst); [apply NoDup_Zseq | |].
  - intros x _. apply (NoDup_flat_map_keyed _ snd); [apply NoDup_Zseq | |].
    + intros y _. destruct (Spec.tile_visited numx numy r x y); repeat constructor.
      intros [].
    + intros y b _ Hb. destruct (Spec.tile_visited numx numy r x y); [| destruct Hb].
      destruct Hb as [<- | []]. reflexivity.
  - intros x b _ Hb. apply in_flat_map in Hb. destruct Hb as (y & _ & Hb).
    destruct (Spec.tile_visited numx numy r x y); [| destruct Hb].
    destruct Hb as [<- | []]. reflexivity.
Qed.

(** The ring of a tile: its distance to the middle tile, in the
    maximum norm. *)
Lemma ring_of_tile (numx numy r x y : Z) :
  0 <= r ->
  Spec.tile_visited numx numy r x y = true ->
  Z.quot numx 2 - r <= x <= Z.quot numx 2 + r ->
  Z.quot numy 2 - r <= y <= Z.quot numy 2 + r ->
  Z.max (Z.abs (x - Z.quot numx 2)) (Z.abs (y - Z.quot numy 2)) = r.
Proof.
  intros Hr Hv Hx Hy. unfold Spec.tile_visited in Hv.
  apply andb_true_iff in Hv. destruct Hv as [Hedge _].
  apply negb_true_iff in Hedge.
  destruct (Z.eqb_spec x (Z.quot numx 2 - r)); [lia |].
  destruct (Z.eqb_spec x (Z.quot numx 2 + r)); [lia |].
  destruct (Z.eqb_spec y (Z.quot numy 2 - r)); [lia |].
  destruct (Z.eqb_spec y (Z.quot numy 2 + r)); [lia |].
  discriminate.
Qed.

Lemma half_bounds (n : Z) : 0 < n -> 0 <= Z.quot n 2 /\ n - 1 <= 2 * Z.quot n 2 <= n.
Proof.
  intros Hn. rewrite Z.quot_div_nonneg by lia.
  pose proof (Z.div_mod n 2 ltac:(lia)). pose proof (Z.mod_pos_bound n 2 ltac:(lia)).
  lia.
Qed.

(** The spiral visits every tile of the grid, and each tile once. *)
Lemma spiral_tiles_cover (numx numy : Z) :
  NoDup (Spec.spiral_tiles numx numy)
  /\ forall x y,
       In (x, y) (Spec.spiral_tiles numx numy) <-> (0 <= x < numx /\ 0 <= y < numy).
Proof.
  split.
  - unfold Spec.spiral_tiles.
    apply (NoDup_flat_map_keyed _
             (fun t => Z.max (Z.abs (fst t - Z.quot numx 2))
                             (Z.abs (snd t - Z.quot numy 2))));
      [apply NoDup_Zseq | intros r _; apply NoDup_ring_tiles |].
    intros r [x y] Hr Hin. apply In_Zrange in Hr. apply In_ring_tiles in Hin.
    destruct Hin as (Hx & Hy & Hv). cbn [fst snd].
    apply ring_of_tile; [lia | exact Hv | exact Hx | exact Hy].
  - intros x y. unfold Spec.spiral_tiles. rewrite in_flat_map. split.
    + intros (r & _ & Hin). apply In_ring_tiles in Hin. destruct Hin as (_ & _ & Hv).
      unfold Spec.tile_visited in Hv. apply andb_true_iff in Hv.
      destruct Hv as [_ Hgrid]. apply negb_true_iff in Hgrid.
      destruct (Z.ltb_spec x 0); [discriminate |].
      destruct (Z.ltb_spec y 0); [discriminate |].
      destruct (Z.geb_spec x numx); [rewrite ?orb_true_r in Hgrid; discriminate |].
      destruct (Z.geb_spec y numy); [rewrite ?orb_true_r in Hgrid; discriminate |].
      lia.
    + intros (Hx & Hy).
      pose proof (half_bounds numx ltac:(lia)) as Hhx.
      pose proof (half_bounds numy ltac:(lia)) as Hhy.
      exists (Z.max (Z.abs (x - Z.quot numx 2)) (Z.abs (y - Z.quot numy 2))).
      split; [apply In_Zrange; lia |].
      apply In_ring_tiles. split; [lia |]. split; [lia |].
      unfold Spec.tile_visited. apply andb_true_iff. split.
      * apply negb_true_iff.
        destruct (Z.eqb_spec x (Z.quot numx 2
                                - Z.max (Z.abs (x - Z.quot numx 2))
                                        (Z.abs (y - Z.quot numy 2)))); [reflexivity |].
        destruct (Z.eqb_spec x (Z.quot numx 2
                                + Z.max (Z.abs (x - Z.quot numx 2))
                                        (Z.abs (y - Z.quot numy 2)))); [reflexivity |].
        destruct (Z.eqb_spec y (Z.quot numy 2
                                - Z.max (Z.abs (x - Z.quot numx 2))
                                        (Z.abs (y - Z.quot numy 2))));
          [cbn; rewrite ?andb_false_r; reflexivity |].
        destruct (Z.eqb_spec y (Z.quot numy 2
                                + Z.max (Z.abs (x - Z.quot numx 2))
                                        (Z.abs (y - Z.quot numy 2))));
          [cbn; rewrite ?andb_false_r; reflexivity |].
        lia.
      * apply negb_true_iff.
        destruct (Z.ltb_spec x 0); [lia |]. destruct (Z.ltb_spec y 0); [lia |].
        destruct (Z.geb_spec x numx); [lia |]. destruct (Z.geb_spec y numy); [lia |].
        reflexivity.
Qed.

Lemma scan_tiles_all (tile : Z * Z -> list Vector3)
    (finish : list Vector3 -> Vector3 * nat) (tiles : list (Z * Z)) :
  forall points,
    (List.length (points ++ flat_map tile tiles) <= 100)%nat ->
    Spec.scan_tiles (fun n => (100 <? n)%nat) tile finish tiles points
    = inl (points ++ flat_map tile tiles)%list.
Proof.
  induction tiles as [| t tiles IH]; intros points Hlen.
  - cbn. now rewrite app_nil_r.
  - cbn [Spec.scan_tiles flat_map] in *. rewrite app_assoc in Hlen.
    destruct (Nat.ltb_spec 100 (List.length (points ++ tile t))) as [Hmany | Hfew].
    + rewrite length_app in Hlen. lia.
    + rewrite IH by exact Hlen. now rewrite app_assoc.
Qed.

(** A cloud with at most 100 valid points in its tiles. The search
    visits every tile of the grid, each once, never stops on the way, and
    the center is the approximate median of the valid points of all the
    tiles. *)
Theorem cloud_center_of_small_cloud :
  forall (RAND_MAX : Z) (rand_seq : nat -> Z) (trans_crop_win : BBox2i)
         (tile_size : Z * Z) (point_cloud : ImageViewRef) (k : nat),
    let numx := ceil_div (cols point_cloud) (fst tile_size) in
    let numy := ceil_div (rows point_cloud) (snd tile_size) in
    let tiles := Spec.spiral_tiles numx numy in
    (List.length (Spec.points_of trans_crop_win tile_size point_cloud tiles) <= 100)%nat ->
    find_point_cloud_center RAND_MAX rand_seq trans_crop_win tile_size point_cloud k
    = find_approx_points_median RAND_MAX rand_seq
        (Spec.points_of trans_crop_win tile_size point_cloud tiles) k
    /\ NoDup tiles
    /\ forall x y, In (x, y) tiles <-> (0 <= x < numx /\ 0 <= y < numy).
Proof.
  intros RAND_MAX rand_seq trans_crop_win tile_size point_cloud k numx numy tiles Hlen.
  split; [| apply spiral_tiles_cover].
  rewrite find_point_cloud_center_scan. fold numx numy tiles.
  rewrite scan_tiles_all by exact Hlen. reflexivity.
Qed.

Lemma cloud_center_of_small_cloud_witness :
  find_point_cloud_center Fixtures.glibc_RAND_MAX Fixtures.rand_12345
    Fixtures.three_point_window (1, 1) Fixtures.three_point_cloud 0
  = find_approx_points_median Fixtures.glibc_RAND_MAX Fixtures.rand_12345
      [V3 1 1 1; V3 (1 # 2) (1 # 2) (1 # 2);
       V3 Fixtures.nudged_one Fixtures.nudged_one Fixtures.nudged_one]%Q 0.
Proof.
  destruct (cloud_center_of_small_cloud Fixtures.glibc_RAND_MAX Fixtures.rand_12345
              Fixtures.three_point_window (1, 1) Fixtures.three_point_cloud 0%nat)
    as (Hcenter & _).
  - vm_compute. lia.
  - rewrite Hcenter. reflexivity.
Defined.

Lemma nudge_bound (R r : Z) (m : double) :
  0 < R -> 0 <= r <= R ->
  (Qabs (Spec.perturbed R m r - m) <= (1 # 10000000000) * Qabs m)%Q.
Proof.
  intros HR Hr. unfold Spec.perturbed, double in *.
  assert (HRq : (0 < inject_Z R)%Q) by (change 0%Q with (inject_Z 0); rewrite <- Zlt_Qlt; lia).
  assert (Hrq : (0 <= inject_Z r)%Q) by (change 0%Q with (inject_Z 0); rewrite <- Zle_Qle; lia).
  assert (HrR : (inject_Z r <= inject_Z R)%Q) by (rewrite <- Zle_Qle; lia).
  assert (Ht0 : (0 <= inject_Z r / inject_Z R)%Q).
  { apply Qle_shift_div_l; [exact HRq |]. rewrite Qmult_0_l. exact Hrq. }
  assert (Ht1 : (inject_Z r / inject_Z R <= 1)%Q).
  { apply Qle_shift_div_r; [exact HRq |]. rewrite Qmult_1_l. exact HrR. }
  assert (Heq : (m + m * (1 # 10000000000) * inject_Z r / inject_Z R - m
                 == m * ((1 # 10000000000) * (inject_Z r / inject_Z R)))%Q).
  { field. intros H0. rewrite H0 in HRq. apply (Qlt_irrefl 0), HRq. }
  rewrite Heq, Qabs_Qmult.
  rewrite (Qabs_pos ((1 # 10000000000) * (inject_Z r / inject_Z R))).
  2:{ apply Qmult_le_0_compat; [discriminate | exact Ht0]. }
  apply Qle_trans with ((inject_Z r / inject_Z R) * ((1 # 10000000000) * Qabs m))%Q.
  { apply Qle_lteq. right. ring. }
  rewrite <- (Qmult_1_l ((1 # 10000000000) * Qabs m)) at 2.
  apply Qmult_le_compat_r; [exact Ht1 |].
  apply Qmult_le_0_compat; [discriminate | apply Qabs_nonneg].
Qed.

Lemma upper_median_in (V : list double) : V <> [] -> In (Spec.upper_median V) V.
Proof.
  intros HV. unfold Spec.upper_median.
  apply (Permutation_in _ (sort_perm V)).
  apply nth_In. rewrite (Permutation_length (sort_perm V)).
  destruct V as [| v V]; [congruence |].
  apply Nat.div_lt; cbn [List.length]; lia.
Qed.

(** The center of a non-empty list of points. Each of its coordinates is
    within the relative distance 1e-10 of the same coordinate of one of
    the points (not always the same point for the three coordinates), and
    [rand] has been called three times; for an empty list the center is
    the origin and [rand] is not called. *)
Theorem approx_median_near_a_point :
  forall (RAND_MAX : Z) (rand_seq : nat -> Z) (points : list Vector3) (k : nat),
    0 < RAND_MAX ->
    (forall j, 0 <= rand_seq j <= RAND_MAX) ->
    let center := find_approx_points_median RAND_MAX rand_seq points k in
    (points = [] -> center = (Vector3_zero, k))
    /\ (points <> [] ->
        snd center = (k + 3)%nat
        /\ forall i, exists p,
             In p points
             /\ (Qabs (coord i (fst center) - coord i p)
                 <= (1 # 10000000000) * Qabs (coord i p))%Q).
Proof.
  intros RAND_MAX rand_seq points k HR Hrand center. subst center. split.
  - intros ->. reflexivity.
  - intros Hne. destruct points as [| p0 ps] eqn:Hpts; [congruence |].
    assert (Hcenter : find_approx_points_median RAND_MAX rand_seq (p0 :: ps) k
                      = (V3 (approx_median_coord RAND_MAX (p0 :: ps) 0 (rand_seq k))
                            (approx_median_coord RAND_MAX (p0 :: ps) 1 (rand_seq (k + 1)%nat))
                            (approx_median_coord RAND_MAX (p0 :: ps) 2 (rand_seq (k + 2)%nat)),
                         (k + 3)%nat)) by reflexivity.
    rewrite Hcenter. clear Hcenter. rewrite <- Hpts in *.
    cbn [fst snd]. split; [reflexivity |].
    intros i.
    assert (Hmed : exists p, In p points
                             /\ coord i p = Spec.upper_median (map (coord i) points)).
    { assert (Hin : In (Spec.upper_median (map (coord i) points))
                       (map (coord i) points)).
      { apply upper_median_in. rewrite Hpts. discriminate. }
      apply in_map_iff in Hin. destruct Hin as (p & Hp & Hin). exists p. auto. }
    destruct Hmed as (p & Hin & Hp). exists p. split; [exact Hin |].
    rewrite Hp.
    destruct i as [| [| i]]; cbn [coord v3x v3y v3z];
      rewrite approx_median_coord_perturbed; apply nudge_bound; auto.
Qed.

Lemma approx_median_near_a_point_witness :
  exists p,
    In p [V3 1 2 3; V3 4 5 6; V3 7 8 9]%Q
    /\ (Qabs (coord 0
                (fst (find_approx_points_median Fixtures.glibc_RAND_MAX
                        Fixtures.rand_12345 [V3 1 2 3; V3 4 5 6; V3 7 8 9]%Q 0))
              - coord 0 p)
        <= (1 # 10000000000) * Qabs (coord 0 p))%Q.
Proof.
  destruct (approx_median_near_a_point Fixtures.glibc_RAND_MAX Fixtures.rand_12345
              [V3 1 2 3; V3 4 5 6; V3 7 8 9]%Q 0%nat) as (_ & Hnear).
  - reflexivity.
  - intros j. vm_compute. split; discriminate.
  - destruct (Hnear ltac:(discriminate)) as (_ & Hcoord). exact (Hcoord 0%nat).
Defined.


End CloudCenterMore.

(** ** The tokens of an option string *)

Section OptionTokens.

Import BundleAdjustCamera2.
Local Open Scope string_scope.

Lemma string_map_map (f g : ascii -> ascii) (s : string) :
  string_map f (string_map g s) = string_map (fun x => f (g x)) s.
Proof.
  induction s as [| c s IH]; cbn [string_map]; [reflexivity | now rewrite IH].
Qed.

Lemma string_map_ext (f g : ascii -> ascii) (s : string) :
  (forall x, f x = g x) -> string_map f s = string_map g s.
Proof.
  intros Hfg. induction s as [| c s IH]; cbn [string_map];
    [reflexivity | now rewrite IH, Hfg].
Qed.

Local Abbreviation spaced :=
  (fun x : ascii => if Spec.is_separator x then " "%char else x).

Lemma replace_separators_with_space_map (str : string) :
  replace_separators_with_space str = string_map spaced str.
Proof.
  unfold replace_separators_with_space, sep. cbn [fold_left]. unfold replace_char.
  rewrite !string_map_map. apply string_map_ext.
  intros [[] [] [] [] [] [] [] []]; vm_compute; reflexivity.
Qed.

Lemma isspace_spaced (x : ascii) : isspace (spaced x) = negb (Spec.token_char x).
Proof. destruct x as [[] [] [] [] [] [] [] []]; vm_compute; reflexivity. Qed.

Lemma spaced_token_char (x : ascii) : Spec.token_char x = true -> spaced x = x.
Proof.
  unfold Spec.token_char. intros H. apply andb_true_iff in H. destruct H as [_ H].
  apply negb_true_iff in H. now rewrite H.
Qed.

Lemma append_nil_r (s : string) : s ++ "" = s.
Proof. induction s as [| c s IH]; cbn; [reflexivity | now rewrite IH]. Qed.

Lemma append_assoc' (s t u : string) : (s ++ t) ++ u = s ++ (t ++ u).
Proof. induction s as [| c s IH]; cbn; [reflexivity | now rewrite IH]. Qed.

Lemma string_forallb_app (p : ascii -> bool) (s t : string) :
  Spec.string_forallb p (s ++ t) = Spec.string_forallb p s && Spec.string_forallb p t.
Proof.
  induction s as [| c s IH]; cbn; [reflexivity | now rewrite IH, andb_assoc].
Qed.

Lemma append_not_empty (s : string) (c : ascii) (t : string) :
  (s ++ String c t =? "") = false.
Proof. destruct s; reflexivity. Qed.

Lemma split_loop_tokens (str : string) :
  forall cur,
    Spec.string_forallb Spec.token_char cur = true ->
    forallb Spec.is_token (split_loop (string_map spaced str) cur) = true
    /\ Spec.concat_all (split_loop (string_map spaced str) cur)
       = cur ++ Spec.string_filter Spec.token_char str.
Proof.
  induction str as [| c str IH]; intros cur Hcur.
  - cbn [string_map split_loop Spec.string_filter].
    destruct (cur =? "") eqn:Hempty.
    + apply String.eqb_eq in Hempty. subst cur. split; reflexivity.
    + cbn [forallb Spec.concat_all fold_right]. unfold Spec.is_token.
      rewrite Hempty, Hcur. split; reflexivity.
  - cbn [string_map split_loop Spec.string_filter]. rewrite isspace_spaced.
    destruct (Spec.token_char c) eqn:Hc; cbn [negb].
    + rewrite (spaced_token_char c Hc).
      destruct (IH (cur ++ String c "")) as [Htok Hcat].
      { rewrite string_forallb_app, Hcur. cbn. now rewrite Hc. }
      split; [exact Htok |]. rewrite Hcat, append_assoc'. reflexivity.
    + destruct (IH "" eq_refl) as [Htok Hcat].
      destruct (cur =? "") eqn:Hempty.
      * apply String.eqb_eq in Hempty. subst cur. split; [exact Htok | exact Hcat].
      * cbn [forallb Spec.concat_all fold_right]. unfold Spec.is_token at 1.
        rewrite Hempty, Hcur. split; [exact Htok |].
        fold (Spec.concat_all (split_loop (string_map spaced str) "")).
        rewrite Hcat. reflexivity.
Qed.

(** The tokens of an option string, after its separators are replaced
    by spaces: none is empty, none holds a separator or a white space, and
    together they hold the characters of the string that are neither, in
    order. *)
Theorem option_tokens_hold_the_text :
  forall str : string,
    let tokens := split_str_with_space (replace_separators_with_space str) in
    forallb Spec.is_token tokens = true
    /\ Spec.concat_all tokens = Spec.string_filter Spec.token_char str.
Proof.
  intros str tokens. subst tokens. unfold split_str_with_space.
  rewrite replace_separators_with_space_map.
  apply (split_loop_tokens str "" eq_refl).
Qed.

Lemma string_map_app (f : ascii -> ascii) (s t : string) :
  string_map f (s ++ t) = string_map f s ++ string_map f t.
Proof. induction s as [| c s IH]; cbn; [reflexivity | now rewrite IH]. Qed.

Lemma split_loop_reads_token (t rest : string) :
  forall cur,
    Spec.string_forallb Spec.token_char t = true ->
    split_loop (string_map spaced t ++ rest) cur = split_loop rest (cur ++ t).
Proof.
  induction t as [| c t IH]; intros cur Ht.
  - cbn. now rewrite append_nil_r.
  - cbn [Spec.string_forallb] in Ht. apply andb_true_iff in Ht. destruct Ht as [Hc Ht].
    cbn [string_map append split_loop]. rewrite isspace_spaced, Hc. cbn [negb].
    rewrite (spaced_token_char c Hc), (IH _ Ht), append_assoc'. reflexivity.
Qed.

(** Round trip: tokens written one after the other with a separator (or
    a white space) between them are read back as they were. *)
Theorem option_tokens_round_trip :
  forall (c : ascii) (tokens : list string),
    Spec.token_char c = false ->
    forallb Spec.is_token tokens = true ->
    split_str_with_space (replace_separators_with_space (Spec.join c tokens)) = tokens.
Proof.
  intros c tokens Hc. unfold split_str_with_space.
  rewrite replace_separators_with_space_map.
  induction tokens as [| t rest IH]; intros Htok; [reflexivity |].
  cbn [forallb] in Htok. apply andb_true_iff in Htok. destruct Htok as [Ht Hrest].
  unfold Spec.is_token in Ht. apply andb_true_iff in Ht. destruct Ht as [Hne Ht].
  apply negb_true_iff in Hne.
  destruct rest as [| t' rest].
  - cbn [Spec.join]. rewrite <- (append_nil_r (string_map spaced t)).
    rewrite (split_loop_reads_token t "" "" Ht). cbn [append split_loop].
    now rewrite Hne.
  - change (Spec.join c (t :: t' :: rest))
      with (t ++ String c (Spec.join c (t' :: rest))).
    rewrite string_map_app, (split_loop_reads_token t _ "" Ht).
    cbn [append string_map split_loop]. rewrite isspace_spaced, Hc, Hne. cbn [negb].
    f_equal. apply IH. exact Hrest.
Qed.

Lemma option_tokens_round_trip_witness :
  Spec.token_char ","%char = false
  /\ split_str_with_space
       (replace_separators_with_space "focal_length,optical_center,other_intrinsics")
     = ["focal_length"; "optical_center"; "other_intrinsics"].
Proof.
  split; [reflexivity |].
  apply (option_tokens_round_trip ","%char
           ["focal_length"; "optical_center"; "other_intrinsics"]); reflexivity.
Defined.

End OptionTokens.
